(** * Shopify mirror backend: webhook authentication, dispatcher, pagination
    and full synchronisation, as a shallow embedding.

    Sources embedded here:
      - [src/dist/webhooks.js]  ([verifyHmac], [processWebhookPayload])
      - [src/dist/sync.js]      ([fetchShopifyCustomerById], [fullSync])
      - [src/src/shopify.ts]    ([shopifyFetch], [extractNextPageInfo],
                                 [paginateAll], [makeClient], [fetchAll*])
      - [src/unnamed/part_000]  (the routes of [src/index.ts]: webhooks,
                                 onboarding, the two syncs, the metrics
                                 summary; and the scheduled job)
      - the Prisma migration    (tables and unique indexes)

    JavaScript strings are represented by their UTF-8 bytes (Rocq [string]),
    numbers by integers, and the three external collaborators (the storage
    client, the remote HTTP API and the console) by explicit components of a
    [World] threaded through a state-and-exception monad. *)

From Stdlib Require Import List String Ascii ZArith Lia Bool Arith.
From Stdlib Require Import Strings.Byte DecimalString.
Import ListNotations.
Local Open Scope string_scope.
Local Open Scope list_scope.

(* ====================================================================== *)
(** ** Bytes and buffers *)

Definition Buffer := list byte.

Definition Z_of_byte (b : byte) : Z := Z.of_N (Byte.to_N b).

Definition byte_of_Z (z : Z) : byte :=
  match Byte.of_N (Z.to_N (z mod 256)) with
  | Some b => b
  | None => x00
  end.

(** [Buffer.from(s, "utf8")] on a string already held as UTF-8 bytes. *)
Definition Buffer_from_string (s : string) : Buffer := list_byte_of_string s.

Fixpoint buffer_eqb (a b : Buffer) : bool :=
  match a, b with
  | [], [] => true
  | x :: a', y :: b' => Byte.eqb x y && buffer_eqb a' b'
  | _, _ => false
  end.

(* ====================================================================== *)
(** ** SHA-256 (FIPS 180-4), HMAC (RFC 2104) and base64 (RFC 4648)

    These are what [crypto.createHmac("sha256", secret).update(buf)
    .digest("base64")] computes. Words are 32-bit integers held in [Z] with
    the wrap-around written out. *)

Module SHA256.
Local Open Scope Z_scope.

Definition wrap (x : Z) : Z := x mod 2 ^ 32.
Definition add32 (x y : Z) : Z := wrap (x + y).
Definition rotr (n x : Z) : Z :=
  Z.lor (Z.shiftr x n) (wrap (Z.shiftl x (32 - n))).
Definition not32 (x : Z) : Z := Z.lxor x 0xffffffff.

Definition Ch (x y z : Z) : Z := Z.lxor (Z.land x y) (Z.land (not32 x) z).
Definition Maj (x y z : Z) : Z :=
  Z.lxor (Z.lxor (Z.land x y) (Z.land x z)) (Z.land y z).
Definition bsig0 x := Z.lxor (Z.lxor (rotr 2 x) (rotr 13 x)) (rotr 22 x).
Definition bsig1 x := Z.lxor (Z.lxor (rotr 6 x) (rotr 11 x)) (rotr 25 x).
Definition ssig0 x := Z.lxor (Z.lxor (rotr 7 x) (rotr 18 x)) (Z.shiftr x 3).
Definition ssig1 x := Z.lxor (Z.lxor (rotr 17 x) (rotr 19 x)) (Z.shiftr x 10).

(** The round constants are the first 32 bits of the fractional parts of
  the cube roots of the first 64 primes, the initial hash value those of
  the square roots of the first 8 (FIPS 180-4, 4.2.2 and 5.3.3). *)
Definition primes : list Z :=
  [ 2; 3; 5; 7; 11; 13; 17; 19; 23; 29; 31; 37; 41; 43; 47; 53;
    59; 61; 67; 71; 73; 79; 83; 89; 97; 101; 103; 107; 109; 113; 127; 131;
    137; 139; 149; 151; 157; 163; 167; 173; 179; 181; 191; 193; 197; 199;
    211; 223; 227; 229; 233; 239; 241; 251; 257; 263; 269; 271; 277; 281;
    283; 293; 307; 311 ].

(** Integer cube root of a number below [2 ^ 108], bit by bit. *)
Definition cube_root (n : Z) : Z :=
  fold_left (fun r bit =>
               let r' := r + 2 ^ bit in
               if r' * r' * r' <=? n then r' else r)
            (map Z.of_nat (rev (seq 0 36))) 0.

Definition K : list Z := map (fun p => wrap (cube_root (p * 2 ^ 96))) primes.

Definition state : Type := (Z * Z * Z * Z * Z * Z * Z * Z)%type.

Definition H0 : state :=
  let h p := wrap (Z.sqrt (p * 2 ^ 64)) in
  (h 2, h 3, h 5, h 7, h 11, h 13, h 17, h 19).

(** Message schedule, built backwards: the head of [w] is W(t-1). *)
Fixpoint schedule (n : nat) (w : list Z) : list Z :=
  match n with
  | O => w
  | S n' =>
      let wt := add32 (add32 (add32 (ssig1 (nth 1 w 0)) (nth 6 w 0))
                             (ssig0 (nth 14 w 0))) (nth 15 w 0) in
      schedule n' (wt :: w)
  end.

Definition round (s : state) (kw : Z * Z) : state :=
  let '(a, b, c, d, e, f, g, h) := s in
  let '(k, w) := kw in
  let t1 := add32 (add32 (add32 (add32 h (bsig1 e)) (Ch e f g)) k) w in
  let t2 := add32 (bsig0 a) (Maj a b c) in
  (add32 t1 t2, a, b, c, add32 d t1, e, f, g).

Definition compress (s : state) (block : list Z) : state :=
  let w := rev (schedule 48 (rev block)) in
  let '(a, b, c, d, e, f, g, h) := fold_left round (combine K w) s in
  let '(a0, b0, c0, d0, e0, f0, g0, h0) := s in
  (add32 a0 a, add32 b0 b, add32 c0 c, add32 d0 d,
   add32 e0 e, add32 f0 f, add32 g0 g, add32 h0 h).

(** Big-endian packing of bytes into words and back. *)
Fixpoint words_of_bytes (bs : list Z) : list Z :=
  match bs with
  | b3 :: b2 :: b1 :: b0 :: rest =>
      (Z.shiftl b3 24 + Z.shiftl b2 16 + Z.shiftl b1 8 + b0)
        :: words_of_bytes rest
  | _ => []
  end.

Definition bytes_of_word (w : Z) : list Z :=
  [ Z.shiftr w 24 mod 256; Z.shiftr w 16 mod 256;
    Z.shiftr w 8 mod 256; w mod 256 ].

Definition length_bytes (bits : Z) : list Z :=
  bytes_of_word (Z.shiftr bits 32 mod 2 ^ 32) ++ bytes_of_word (bits mod 2 ^ 32).

(** Padding: a one bit, zeros up to 56 mod 64, then the bit length. *)
Definition pad (msg : list Z) : list Z :=
  let len := Z.of_nat (List.length msg) in
  let zeros := Z.to_nat ((55 - len) mod 64) in
  msg ++ [0x80] ++ repeat 0 zeros ++ length_bytes (8 * len).

Fixpoint blocks (n : nat) (ws : list Z) : list (list Z) :=
  match n with
  | O => []
  | S n' =>
      match ws with
      | [] => []
      | _ => firstn 16 ws :: blocks n' (skipn 16 ws)
      end
  end.

Definition digest_words (msg : list Z) : state :=
  let ws := words_of_bytes (pad msg) in
  fold_left compress (blocks (List.length ws) ws) H0.

Definition digest (msg : Buffer) : Buffer :=
  let '(a, b, c, d, e, f, g, h) := digest_words (map Z_of_byte msg) in
  map byte_of_Z (flat_map bytes_of_word [a; b; c; d; e; f; g; h]).
End SHA256.

Module HMAC.
Local Open Scope Z_scope.

Definition block_size : nat := 64.

(** Keys longer than one block are hashed; shorter ones are padded with
    zero bytes up to the block size. *)
Definition key_block (key : Buffer) : list Z :=
  let k := if Nat.ltb block_size (List.length key) then SHA256.digest key else key in
  map Z_of_byte k ++ repeat 0 (block_size - List.length k).

Definition xor_pad (c : Z) (kb : list Z) : Buffer :=
  map (fun b => byte_of_Z (Z.lxor b c)) kb.

Definition hmac_sha256 (key msg : Buffer) : Buffer :=
  let kb := key_block key in
  SHA256.digest (xor_pad 0x5c kb ++ SHA256.digest (xor_pad 0x36 kb ++ msg)).
End HMAC.

Module Base64.
Local Open Scope Z_scope.

Definition alphabet : string :=
  "ABCDEFGHIJKLMNOPQRSTUVWXYZabcdefghijklmnopqrstuvwxyz0123456789+/".

Definition sextet (n : Z) : ascii :=
  match String.get (Z.to_nat (n mod 64)) alphabet with
  | Some c => c
  | None => "="%char
  end.

Fixpoint encode_Z (bs : list Z) : string :=
  match bs with
  | [] => EmptyString
  | [a] =>
      String (sextet (Z.shiftr a 2))
        (String (sextet (Z.shiftl (Z.land a 3) 4)) "==")
  | [a; b] =>
      String (sextet (Z.shiftr a 2))
        (String (sextet (Z.lor (Z.shiftl (Z.land a 3) 4) (Z.shiftr b 4)))
           (String (sextet (Z.shiftl (Z.land b 15) 2)) "="))
  | a :: b :: c :: rest =>
      String (sextet (Z.shiftr a 2))
        (String (sextet (Z.lor (Z.shiftl (Z.land a 3) 4) (Z.shiftr b 4)))
           (String (sextet (Z.lor (Z.shiftl (Z.land b 15) 2) (Z.shiftr c 6)))
              (String (sextet (Z.land c 63)) (encode_Z rest))))
  end.

Definition encode (b : Buffer) : string := encode_Z (map Z_of_byte b).
End Base64.

(** [crypto.createHmac("sha256", secret).update(dataBuf).digest("base64")] *)
Definition hmac_base64 (secret : string) (dataBuf : Buffer) : string :=
  Base64.encode (HMAC.hmac_sha256 (Buffer_from_string secret) dataBuf).

Definition hex_of_buffer (b : Buffer) : string :=
  let digit (n : Z) : ascii :=
    match String.get (Z.to_nat n) "0123456789abcdef" with
    | Some c => c
    | None => "?"%char
    end in
  fold_right (fun x acc =>
                String (digit (Z_of_byte x / 16)%Z)
                  (String (digit (Z_of_byte x mod 16)%Z) acc))
             EmptyString b.

(* ====================================================================== *)
(** ** JavaScript values

    Parsed JSON payloads and remote records are untyped in the source
    ([any]); they are kept as a tree of values with the coercions the code
    applies to them ([String(x)], truthiness, [??], [?.], [x[0]]). Objects
    are association lists in insertion order. *)

#[local] Set Warnings "-register-all".

Inductive value : Type :=
| VUndefined
| VNull
| VBool (b : bool)
| VNum (n : Z)
| VStr (s : string)
| VArr (items : list value)
| VObj (fields : list (string * value)).

Definition string_of_Z (n : Z) : string := NilZero.string_of_int (Z.to_int n).

Definition nullish (v : value) : bool :=
  match v with VUndefined | VNull => true | _ => false end.

Definition truthy (v : value) : bool :=
  match v with
  | VUndefined | VNull => false
  | VBool b => b
  | VNum n => negb (Z.eqb n 0)
  | VStr s => negb (String.eqb s "")
  | VArr _ | VObj _ => true
  end.

(** [a ?? b] *)
Definition coalesce (a b : value) : value := if nullish a then b else a.

Fixpoint assoc {A : Type} (k : string) (l : list (string * A)) : option A :=
  match l with
  | [] => None
  | (k', a) :: l' => if String.eqb k k' then Some a else assoc k l'
  end.

(** [v.k] for a value that is neither [null] nor [undefined]; none of the
  property names the code reads exists on arrays, strings, numbers or
  booleans. *)
Definition prop (k : string) (v : value) : value :=
  match v with
  | VObj fields => match assoc k fields with Some x => x | None => VUndefined end
  | _ => VUndefined
  end.

(** [v?.k] *)
Definition opt_prop (k : string) (v : value) : value :=
  if nullish v then VUndefined else prop k v.

(** [v[0]] for a truthy [v]. *)
Definition index0 (v : value) : value :=
  match v with
  | VArr (x :: _) => x
  | VStr (String c _) => VStr (String c EmptyString)
  | VObj fields => match assoc "0" fields with Some x => x | None => VUndefined end
  | _ => VUndefined
  end.

Fixpoint join (sep : string) (l : list string) : string :=
  match l with
  | [] => ""
  | [s] => s
  | s :: l' => s ++ sep ++ join sep l'
  end.

(** [String(v)] *)
Fixpoint to_String (v : value) : string :=
  match v with
  | VUndefined => "undefined"
  | VNull => "null"
  | VBool true => "true"
  | VBool false => "false"
  | VNum n => string_of_Z n
  | VStr s => s
  | VArr items =>
      join "," (map (fun x => if nullish x then "" else to_String x) items)
  | VObj _ => "[object Object]"
  end.

Definition dquote : ascii := ascii_of_nat 34.
Definition backslash : ascii := ascii_of_nat 92.

Module JSON.
Local Open Scope string_scope.

Definition hex_digit (n : nat) : ascii :=
  match String.get n "0123456789abcdef" with Some c => c | None => "0"%char end.

Definition escape_char (c : ascii) : string :=
  let n := nat_of_ascii c in
  if Nat.eqb n 34 then String backslash (String dquote "")
  else if Nat.eqb n 92 then String backslash (String backslash "")
  else if Nat.eqb n 8 then String backslash "b"
  else if Nat.eqb n 12 then String backslash "f"
  else if Nat.eqb n 10 then String backslash "n"
  else if Nat.eqb n 13 then String backslash "r"
  else if Nat.eqb n 9 then String backslash "t"
  else if Nat.ltb n 32 then
    String backslash
      ("u00" ++ String (hex_digit (n / 16)) (String (hex_digit (n mod 16)) ""))
  else String c "".

Definition quote (s : string) : string :=
  String dquote
    (String.concat "" (map escape_char (list_ascii_of_string s))
     ++ String dquote "").

(** [JSON.stringify(v)]; [None] is the [undefined] result. Inside an array
    an [undefined] is written [null], inside an object the member is
    dropped. *)
Fixpoint stringify (v : value) : option string :=
  match v with
  | VUndefined => None
  | VNull => Some "null"
  | VBool true => Some "true"
  | VBool false => Some "false"
  | VNum n => Some (string_of_Z n)
  | VStr s => Some (quote s)
  | VArr items =>
      Some ("[" ++ join ","
              (map (fun x => match stringify x with
                             | Some s => s
                             | None => "null"
                             end) items) ++ "]")
  | VObj fields =>
      Some ("{" ++ join ","
              (flat_map (fun kx => match stringify (snd kx) with
                                   | Some s => [quote (fst kx) ++ ":" ++ s]
                                   | None => []
                                   end) fields) ++ "}")
  end.
End JSON.

(* ====================================================================== *)
(** ** Persisted schema (the Prisma migration)

    Row ids are generated by the storage client on insert; they are drawn
    from a counter kept in the store. Text columns hold strings, nullable
    columns an [option]. A [JsDate] stands for the object [new Date(x)] and
    remembers [x]; a [Decimal] is kept as the text it was written from. *)

Inductive JsDate : Type := new_Date (src : value).
Definition Decimal := string.

Record Tenant := mkTenant {
  t_id : string;
  t_shop : string;
  t_accessToken : option string;
  t_webhookSecret : option string
}.

Record Customer := mkCustomer {
  c_id : nat;
  c_tenantId : string;
  c_shopifyCustomerId : string;
  c_email : option string;
  c_firstName : option string;
  c_lastName : option string;
  c_createdAt : option JsDate;
  c_updatedAt : option JsDate
}.

Record Product := mkProduct {
  p_id : nat;
  p_tenantId : string;
  p_shopifyProductId : string;
  p_title : string;
  p_sku : option string;
  p_price : Decimal;
  p_createdAt : option JsDate
}.

Record Order := mkOrder {
  o_id : nat;
  o_tenantId : string;
  o_shopifyOrderId : string;
  o_orderNumber : option string;
  o_totalPrice : Decimal;
  o_currency : option string;
  o_createdAt : option JsDate;
  o_customerId : option nat
}.

Record Store := mkStore {
  tenants : list Tenant;
  customers : list Customer;
  products : list Product;
  orders : list Order;
  next_id : nat
}.

(* ====================================================================== *)
(** ** The world and the monad of effects

    - [w_db]       the tables;
    - [w_faults]   a script saying, for each storage call in turn, whether
                   the storage layer rejects it (connectivity, a malformed
                   date or decimal, ...); an exhausted script means no
                   further fault;
    - [w_replies]  the replies the remote API will give, in order;
    - [w_requests] the requests issued so far;
    - [w_console]  what was written to the console. *)

Record Error := mkError {
  e_name : string;
  e_message : string;
  e_status : option Z        (* [err.response?.status] *)
}.

Definition TypeError (msg : string) : Error := mkError "TypeError" msg None.
Definition RangeError (msg : string) : Error := mkError "RangeError" msg None.
Definition JsError (msg : string) : Error := mkError "Error" msg None.
Definition PrismaError (msg : string) : Error := mkError "PrismaClientError" msg None.

Record Reply := mkReply {
  status : Z;
  body : value;                      (* [await res.json()] *)
  link : option string               (* [headers.get("link")] *)
}.

Record ShopifyClient := mkClient {
  shop : string;
  accessToken : string;
  apiVersion : option string
}.

Record Request := mkRequest {
  rq_client : ShopifyClient;
  rq_path : string;
  rq_query : list (string * string)
}.

Inductive level := LLog | LDebug | LWarn | LError.

Record World := mkWorld {
  w_db : Store;
  w_faults : list bool;
  w_replies : list Reply;
  w_requests : list Request;
  w_console : list (level * string)
}.

Inductive outcome (A : Type) : Type :=
| Ok (a : A)
| Throw (e : Error).
Arguments Ok {A} a.
Arguments Throw {A} e.

Definition M (A : Type) : Type := World -> outcome A * World.

Definition ret {A} (a : A) : M A := fun w => (Ok a, w).
Definition throw {A} (e : Error) : M A := fun w => (Throw e, w).

Definition bind {A B} (m : M A) (k : A -> M B) : M B :=
  fun w => match m w with
           | (Ok a, w') => k a w'
           | (Throw e, w') => (Throw e, w')
           end.

(** [try { m } catch (err) { h err }] *)
Definition try_catch {A} (m : M A) (h : Error -> M A) : M A :=
  fun w => match m w with
           | (Ok a, w') => (Ok a, w')
           | (Throw e, w') => h e w'
           end.

Declare Scope js_scope.
Delimit Scope js_scope with js.
Notation "x <- m ;; k" := (bind m (fun x => k))
  (at level 100, m at next level, right associativity) : js_scope.
Notation "m ;; k" := (bind m (fun _ => k))
  (at level 100, right associativity) : js_scope.
Local Open Scope js_scope.

Definition lift {A} (o : outcome A) : M A := fun w => (o, w).

Definition console (l : level) (msg : string) : M unit :=
  fun w => (Ok tt, mkWorld (w_db w) (w_faults w) (w_replies w) (w_requests w)
                     (w_console w ++ [(l, msg)])).

(** [for (const x of xs) { acc = body acc x }] with the loop-carried
  variable threaded through. *)
Fixpoint for_of {A S} (xs : list A) (body : S -> A -> M S) (acc : S) : M S :=
  match xs with
  | [] => ret acc
  | x :: xs' => acc' <- body acc x ;; for_of xs' body acc'
  end.

(** [v.k] where [v] may be [null] or [undefined]. *)
Definition get_prop (k : string) (v : value) : M value :=
  if nullish v
  then throw (TypeError ("Cannot read properties of " ++ to_String v))
  else ret (prop k v).

Definition exec {A} (m : M A) (w : World) : World := snd (m w).
Definition result {A} (m : M A) (w : World) : outcome A := fst (m w).


(* ====================================================================== *)
(** ** The storage client ([prisma])

    Every call first consults the fault script. A call that is not rejected
    validates its arguments against the column types ([undefined] leaves a
    column alone, [null] is accepted by nullable columns only) and then runs
    atomically on the tables. The three model delegates ([prisma.customer],
    [prisma.product], [prisma.order]) share one interface, [Model]. *)

Inductive slot (A : Type) : Type :=
| Keep
| Put (a : A).
Arguments Keep {A}.
Arguments Put {A} a.

Definition set_slot {A} (s : slot A) (old : A) : A :=
  match s with
  | Keep => old
  | Put a => a
  end.

Fixpoint update_first {R} (f : R -> bool) (g : R -> R) (rows : list R) : list R :=
  match rows with
  | [] => []
  | r :: rows' => if f r then g r :: rows' else r :: update_first f g rows'
  end.

Module prisma.

Definition storage_call {A} (tx : Store -> outcome (A * Store)) : M A :=
  fun w =>
    let run fs :=
      match tx (w_db w) with
      | Ok (a, db') =>
          (Ok a, mkWorld db' fs (w_replies w) (w_requests w) (w_console w))
      | Throw e =>
          (Throw e, mkWorld (w_db w) fs (w_replies w) (w_requests w) (w_console w))
      end in
    match w_faults w with
    | true :: fs =>
        (Throw (PrismaError "storage call rejected"),
         mkWorld (w_db w) fs (w_replies w) (w_requests w) (w_console w))
    | false :: fs => run fs
    | [] => run []
    end.

Definition invalid {A} (column : string) : outcome A :=
  Throw (PrismaError ("Invalid value for argument " ++ column)).

(** A nullable text column. *)
Definition text_opt (column : string) (v : value) : outcome (slot (option string)) :=
  match v with
  | VUndefined => Ok Keep
  | VNull => Ok (Put None)
  | VStr s => Ok (Put (Some s))
  | _ => invalid column
  end.

(** A required text column. *)
Definition text_req (column : string) (v : value) : outcome (slot string) :=
  match v with
  | VUndefined => Ok Keep
  | VStr s => Ok (Put s)
  | _ => invalid column
  end.

(** A required decimal column: a string or a number is accepted. *)
Definition decimal_req (column : string) (v : value) : outcome (slot Decimal) :=
  match v with
  | VUndefined => Ok Keep
  | VStr s => Ok (Put s)
  | VNum n => Ok (Put (string_of_Z n))
  | _ => invalid column
  end.

Definition date_opt (d : option JsDate) : slot (option JsDate) :=
  match d with
  | None => Keep
  | Some d => Put (Some d)
  end.

(** On insert a required column must be given. *)
Definition required {A} (column : string) (s : slot A) : outcome A :=
  match s with
  | Put a => Ok a
  | Keep => Throw (PrismaError ("Argument " ++ column ++ " is missing"))
  end.

(** A natural key: (tenant id, remote id). *)
Abbreviation key := (string * string)%type (only parsing).

Definition key_eqb (k : key) (tenantId remoteId : string) : bool :=
  String.eqb tenantId (fst k) && String.eqb remoteId (snd k).

(** What a model delegate is made of: rows of type [R] in one table of the
    store, query data of type [D], validated into a patch of type [P]. *)
Class Model (R D P : Type) : Type := {
  rows : Store -> list R;
  set_rows : list R -> nat -> Store -> Store;   (* new rows, ids used up *)
  row_id : R -> nat;
  row_tenant : R -> string;
  row_remote : R -> string;
  validate : D -> outcome P;
  apply : P -> R -> R;                          (* write the patch's columns *)
  fresh : nat -> key -> P -> outcome R;         (* the row an insert makes *)
  references_ok : P -> Store -> bool            (* foreign keys *)
}.

Section Delegate.
Context {R D P : Type} {model : Model R D P}.

Definition has_key (k : key) (r : R) : bool :=
  key_eqb k (row_tenant r) (row_remote r).

Definition has_id (id : nat) (r : R) : bool := Nat.eqb (row_id r) id.

(** Writing [p] to the first row that satisfies [f]. *)
Definition update_tx (f : R -> bool) (p : P) (db : Store) : outcome (R * Store) :=
  match find f (rows db) with
  | Some r =>
      if references_ok p db
      then Ok (apply p r, set_rows (update_first f (apply p) (rows db)) 0 db)
      else Throw (PrismaError "Foreign key constraint failed")
  | None => Throw (PrismaError "Record to update not found")
  end.

(** Inserting a row under a natural key that must be free. *)
Definition insert_tx (k : key) (p : P) (db : Store) : outcome (R * Store) :=
  match fresh (next_id db) k p with
  | Ok new =>
      match find (has_key k) (rows db) with
      | Some _ => Throw (PrismaError "Unique constraint failed")
      | None =>
          if references_ok p db
          then Ok (new, set_rows (rows db ++ [new]) 1 db)
          else Throw (PrismaError "Foreign key constraint failed")
      end
  | Throw x => Throw x
  end.

(** [upsert({ where: { tenantId_remoteId }, update, create })]: both data
    arguments are validated before the tables are looked at. *)
Definition upsert_tx (where_ : key) (update : D) (create : key * D) (db : Store)
  : outcome (R * Store) :=
  match validate update, validate (snd create) with
  | Ok pu, Ok pc =>
      match fresh (next_id db) (fst create) pc with
      | Ok _ =>
          match find (has_key where_) (rows db) with
          | Some _ => update_tx (has_key where_) pu db
          | None => insert_tx (fst create) pc db
          end
      | Throw x => Throw x
      end
  | Throw x, _ => Throw x
  | _, Throw x => Throw x
  end.

Definition upsert (where_ : key) (update : D) (create : key * D) : M R :=
  storage_call (upsert_tx where_ update create).

(** [findFirst({ where: { tenantId, remoteId } })] *)
Definition findFirst (where_ : key) : M (option R) :=
  storage_call (fun db => Ok (find (has_key where_) (rows db), db)).

(** [update({ where: { id }, data })] *)
Definition update (id : nat) (data : D) : M R :=
  storage_call (fun db =>
    match validate data with
    | Ok p => update_tx (has_id id) p db
    | Throw x => Throw x
    end).

(** [create({ data })] *)
Definition create (data : key * D) : M R :=
  storage_call (fun db =>
    match validate (snd data) with
    | Ok p => insert_tx (fst data) p db
    | Throw x => Throw x
    end).

(** [findMany({ where, take })]: rows come back in table order. *)
Definition findMany (where_ : R -> bool) (take : nat) : M (list R) :=
  storage_call (fun db => Ok (firstn take (filter where_ (rows db)), db)).
End Delegate.

Module tenant.
(** [findUnique({ where: { id } })] *)
Definition findUnique_id (id : string) : M (option Tenant) :=
  storage_call (fun db =>
    Ok (find (fun t => String.eqb (t_id t) id) (tenants db), db)).

(** [findUnique({ where: { shop } })] *)
Definition findUnique_shop (shop : string) : M (option Tenant) :=
  storage_call (fun db =>
    Ok (find (fun t => String.eqb (t_shop t) shop) (tenants db), db)).
End tenant.

Module customer.
Record Data := mkData {
  email : value;
  firstName : value;
  lastName : value;
  createdAt : option JsDate;
  updatedAt : option JsDate
}.

Record Patch := mkPatch {
  pt_email : slot (option string);
  pt_firstName : slot (option string);
  pt_lastName : slot (option string);
  pt_createdAt : slot (option JsDate);
  pt_updatedAt : slot (option JsDate)
}.

Definition check (d : Data) : outcome Patch :=
  match text_opt "email" (email d), text_opt "firstName" (firstName d),
        text_opt "lastName" (lastName d) with
  | Ok e, Ok f, Ok l =>
      Ok (mkPatch e f l (date_opt (createdAt d)) (date_opt (updatedAt d)))
  | Throw x, _, _ => Throw x
  | _, Throw x, _ => Throw x
  | _, _, Throw x => Throw x
  end.

(** Only the data columns are written; id, tenant id and remote id of a row
    are not part of a patch. *)
Definition write (p : Patch) (r : Customer) : Customer :=
  mkCustomer (c_id r) (c_tenantId r) (c_shopifyCustomerId r)
    (set_slot (pt_email p) (c_email r))
    (set_slot (pt_firstName p) (c_firstName r))
    (set_slot (pt_lastName p) (c_lastName r))
    (set_slot (pt_createdAt p) (c_createdAt r))
    (set_slot (pt_updatedAt p) (c_updatedAt r)).

(** Every data column of a customer is nullable. *)
Definition new_row (id : nat) (k : key) (p : Patch) : outcome Customer :=
  Ok (write p (mkCustomer id (fst k) (snd k) None None None None None)).

#[global] Instance model : Model Customer Data Patch := {
  rows := customers;
  set_rows := fun l bump db =>
    mkStore (tenants db) l (products db) (orders db) (bump + next_id db);
  row_id := c_id;
  row_tenant := c_tenantId;
  row_remote := c_shopifyCustomerId;
  validate := check;
  apply := write;
  fresh := new_row;
  references_ok := fun _ _ => true
}.

Definition upsert : key -> Data -> key * Data -> M Customer := prisma.upsert.
Definition findFirst : key -> M (option Customer) := prisma.findFirst.
Definition update : nat -> Data -> M Customer := prisma.update.
Definition create : key * Data -> M Customer := prisma.create.
Definition findMany : (Customer -> bool) -> nat -> M (list Customer) :=
  prisma.findMany.
End customer.

Module product.
Record Data := mkData {
  title : value;
  sku : value;
  price : value;
  createdAt : option JsDate
}.

Record Patch := mkPatch {
  pt_title : slot string;
  pt_sku : slot (option string);
  pt_price : slot Decimal;
  pt_createdAt : slot (option JsDate)
}.

Definition check (d : Data) : outcome Patch :=
  match text_req "title" (title d), text_opt "sku" (sku d),
        decimal_req "price" (price d) with
  | Ok t, Ok s, Ok p => Ok (mkPatch t s p (date_opt (createdAt d)))
  | Throw x, _, _ => Throw x
  | _, Throw x, _ => Throw x
  | _, _, Throw x => Throw x
  end.

Definition write (p : Patch) (r : Product) : Product :=
  mkProduct (p_id r) (p_tenantId r) (p_shopifyProductId r)
    (set_slot (pt_title p) (p_title r))
    (set_slot (pt_sku p) (p_sku r))
    (set_slot (pt_price p) (p_price r))
    (set_slot (pt_createdAt p) (p_createdAt r)).

(** A new row needs its two required data columns. *)
Definition new_row (id : nat) (k : key) (p : Patch) : outcome Product :=
  match required "title" (pt_title p), required "price" (pt_price p) with
  | Ok t, Ok pr =>
      Ok (mkProduct id (fst k) (snd k) t (set_slot (pt_sku p) None) pr
            (set_slot (pt_createdAt p) None))
  | Throw x, _ => Throw x
  | _, Throw x => Throw x
  end.

#[global] Instance model : Model Product Data Patch := {
  rows := products;
  set_rows := fun l bump db =>
    mkStore (tenants db) (customers db) l (orders db) (bump + next_id db);
  row_id := p_id;
  row_tenant := p_tenantId;
  row_remote := p_shopifyProductId;
  validate := check;
  apply := write;
  fresh := new_row;
  references_ok := fun _ _ => true
}.

Definition upsert : key -> Data -> key * Data -> M Product := prisma.upsert.
End product.

Module order.
Record Data := mkData {
  orderNumber : value;
  totalPrice : value;
  currency : value;
  createdAt : option JsDate;
  customerId : option nat
}.

Record Patch := mkPatch {
  pt_orderNumber : slot (option string);
  pt_totalPrice : slot Decimal;
  pt_currency : slot (option string);
  pt_createdAt : slot (option JsDate);
  pt_customerId : slot (option nat)
}.

Definition check (d : Data) : outcome Patch :=
  match text_opt "orderNumber" (orderNumber d),
        decimal_req "totalPrice" (totalPrice d),
        text_opt "currency" (currency d) with
  | Ok n, Ok t, Ok c =>
      Ok (mkPatch n t c (date_opt (createdAt d))
            (match customerId d with None => Keep | Some i => Put (Some i) end))
  | Throw x, _, _ => Throw x
  | _, Throw x, _ => Throw x
  | _, _, Throw x => Throw x
  end.

Definition write (p : Patch) (r : Order) : Order :=
  mkOrder (o_id r) (o_tenantId r) (o_shopifyOrderId r)
    (set_slot (pt_orderNumber p) (o_orderNumber r))
    (set_slot (pt_totalPrice p) (o_totalPrice r))
    (set_slot (pt_currency p) (o_currency r))
    (set_slot (pt_createdAt p) (o_createdAt r))
    (set_slot (pt_customerId p) (o_customerId r)).

Definition new_row (id : nat) (k : key) (p : Patch) : outcome Order :=
  match required "totalPrice" (pt_totalPrice p) with
  | Ok t =>
      Ok (mkOrder id (fst k) (snd k) (set_slot (pt_orderNumber p) None) t
            (set_slot (pt_currency p) None) (set_slot (pt_createdAt p) None)
            (set_slot (pt_customerId p) None))
  | Throw x => Throw x
  end.

(** The foreign key [Order_customerId_fkey]: a customer reference that is
    written must name an existing customer row. *)
Definition customer_exists (p : Patch) (db : Store) : bool :=
  match pt_customerId p with
  | Put (Some i) => existsb (fun c => Nat.eqb (c_id c) i) (customers db)
  | _ => true
  end.

#[global] Instance model : Model Order Data Patch := {
  rows := orders;
  set_rows := fun l bump db =>
    mkStore (tenants db) (customers db) (products db) l (bump + next_id db);
  row_id := o_id;
  row_tenant := o_tenantId;
  row_remote := o_shopifyOrderId;
  validate := check;
  apply := write;
  fresh := new_row;
  references_ok := customer_exists
}.

Definition upsert : key -> Data -> key * Data -> M Order := prisma.upsert.
End order.

End prisma.


(* ====================================================================== *)
(** ** What every model delegate satisfies *)

(** The identity columns of a row: its id and its natural key. *)
Definition ident {R D P} {model : prisma.Model R D P} (r : R)
  : nat * string * string :=
  (prisma.row_id r, prisma.row_tenant r, prisma.row_remote r).

Class ModelLaws {R D P : Type} (model : prisma.Model R D P) : Prop := {
  rows_set_rows : forall l b db, prisma.rows (prisma.set_rows l b db) = l;
  next_id_set_rows : forall l b db,
    next_id (prisma.set_rows l b db) = b + next_id db;
  tenants_set_rows : forall l b db,
    tenants (prisma.set_rows l b db) = tenants db;
  set_rows_same : forall db, prisma.set_rows (prisma.rows db) 0 db = db;
  apply_ident : forall p r, ident (prisma.apply p r) = ident r;
  apply_twice : forall p r,
    prisma.apply p (prisma.apply p r) = prisma.apply p r;
  fresh_ident : forall id k p r,
    prisma.fresh id k p = Ok r -> ident r = (id, fst k, snd k);
  fresh_any_id : forall id id' k p r,
    prisma.fresh id k p = Ok r -> exists r', prisma.fresh id' k p = Ok r';
  fresh_apply : forall id k p r,
    prisma.fresh id k p = Ok r -> prisma.apply p r = r;
  references_set_rows : forall p l b db,
    prisma.references_ok p (prisma.set_rows l b db) = prisma.references_ok p db
}.

(** An update patch [pu] adds nothing to a row just made from the create
    patch [pc]. *)
Definition absorbed {R D P} {model : prisma.Model R D P} (pu pc : P) : Prop :=
  (forall id k r, prisma.fresh id k pc = Ok r -> prisma.apply pu r = r)
  /\ (forall db, prisma.references_ok pc db = true -> prisma.references_ok pu db = true).

(** [db'] has every row of [db], with the same identity columns, in the
    same place, and possibly more rows after them. *)
Definition extends_table {R D P} (model : prisma.Model R D P) (db db' : Store) : Prop :=
  exists extra, map ident (prisma.rows db') = (map ident (prisma.rows db) ++ extra)%list.

Definition extends (db db' : Store) : Prop :=
  extends_table prisma.customer.model db db'
  /\ extends_table prisma.product.model db db'
  /\ extends_table prisma.order.model db db'.

(** The natural key of a row, and the unique indexes of the migration: in
    each table at most one row per (tenant id, remote id). *)
Definition natural_key {R D P} {model : prisma.Model R D P} (r : R)
  : string * string :=
  (prisma.row_tenant r, prisma.row_remote r).

Definition unique_in {R D P} (model : prisma.Model R D P) (db : Store) : Prop :=
  NoDup (map natural_key (prisma.rows db)).

Definition unique_keys (db : Store) : Prop :=
  unique_in prisma.customer.model db
  /\ unique_in prisma.product.model db
  /\ unique_in prisma.order.model db.

(** From [db] to [db']: identity columns stay in place, and the unique
    indexes stay satisfied. *)
Definition grows (db db' : Store) : Prop :=
  extends db db' /\ (unique_keys db -> unique_keys db').

(** A world in which the storage layer rejects nothing. *)
Definition quiet (w : World) : Prop := w_faults w = [].

Definition with_db (db : Store) (w : World) : World :=
  mkWorld db (w_faults w) (w_replies w) (w_requests w) (w_console w).

(** What "applying a record twice is the same as applying it once" says of
    an operation on a quiet world: the second run leaves the tables as the
    first run made them; the first run changed no identity column and
    made no second row for a natural key. *)
Definition idempotent_on {A} (first second : M A) (w : World) : Prop :=
  let w1 := exec first w in
  quiet w1
  /\ w_db (exec second w1) = w_db w1
  /\ grows (w_db w) (w_db w1).

(** The reference an order row ends up with when [cid] was resolved:
    [cid] itself if there is one, else what the row had before (nothing,
    for a new row). *)
Definition reference_after (cid : option nat) (before : option Order) : option nat :=
  match cid with
  | Some i => Some i
  | None =>
      match before with
      | Some old => o_customerId old
      | None => None
      end
  end.



(* ====================================================================== *)
(** ** Vocabulary for statements about tenant isolation *)

(** The rows of one table that a lookup scoped to [tenantId] sees. *)
Definition tenant_rows {R D P} {model : prisma.Model R D P} (tenantId : string)
  (db : Store) : list R :=
  filter (fun r => String.eqb (prisma.row_tenant r) tenantId) (prisma.rows db).

(** The rows of one table that belong to any other tenant. *)
Definition foreign_rows {R D P} {model : prisma.Model R D P} (tenantId : string)
  (db : Store) : list R :=
  filter (fun r => negb (String.eqb (prisma.row_tenant r) tenantId)) (prisma.rows db).

Definition others (tenantId : string) (db : Store)
  : list Customer * list Product * list Order :=
  (foreign_rows tenantId db, foreign_rows tenantId db, foreign_rows tenantId db).

(** Some customer row of [tenantId] has the id [id]. *)
Definition owned (tenantId : string) (id : nat) (db : Store) : Prop :=
  exists c, In c (customers db) /\ c_id c = id /\ c_tenantId c = tenantId.

(** No order references a customer row of another tenant. *)
Definition scoped (db : Store) : Prop :=
  forall o c, In o (orders db) -> In c (customers db) ->
              o_customerId o = Some (c_id c) -> c_tenantId c = o_tenantId o.

(** What the storage layer guarantees of the tables by itself: customer ids
    are unique, every id in use (as a row id or as a reference) was drawn
    from the counter. *)
Definition well_keyed (db : Store) : Prop :=
  NoDup (map c_id (customers db))
  /\ (forall c, In c (customers db) -> c_id c < next_id db)
  /\ (forall o i, In o (orders db) -> o_customerId o = Some i -> i < next_id db).

(** The invariant of everything done on behalf of [tenantId], starting from
    the store [db0]. *)
Definition isolated (tenantId : string) (db0 db : Store) : Prop :=
  well_keyed db
  /\ scoped db
  /\ tenants db = tenants db0
  /\ others tenantId db = others tenantId db0.

(** Facts that stay true when rows are updated in place or appended. *)
Definition monotone (F : Store -> Prop) : Prop :=
  forall db db', extends db db' -> F db -> F db'.

(** [m], started where the invariant and [Pre] hold, keeps the invariant
    and every monotone fact, and a value it returns satisfies [V]. *)
Definition safe {A} (tenantId : string) (db0 : Store) (Pre : Store -> Prop)
  (m : M A) (V : A -> Store -> Prop) : Prop :=
  forall F, monotone F ->
  forall w, isolated tenantId db0 (w_db w) -> Pre (w_db w) -> F (w_db w) ->
    isolated tenantId db0 (w_db (exec m w))
    /\ F (w_db (exec m w))
    /\ forall a, result m w = Ok a -> V a (w_db (exec m w)).

Definition anywhere : Store -> Prop := fun _ => True.
Definition anything {A} : A -> Store -> Prop := fun _ _ => True.

(** Nothing a lookup scoped to [tenantId] sees differs between [db] and
    [db']. *)
Definition unchanged_for (tenantId : string) (db db' : Store) : Prop :=
  tenant_rows (model := prisma.customer.model) tenantId db'
  = tenant_rows (model := prisma.customer.model) tenantId db
  /\ tenant_rows (model := prisma.product.model) tenantId db'
     = tenant_rows (model := prisma.product.model) tenantId db
  /\ tenant_rows (model := prisma.order.model) tenantId db'
     = tenant_rows (model := prisma.order.model) tenantId db.


(* ====================================================================== *)
(** ** Regular expressions, as far as the pagination code uses them

    A pattern is a sequence of items over single-character atoms; [Star] is
    the greedy [*] with backtracking, [Open] and [Close] delimit capture
    group 1. The matcher tries the alternatives in the order a backtracking
    engine does, so the capture it reports is the one [String.prototype.match]
    reports. Header values are byte strings, one character per byte. *)

Module RegExp.
Inductive atom : Type :=
  | Lit (c : ascii)          (* a literal character *)
  | In (cs : string)         (* [...]  *)
  | NotIn (cs : string)      (* [^...] *)
  | Space.                   (* \s     *)

Inductive item : Type :=
  | One (a : atom)
  | Star (a : atom)
  | Open
  | Close.

Definition mem (c : ascii) (cs : string) : bool :=
  existsb (Ascii.eqb c) (list_ascii_of_string cs).

(** Case folding of the [i] flag: ASCII letters only. *)
Definition upper (c : ascii) : ascii :=
  let n := nat_of_ascii c in
  if Nat.leb 97 n && Nat.leb n 122 then ascii_of_nat (n - 32) else c.

Definition is_space (c : ascii) : bool :=
  existsb (Nat.eqb (nat_of_ascii c)) [9; 10; 11; 12; 13; 32; 160]%nat.

Definition accepts (ignore_case : bool) (a : atom) (c : ascii) : bool :=
  match a with
  | Lit x => if ignore_case then Ascii.eqb (upper x) (upper c) else Ascii.eqb x c
  | In cs => mem c cs
  | NotIn cs => negb (mem c cs)
  | Space => is_space c
  end.

Definition lits (s : string) : list item :=
  map (fun c => One (Lit c)) (list_ascii_of_string s).

(** [X+] is [X X*]. *)
Definition plus (a : atom) : list item := [One a; Star a].

(** [match_here i r s opened captured]: match [r] at the start of [s];
    [opened] is the input as it was where group 1 opened. *)
Fixpoint match_here (i : bool) (r : list item)
  : list ascii -> list ascii -> list ascii -> option (list ascii) :=
  match r with
  | [] => fun _ _ captured => Some captured
  | One a :: r' =>
      fun s opened captured =>
        match s with
        | c :: s' =>
            if accepts i a c then match_here i r' s' opened captured else None
        | [] => None
        end
  | Star a :: r' =>
      fix star (s opened captured : list ascii) : option (list ascii) :=
        match s with
        | c :: s' =>
            if accepts i a c then
              match star s' opened captured with
              | Some res => Some res
              | None => match_here i r' s opened captured
              end
            else match_here i r' s opened captured
        | [] => match_here i r' [] opened captured
        end
  | Open :: r' => fun s _ captured => match_here i r' s s captured
  | Close :: r' =>
      fun s opened _ =>
        match_here i r' s opened
          (firstn (List.length opened - List.length s) opened)
  end.

(** Items that neither open nor close the group. *)
Definition plain (r : list item) : Prop :=
  Forall (fun x => match x with Open | Close => False | _ => True end) r.

(** The leftmost match, as [str.match(re)] without the [g] flag. *)
Fixpoint search (i : bool) (r : list item) (s : list ascii)
  : option (list ascii) :=
  match match_here i r s [] [] with
  | Some captured => Some captured
  | None =>
      match s with
      | [] => None
      | _ :: s' => search i r s'
      end
  end.
End RegExp.

(* ====================================================================== *)
(** ** The remote API client ([src/src/shopify.ts]) *)

Definition API_VERSION : string := "2025-04".

Definition Query : Type := list (string * value).

(** [q[k] = v] on an object kept in insertion order. *)
Fixpoint obj_set (k : string) (v : value) (q : Query) : Query :=
  match q with
  | [] => [(k, v)]
  | (k', v') :: q' =>
      if String.eqb k k' then (k, v) :: q' else (k', v') :: obj_set k v q'
  end.

(** [{ ...base, ...extra }] *)
Definition spread (base extra : Query) : Query :=
  fold_left (fun q kv => obj_set (fst kv) (snd kv) q) extra base.

(** The [URLSearchParams] built from the query: [undefined] members are
  skipped, the others are written with [String(v)]. *)
Definition search_params (query : Query) : list (string * string) :=
  map (fun kv => (fst kv, to_String (snd kv)))
      (filter (fun kv => match snd kv with VUndefined => false | _ => true end) query).

Definition res_ok (r : Reply) : bool :=
  Z.leb 200 (status r) && Z.leb (status r) 299.

(** One request: it is recorded, and the next scripted reply is its answer.
  With no reply left the request itself fails. *)
Definition shopifyFetch (client : ShopifyClient) (path : string) (query : Query)
  : M (value * option string) :=
  fun w =>
    let rq := mkRequest client path (search_params query) in
    match w_replies w with
    | [] =>
        (Throw (TypeError "fetch failed"),
         mkWorld (w_db w) (w_faults w) [] (w_requests w ++ [rq]) (w_console w))
    | res :: rest =>
        let w' := mkWorld (w_db w) (w_faults w) rest (w_requests w ++ [rq])
                    (w_console w) in
        if res_ok res then (Ok (body res, link res), w')
        else (Throw (JsError ("Shopify " ++ path ++ " " ++ string_of_Z (status res))), w')
    end.

(** The pattern
  [/<[^>]*[?&]page_info=([^&>]+)[^>]*>;\s*rel="next"/i]. *)
Definition next_link_pattern : list RegExp.item :=
  (RegExp.lits "<"
   ++ [RegExp.Star (RegExp.NotIn ">"); RegExp.One (RegExp.In "?&")]
   ++ RegExp.lits "page_info="
   ++ [RegExp.Open] ++ RegExp.plus (RegExp.NotIn "&>") ++ [RegExp.Close]
   ++ [RegExp.Star (RegExp.NotIn ">")]
   ++ RegExp.lits ">;"
   ++ [RegExp.Star RegExp.Space]
   ++ RegExp.lits "rel="
   ++ [RegExp.One (RegExp.Lit dquote)]
   ++ RegExp.lits "next"
   ++ [RegExp.One (RegExp.Lit dquote)])%list.

Definition extractNextPageInfo (linkHeader : option string) : option string :=
  match linkHeader with
  | None => None
  | Some h =>
      if String.eqb h "" then None
      else
        match RegExp.search true next_link_pattern (list_ascii_of_string h) with
        | Some captured => Some (string_of_list_ascii captured)
        | None => None
        end
  end.

(** [...items] inside [all.push(...)]: arrays and strings are iterable (a
  string yields its characters, here one per byte). *)
Definition iterate (items : value) : outcome (list value) :=
  match items with
  | VArr l => Ok l
  | VStr s => Ok (map (fun c => VStr (String c "")) (list_ascii_of_string s))
  | _ => Throw (TypeError "items is not iterable")
  end.

(** The [while (true)] loop of [paginateAll]. Every turn consumes one
  scripted reply or throws, so a budget of one turn more than the replies
  left is never used up. *)
Fixpoint paginate_loop (turns : nat) (client : ShopifyClient)
  (path rootKey : string) (extraQuery : Query)
  (all : list value) (pageInfo : option string) : M (list value) :=
  match turns with
  | O => throw (JsError "paginateAll: turn budget used up")
  | S turns' =>
      let query := spread [("limit", VNum 250)] extraQuery in
      let query :=
        match pageInfo with
        | Some p => if truthy (VStr p) then obj_set "page_info" (VStr p) query else query
        | None => query
        end in
      res <- shopifyFetch client path query ;;
      raw <- get_prop rootKey (fst res) ;;
      items <- lift (iterate (coalesce raw (VArr []))) ;;
      let all := (all ++ items)%list in
      match extractNextPageInfo (snd res) with
      | None => ret all
      | Some next =>
          if truthy (VStr next)
          then paginate_loop turns' client path rootKey extraQuery all (Some next)
          else ret all
      end
  end.

Definition paginateAll (client : ShopifyClient) (path rootKey : string)
  (extraQuery : Query) : M (list value) :=
  fun w =>
    paginate_loop (S (List.length (w_replies w))) client path rootKey extraQuery
      [] None w.

Definition makeClient (shop accessToken : string) : ShopifyClient :=
  mkClient shop accessToken (Some API_VERSION).

Definition fetchAllProducts (client : ShopifyClient) : M (list value) :=
  paginateAll client "products" "products" [].

Definition fetchAllCustomers (client : ShopifyClient) : M (list value) :=
  paginateAll client "customers" "customers" [].

Definition fetchAllOrders (client : ShopifyClient) : M (list value) :=
  paginateAll client "orders" "orders" [("status", VStr "any")].



(* ====================================================================== *)
(** ** Webhook authentication and dispatch ([src/dist/webhooks.js]) *)

Module crypto.
(** [crypto.timingSafeEqual(a, b)] throws when the lengths differ and
    compares in constant time otherwise. *)
Definition timingSafeEqual (a b : Buffer) : outcome bool :=
  if Nat.eqb (List.length a) (List.length b) then Ok (buffer_eqb a b)
  else Throw (RangeError "Input buffers must have the same byte length").
End crypto.

(** The first argument of [verifyHmac]: a [Buffer], or any other value. *)
Inductive RawBody : Type :=
| IsBuffer (b : Buffer)
| NotBuffer (v : value).

(** [Buffer.from(x, "utf8")] where [x] is the result of [JSON.stringify]. *)
Definition Buffer_from (x : option string) : outcome Buffer :=
  match x with
  | Some s => Ok (Buffer_from_string s)
  | None => Throw (TypeError "The first argument must be of type string")
  end.

Definition verifyHmac (rawBody : RawBody) (hmacHeader secret : string) : M bool :=
  if negb (truthy (VStr hmacHeader)) then ret false
  else
    (* Normalize input into Buffer; [None] is the early [return false] *)
    dataBuf <-
      match rawBody with
      | IsBuffer b => ret (Some b)
      | NotBuffer (VStr s) => ret (Some (Buffer_from_string s))
      | NotBuffer v =>
          try_catch
            (b <- lift (Buffer_from (JSON.stringify v)) ;; ret (Some b))
            (fun err =>
               console LWarn "verifyHmac: failed to stringify rawBody" ;;
               ret None)
      end ;;
    match dataBuf with
    | None => ret false
    | Some dataBuf =>
        let computed := hmac_base64 secret dataBuf in
        try_catch
          (lift (crypto.timingSafeEqual (Buffer_from_string computed)
                   (Buffer_from_string hmacHeader)))
          (fun err =>
             console LWarn "verifyHmac: timingSafeEqual error" ;;
             ret false)
    end.

(** [x ? new Date(x) : undefined] *)
Definition date_of (x : value) : option JsDate :=
  if truthy x then Some (new_Date x) else None.

(** [variants && variants[0]?.k ? variants[0].k : dflt] *)
Definition first_variant (k : string) (variants dflt : value) : value :=
  if truthy variants && truthy (opt_prop k (index0 variants))
  then prop k (index0 variants)
  else dflt.

(** The customer data of the webhook paths, read from the customer object
    [c]: on update an absent member leaves the column alone, on create it
    is written as [null]. *)
Definition webhook_customer_update (c : value) : prisma.customer.Data :=
  prisma.customer.mkData
    (coalesce (prop "email" c) VUndefined)
    (coalesce (prop "first_name" c) VUndefined)
    (coalesce (prop "last_name" c) VUndefined)
    None
    (date_of (prop "updated_at" c)).

Definition webhook_customer_create (c : value) : prisma.customer.Data :=
  prisma.customer.mkData
    (coalesce (prop "email" c) VNull)
    (coalesce (prop "first_name" c) VNull)
    (coalesce (prop "last_name" c) VNull)
    (date_of (prop "created_at" c))
    (date_of (prop "updated_at" c)).

(** The order data, the same for update and create. *)
Definition order_data (o : value) (customerId : option nat) : prisma.order.Data :=
  prisma.order.mkData
    (if truthy (prop "order_number" o)
     then VStr (to_String (prop "order_number" o)) else VUndefined)
    (coalesce (prop "total_price" o) (VStr "0.00"))
    (coalesce (prop "currency" o) VUndefined)
    (date_of (prop "created_at" o))
    customerId.

(** The product data: [title] is [titleDefault] when absent upstream. *)
Definition product_data (p : value) (titleDefault : value) : prisma.product.Data :=
  prisma.product.mkData
    (coalesce (prop "title" p) titleDefault)
    (first_variant "sku" (prop "variants" p) VNull)
    (first_variant "price" (prop "variants" p) (VStr "0.00"))
    (date_of (prop "created_at" p)).

Definition processWebhookPayload (topic shop_ : string) (payload : value) : M unit :=
  (* find tenant *)
  tenant <- prisma.tenant.findUnique_shop shop_ ;;
  match tenant with
  | None => console LWarn "Webhook for unknown tenant"
  | Some tenant =>
      let tenantId := t_id tenant in
      try_catch
        (if String.prefix "orders/" topic then
           (* Upsert customer if present *)
           customer_ <- get_prop "customer" payload ;;
           customerId <-
             (if truthy (opt_prop "id" customer_) then
                let shopifyCustomerId := to_String (prop "id" customer_) in
                cust <- prisma.customer.upsert (tenantId, shopifyCustomerId)
                          (webhook_customer_update customer_)
                          ((tenantId, shopifyCustomerId),
                           webhook_customer_create customer_) ;;
                ret (Some (c_id cust))
              else ret None) ;;
           (* Upsert order *)
           let shopifyOrderId := to_String (prop "id" payload) in
           prisma.order.upsert (tenantId, shopifyOrderId)
             (order_data payload customerId)
             ((tenantId, shopifyOrderId), order_data payload customerId) ;;
           ret tt
         else if String.eqb topic "customers/create" || String.eqb topic "customers/update" then
           id <- get_prop "id" payload ;;
           let shopifyCustomerId := to_String id in
           prisma.customer.upsert (tenantId, shopifyCustomerId)
             (webhook_customer_update payload)
             ((tenantId, shopifyCustomerId), webhook_customer_create payload) ;;
           ret tt
         else if String.eqb topic "products/create" || String.eqb topic "products/update" then
           id <- get_prop "id" payload ;;
           let shopifyProductId := to_String id in
           prisma.product.upsert (tenantId, shopifyProductId)
             (product_data payload VUndefined)
             ((tenantId, shopifyProductId), product_data payload (VStr "Untitled")) ;;
           ret tt
         else
           (* fallback: the schema has no Event model, so [prisma.event] is
              undefined and the raw event is only logged *)
           try_catch
             (console LDebug "No Event model present - skipping raw event persistence")
             (fun e => console LWarn "Failed to persist fallback event:"))
        (fun err =>
           (* swallow error to prevent webhook retries from spamming *)
           console LError "processWebhookPayload error:")
  end.


(* ====================================================================== *)
(** ** The sync engine ([src/dist/sync.js]) *)

(** [client.get(url)]. The client handed to [fetchShopifyCustomerById] is the
    record built by [makeClient], whose only members are [shop],
    [accessToken] and [apiVersion]: [client.get] is [undefined], and calling
    it throws a [TypeError] that carries no [response]. *)
Definition client_get (client : ShopifyClient) (url : string) : M value :=
  throw (TypeError "client.get is not a function").

Definition fetchShopifyCustomerById (client : ShopifyClient)
  (shopifyCustomerId : string) : M value :=
  try_catch
    (resp <- client_get client
               ("/admin/api/2025-04/customers/" ++ shopifyCustomerId ++ ".json") ;;
     data <- get_prop "data" resp ;;
     ret (coalesce (opt_prop "customer" data) VNull))
    (fun err =>
       (* 404 / not found -> return null (caller handles) *)
       (match e_status err with
        | Some st =>
            if negb (Z.eqb st 0) && negb (Z.eqb st 404)
            then console LWarn ("fetchShopifyCustomerById error " ++ shopifyCustomerId)
            else ret tt
        | None => ret tt
        end) ;;
       ret VNull).

Record SyncStats := mkStats {
  stat_products : nat;
  stat_customers : nat;
  stat_orders : nat;
  stat_backfilled : nat
}.

(** Body of the product loop. *)
Definition sync_product (tenantId : string) (productCount : nat) (p : value) : M nat :=
  try_catch
    (id <- get_prop "id" p ;;
     let shopifyProductId := to_String id in
     prisma.product.upsert (tenantId, shopifyProductId)
       (product_data p (VStr "Untitled"))
       ((tenantId, shopifyProductId), product_data p (VStr "Untitled")) ;;
     ret (S productCount))
    (fun e =>
       console LWarn "product upsert failed for item:" ;;
       ret productCount).

(** The [data] object of the customer loop. *)
Definition customer_data (c : value) : prisma.customer.Data :=
  prisma.customer.mkData
    (coalesce (prop "email" c) VNull)
    (coalesce (prop "first_name" c) VNull)
    (coalesce (prop "last_name" c) VNull)
    (date_of (prop "created_at" c))
    (date_of (prop "updated_at" c)).

(** Body of the customer loop. *)
Definition sync_customer (tenantId : string) (customerCount : nat) (c : value) : M nat :=
  try_catch
    (id <- get_prop "id" c ;;
     let shopifyCustomerId := to_String id in
     let data := customer_data c in
     console LLog "Shopify raw customer:" ;;
     try_catch
       (prisma.customer.upsert (tenantId, shopifyCustomerId) data
          ((tenantId, shopifyCustomerId), data) ;;
        ret tt)
       (fun err =>
          (* Fallback if composite upsert fails for some schema shape *)
          existing <- prisma.customer.findFirst (tenantId, shopifyCustomerId) ;;
          match existing with
          | Some existing =>
              prisma.customer.update (c_id existing) data ;; ret tt
          | None =>
              prisma.customer.create ((tenantId, shopifyCustomerId), data) ;; ret tt
          end) ;;
     ret (S customerCount))
    (fun e =>
       console LWarn "customer upsert failed for item:" ;;
       ret customerCount).

(** Body of the order loop. *)
Definition sync_order (tenantId : string) (orderCount : nat) (o : value) : M nat :=
  try_catch
    (id <- get_prop "id" o ;;
     let shopifyOrderId := to_String id in
     customerId <-
       (if truthy (opt_prop "id" (prop "customer" o)) then
          existing <- prisma.customer.findFirst
                        (tenantId, to_String (prop "id" (prop "customer" o))) ;;
          ret (option_map c_id existing)
        else ret None) ;;
     let op := order_data o customerId in
     prisma.order.upsert (tenantId, shopifyOrderId) op
       ((tenantId, shopifyOrderId), op) ;;
     ret (S orderCount))
    (fun e =>
       console LWarn "order upsert failed for item:" ;;
       ret orderCount).

(** [where: { tenantId, OR: [{ firstName: null }, { email: null }] }] *)
Definition missing_where (tenantId : string) (r : Customer) : bool :=
  String.eqb (c_tenantId r) tenantId
  && (match c_firstName r with None => true | Some _ => false end
      || match c_email r with None => true | Some _ => false end).

(** [v !== col] for a truthy [v] and a nullable text column. *)
Definition differs (v : value) (col : option string) : bool :=
  match v, col with
  | VStr s, Some s' => negb (String.eqb s s')
  | _, _ => true
  end.

(** [if (v && v !== col) updateData.k = v] *)
Definition changed (v : value) (col : option string) : value :=
  if truthy v && differs v col then v else VUndefined.

(** What the backfill does with one selected row once the remote customer
    has been fetched. *)
Definition backfill_apply (row : Customer) (backfilled : nat)
  (shopifyCustomer : value) : M nat :=
  if truthy shopifyCustomer then
    (* Only update if there is something new *)
    let email := changed (prop "email" shopifyCustomer) (c_email row) in
    let firstName := changed (prop "first_name" shopifyCustomer) (c_firstName row) in
    let lastName := changed (prop "last_name" shopifyCustomer) (c_lastName row) in
    if negb (nullish email && nullish firstName && nullish lastName) then
      prisma.customer.update (c_id row)
        (prisma.customer.mkData email firstName lastName None
           (date_of (prop "updated_at" shopifyCustomer))) ;;
      ret (S backfilled)
    else ret backfilled
  else
    (* Shopify returned nothing for this ID (404), skip *)
    ret backfilled.

(** Body of the backfill loop. *)
Definition backfill_row (client : ShopifyClient) (backfilled : nat)
  (row : Customer) : M nat :=
  (* If shopifyCustomerId missing, skip *)
  if negb (truthy (VStr (c_shopifyCustomerId row))) then ret backfilled
  else
    try_catch
      (shopifyCustomer <- fetchShopifyCustomerById client (c_shopifyCustomerId row) ;;
       backfill_apply row backfilled shopifyCustomer)
      (fun e =>
         console LWarn "backfill failed for" ;;
         ret backfilled).

Definition fullSync (tenantId : string) : M SyncStats :=
  tenant <- prisma.tenant.findUnique_id tenantId ;;
  match tenant with
  | None => throw (JsError "tenant not found")
  | Some tenant =>
      match t_accessToken tenant with
      | None => throw (JsError "tenant missing accessToken or shop")
      | Some token =>
          if negb (truthy (VStr token)) || negb (truthy (VStr (t_shop tenant)))
          then throw (JsError "tenant missing accessToken or shop")
          else
            let client := makeClient (t_shop tenant) token in
            (* ---------- PRODUCTS ---------- *)
            products <- fetchAllProducts client ;;
            productCount <- for_of products (sync_product tenantId) 0 ;;
            (* ---------- CUSTOMERS ---------- *)
            customers <- fetchAllCustomers client ;;
            customerCount <- for_of customers (sync_customer tenantId) 0 ;;
            (* ---------- ORDERS ---------- *)
            orders <- fetchAllOrders client ;;
            orderCount <- for_of orders (sync_order tenantId) 0 ;;
            (* ---------- BACKFILL ---------- *)
            missing <- prisma.customer.findMany (missing_where tenantId) 1000 ;;
            backfilled <- for_of missing (backfill_row client) 0 ;;
            ret (mkStats productCount customerCount orderCount backfilled)
      end
  end.

(* ====================================================================== *)
(** ** The webhook route ([POST /api/webhooks/shopify], [src/index.ts]) *)

Record WebhookRequest := mkWebhookRequest {
  rawBody : option Buffer;     (* [req.rawBody], set by the [verify] hook *)
  hmac_header : string;        (* [x-shopify-hmac-sha256] or the empty string *)
  shop_header : string;        (* [x-shopify-shop-domain] or the empty string *)
  topic_header : string;       (* [x-shopify-topic] or the empty string *)
  parsed_body : value          (* [req.body] *)
}.

Record Response := mkResponse {
  res_status : Z;
  res_text : string
}.

(** The [verify] hook of [express.json]: the raw bytes are kept only when
    the body is not empty. *)
Definition capture_raw (buf : Buffer) : option Buffer :=
  match buf with
  | [] => None
  | _ => Some buf
  end.

Definition webhook_route (DEFAULT_WEBHOOK_SECRET : string) (req : WebhookRequest)
  : M Response :=
  try_catch
    (let raw := rawBody req in
     let hmac := hmac_header req in
     let shop_ := shop_header req in
     let topic := topic_header req in
     if negb (truthy (VStr shop_)) then ret (mkResponse 400 "missing shop header")
     else
       match raw with
       | None =>
           console LWarn "Missing raw body for webhook" ;;
           ret (mkResponse 400 "missing raw body")
       | Some raw =>
           (* get tenant secret (per-tenant) or fall back to default *)
           tenant <- prisma.tenant.findUnique_shop shop_ ;;
           let secret :=
             match tenant with
             | Some t =>
                 match t_webhookSecret t with
                 | Some s => s
                 | None => DEFAULT_WEBHOOK_SECRET
                 end
             | None => DEFAULT_WEBHOOK_SECRET
             end in
           ok <- verifyHmac (IsBuffer raw) hmac secret ;;
           if negb ok then
             console LWarn "Invalid webhook HMAC for shop" ;;
             ret (mkResponse 401 "invalid hmac")
           else
             (* parsed payload (express.json already parsed it) *)
             processWebhookPayload topic shop_ (parsed_body req) ;;
             ret (mkResponse 200 "ok")
       end)
    (fun err =>
       console LError "Webhook handling error:" ;;
       ret (mkResponse 500 "error")).

(* ====================================================================== *)
(** ** The other routes and the scheduler ([src/index.ts])

    A handler's answer is the status it sets and the object it hands to
    [res.json], kept typed. Three things these handlers use are not part
    of the sources at hand and are parameters here: the order in which the
    database returns rows for [orderBy: { createdAt: "asc" }], the sum the
    database computes over a [DECIMAL] column, and [registerWebhooks] with
    the generator of tenant ids. *)

Inductive Payload : Type :=
| ErrorBody (error : string)                  (* [{ error }] *)
| SyncBody (stats : SyncStats)                (* [{ status: "ok", ...stats }] *)
| CustomersBody (customers : list Customer)   (* [{ status: "ok", customers }] *)
| SummaryBody (totalCustomers totalOrders : nat) (totalRevenue : option Decimal)
                                              (* [None] is the number [0] *)
| TenantBody (tenant : Tenant).               (* the tenant row *)

Record JsonResponse := mkJson {
  json_status : Z;
  json_body : Payload
}.

(** [err.message || fallback] *)
Definition message_or (err : Error) (fallback : string) : string :=
  if truthy (VStr (e_message err)) then e_message err else fallback.

(** [POST /api/:tenantId/sync] *)
Definition sync_route (tenantId : string) : M JsonResponse :=
  try_catch
    (stats <- fullSync tenantId ;;
     ret (mkJson 200 (SyncBody stats)))
    (fun err =>
       console LError "sync error" ;;
       ret (mkJson 500 (ErrorBody (message_or err "sync failed")))).

(** [prisma.tenant.findMany({ select: { id: true, shop: true } })] *)
Definition tenant_findMany : M (list (string * string)) :=
  prisma.storage_call (fun db => Ok (map (fun t => (t_id t, t_shop t)) (tenants db), db)).

(** The job [cron.schedule] runs. *)
Definition scheduled_sync : M unit :=
  console LLog "⏰ Scheduled sync start" ;;
  tenants <- tenant_findMany ;;
  for_of tenants
    (fun _ t =>
       try_catch
         (fullSync (fst t) ;;
          console LLog ("Synced tenant " ++ snd t))
         (fun e => console LError ("Scheduled sync failed for " ++ snd t)))
    tt.

(** The access token as it reaches the request header: [null] is written
    as the text [null]. *)
Definition token_text (accessToken : option string) : string :=
  match accessToken with
  | Some s => s
  | None => "null"
  end.

(** The [data] object of [POST /api/:tenantId/sync-customers]. *)
Definition route_customer_data (c : value) : prisma.customer.Data :=
  prisma.customer.mkData
    (coalesce (prop "email" c) VNull)
    (coalesce (coalesce (prop "first_name" c)
                 (opt_prop "first_name" (prop "default_address" c))) VNull)
    (coalesce (coalesce (prop "last_name" c)
                 (opt_prop "last_name" (prop "default_address" c))) VNull)
    (date_of (prop "created_at" c))
    (date_of (prop "updated_at" c)).

(** Body of the loop of that route: no [try] around the upsert. *)
Definition store_customer (tenantId : string) (_ : unit) (c : value) : M unit :=
  id <- get_prop "id" c ;;
  let shopifyCustomerId := to_String id in
  let data := route_customer_data c in
  prisma.customer.upsert (tenantId, shopifyCustomerId) data
    ((tenantId, shopifyCustomerId), data) ;;
  ret tt.

Section Routes.
(** The order of [orderBy: { createdAt: "asc" }]. *)
Variable order_by_createdAt : list Customer -> list Customer.
(** The sum of a non-empty column of decimals. *)
Variable sum_decimals : list Decimal -> Decimal.

(** [POST /api/:tenantId/sync-customers] *)
Definition sync_customers_route (tenantId : string) : M JsonResponse :=
  try_catch
    (tenant <- prisma.tenant.findUnique_id tenantId ;;
     match tenant with
     | None => ret (mkJson 404 (ErrorBody "tenant not found"))
     | Some tenant =>
         let client := makeClient (t_shop tenant) (token_text (t_accessToken tenant)) in
         customers <- fetchAllCustomers client ;;
         for_of customers (store_customer tenantId) tt ;;
         (* fetch back everything from DB to return *)
         dbCustomers <-
           prisma.storage_call (fun db =>
             Ok (order_by_createdAt
                   (tenant_rows (model := prisma.customer.model) tenantId db), db)) ;;
         ret (mkJson 200 (CustomersBody dbCustomers))
     end)
    (fun err =>
       console LError "sync-customers error:" ;;
       ret (mkJson 500 (ErrorBody (message_or err "failed")))).

(** [prisma.customer.count({ where: { tenantId } })] and the like. *)
Definition count {R D P} {model : prisma.Model R D P} (tenantId : string) : M nat :=
  prisma.storage_call (fun db => Ok (List.length (tenant_rows tenantId db), db)).

(** [prisma.order.aggregate({ where: { tenantId }, _sum: { totalPrice: true } })]:
    the sum over no rows is [null]. *)
Definition aggregate_totalPrice (tenantId : string) : M (option Decimal) :=
  prisma.storage_call (fun db =>
    Ok (match tenant_rows (model := prisma.order.model) tenantId db with
        | [] => None
        | rows => Some (sum_decimals (map o_totalPrice rows))
        end, db)).

(** [GET /api/:tenantId/metrics/summary] *)
Definition metrics_summary (tenantId : string) : M JsonResponse :=
  try_catch
    (totalCustomers <- count (model := prisma.customer.model) tenantId ;;
     totalOrders <- count (model := prisma.order.model) tenantId ;;
     revenue <- aggregate_totalPrice tenantId ;;
     ret (mkJson 200 (SummaryBody totalCustomers totalOrders revenue)))
    (fun err =>
       console LError "metrics summary error:" ;;
       ret (mkJson 500 (ErrorBody (message_or err "failed")))).
End Routes.

(** What [POST /api/tenants/onboard] reads of a request. *)
Record OnboardRequest := mkOnboardRequest {
  api_key : option string;     (* [req.headers["x-api-key"]] *)
  onboard_body : value         (* [req.body] *)
}.

Section Onboarding.
(** [registerWebhooks(shop, token, endpointBase)], of which only the
    declaration is at hand. *)
Variable registerWebhooks : string -> string -> value -> M (list value).
(** The id the storage client makes up for a new tenant row. *)
Variable new_tenant_id : Store -> string.

(** [prisma.tenant.upsert({ where: { shop }, update: { accessToken,
    webhookSecret }, create: { shop, accessToken, webhookSecret } })]. The
    tenant table has [shop] as unique key and [id] as primary key. *)
Definition tenant_upsert_tx (shop_ accessToken webhookSecret : value) (db : Store)
  : outcome (Tenant * Store) :=
  match shop_ with
  | VStr s =>
      match prisma.text_opt "accessToken" accessToken,
            prisma.text_opt "webhookSecret" webhookSecret with
      | Ok a, Ok k =>
          let by_shop t := String.eqb (t_shop t) s in
          match find by_shop (tenants db) with
          | Some old =>
              let write t :=
                mkTenant (t_id t) (t_shop t) (set_slot a (t_accessToken t))
                  (set_slot k (t_webhookSecret t)) in
              Ok (write old,
                  mkStore (update_first by_shop write (tenants db)) (customers db)
                    (products db) (orders db) (next_id db))
          | None =>
              let new := mkTenant (new_tenant_id db) s (set_slot a None) (set_slot k None) in
              if existsb (fun t => String.eqb (t_id t) (t_id new)) (tenants db)
              then Throw (PrismaError "Unique constraint failed")
              else Ok (new,
                       mkStore (tenants db ++ [new]) (customers db) (products db)
                         (orders db) (next_id db))
          end
      | Throw x, _ => Throw x
      | _, Throw x => Throw x
      end
  | _ => prisma.invalid "shop"
  end.

(** [POST /api/tenants/onboard] *)
Definition onboard_route (ADMIN_API_KEY : string) (req : OnboardRequest)
  : M JsonResponse :=
  let apiKey := api_key req in
  if negb (match apiKey with
           | Some k => String.eqb k ADMIN_API_KEY
           | None => false
           end)
  then ret (mkJson 403 (ErrorBody "forbidden"))
  else
    shop_ <- get_prop "shop" (onboard_body req) ;;
    let accessToken := prop "accessToken" (onboard_body req) in
    let webhookSecret := prop "webhookSecret" (onboard_body req) in
    let ngrokUrl := prop "ngrokUrl" (onboard_body req) in
    if negb (truthy shop_) || negb (truthy accessToken)
    then ret (mkJson 400 (ErrorBody "shop and accessToken required"))
    else
      try_catch
        (tenant <- prisma.storage_call
                     (tenant_upsert_tx shop_ accessToken webhookSecret) ;;
         (* If caller provided a public URL, auto-register webhooks *)
         (if truthy ngrokUrl then
            try_catch
              (results <- registerWebhooks (t_shop tenant)
                            (token_text (t_accessToken tenant)) ngrokUrl ;;
               console LLog "webhook registration results:")
              (fun e => console LWarn "webhook registration failed:")
          else ret tt) ;;
         ret (mkJson 200 (TenantBody tenant)))
        (fun err =>
           console LError "onboard error:" ;;
           ret (mkJson 500 (ErrorBody "internal"))).
End Onboarding.

(** Whether the storage client accepts the data the customers-only route
    makes from a record. *)
Definition route_data_valid (c : value) : bool :=
  match prisma.customer.check (route_customer_data c) with
  | Ok _ => true
  | Throw _ => false
  end.

(** A remote customer record the customers-only route cannot store: [null]
    or [undefined], or one whose data the storage client refuses. *)
Definition unstorable (c : value) : Prop :=
  nullish c = true \/ route_data_valid c = false.

(** The records each loop of [fullSync] is able to store: not [null] or
    [undefined], and with data the storage client accepts. *)
Definition accepted {P} (checked : outcome P) : bool :=
  match checked with
  | Ok _ => true
  | Throw _ => false
  end.

Definition storable_product (p : value) : bool :=
  negb (nullish p) && accepted (prisma.product.check (product_data p (VStr "Untitled"))).

Definition storable_customer (c : value) : bool :=
  negb (nullish c) && accepted (prisma.customer.check (customer_data c)).

Definition storable_order (o : value) : bool :=
  negb (nullish o) && accepted (prisma.order.check (order_data o None)).


(* ====================================================================== *)
(** ** Fixtures used by the examples *)

Module Fixtures.
Definition world_of (db : Store) : World := mkWorld db [] [] [] [].

Definition empty_world : World := world_of (mkStore [] [] [] [] 0).

Definition tenant1 : Tenant :=
  mkTenant "t1" "one.myshopify.com" (Some "shpat_one") (Some "whsec_one").
Definition tenant2 : Tenant :=
  mkTenant "t2" "two.myshopify.com" (Some "shpat_two") None.

(** The secret ["k"] followed by one NUL character. *)
Definition k_nul : string := String "k" (String Ascii.zero EmptyString).

Definition empty_object_body : Buffer := Buffer_from_string "{}".

Definition default_secret : string := "whsec_default".

(** A webhook for a shop no tenant row has, signed with the process-wide
    default secret. *)
Definition unknown_shop_request : WebhookRequest :=
  mkWebhookRequest (Some empty_object_body)
    (hmac_base64 default_secret empty_object_body)
    "nobody.myshopify.com" "orders/create" (VObj []).

(** A correctly signed webhook for [tenant1]. *)
Definition signed_request : WebhookRequest :=
  mkWebhookRequest (Some empty_object_body)
    (hmac_base64 "whsec_one" empty_object_body)
    "one.myshopify.com" "customers/update" (VObj []).

Definition two_tenants : Store := mkStore [tenant1; tenant2] [] [] [] 0.

(** Storage answers the route's tenant lookup and rejects the next call,
    which is the dispatcher's own tenant lookup. *)
Definition second_call_fails : World :=
  mkWorld two_tenants [false; true] [] [] [].

(** Remote records as the API delivers them. *)
Definition remote_customer : value :=
  VObj [("id", VNum 77); ("email", VStr "ada@example.com");
        ("first_name", VStr "Ada"); ("updated_at", VStr "2025-09-09T06:08:26Z")].

Definition remote_product : value :=
  VObj [("id", VNum 5); ("title", VStr "Lamp");
        ("variants", VArr [VObj [("sku", VStr "L-1"); ("price", VStr "19.90")]])].

Definition remote_order : value :=
  VObj [("id", VNum 9001); ("order_number", VNum 1001);
        ("total_price", VStr "19.90"); ("currency", VStr "EUR");
        ("customer", VObj [("id", VNum 77); ("email", VStr "ada@example.com")])].

Definition two_tenants_world : World := world_of two_tenants.

(** Tenant one with customer 77 known locally, names and email missing. *)
Definition bare_customer : Customer :=
  mkCustomer 0 "t1" "77" None None None None None.

Definition synced_customer : Customer :=
  mkCustomer 0 "t1" "77" (Some "ada@example.com") (Some "Ada") None None
    (Some (new_Date (VStr "2025-09-09T06:08:26Z"))).

Definition one_customer : Store := mkStore [tenant1; tenant2] [bare_customer] [] [] 1.

(** Order 9001 already stored and linked to customer row 0; remotely it
  now names customer 78, which has no local row. *)
Definition linked_order : Order :=
  mkOrder 1 "t1" "9001" (Some "1001") "19.90" (Some "EUR") None (Some 0).

Definition one_linked_order : Store :=
  mkStore [tenant1; tenant2] [bare_customer] [] [linked_order] 2.

Definition remote_order_other_customer : value :=
  VObj [("id", VNum 9001); ("order_number", VNum 1001);
        ("total_price", VStr "19.90"); ("currency", VStr "EUR");
        ("customer", VObj [("id", VNum 78)])].

(** Two tenants whose remote customer ids collide: both have a customer
  "100", and tenant two has an order linked to its own. *)
Definition colliding : Store :=
  mkStore [tenant1; tenant2]
    [ mkCustomer 0 "t1" "100" None None None None None;
      mkCustomer 1 "t2" "100" (Some "bob@example.com") (Some "Bob") None None None ]
    []
    [ mkOrder 2 "t2" "5000" None "10.00" None None (Some 1) ]
    3.

Definition page (rootKey : string) (items : list value) : Reply :=
  mkReply 200 (VObj [(rootKey, VArr items)]) None.

(** What the remote API holds for tenant one. *)
Definition remote_of_tenant1 : list Reply :=
  [ page "products" [remote_product];
    page "customers"
      [VObj [("id", VNum 100); ("email", VStr "ann@example.com");
             ("first_name", VStr "Ann")]];
    page "orders"
      [VObj [("id", VNum 5000); ("total_price", VStr "42.00");
             ("customer", VObj [("id", VNum 100)])]] ].

Definition colliding_world : World := mkWorld colliding [] remote_of_tenant1 [] [].

(** Tenant one has customer 77 stored without email and first name; the
  remote API would answer a request for that single customer with both. *)
Definition single_customer_reply : Reply :=
  mkReply 200 (VObj [("customer", remote_customer)]) None.

Definition backfill_world : World :=
  mkWorld one_customer []
    [ page "products" []; page "customers" []; page "orders" [];
      single_customer_reply ]
    [] [].

(** The upsert of the customer loop is rejected, the fallback is answered. *)
Definition upsert_rejected : World :=
  mkWorld one_customer [true; false; false] [] [] [].
End Fixtures.


(* ====================================================================== *)
(** ** Vocabulary for statements about pagination *)

(** The request [paginateAll] sends for a page: page size 250, the extra
  query members, and the continuation token when there is one. *)
Definition page_request (client : ShopifyClient) (path : string)
  (extraQuery : Query) (pageInfo : option string) : Request :=
  mkRequest client path
    (search_params
       (match pageInfo with
        | Some p => obj_set "page_info" (VStr p) (spread [("limit", VNum 250)] extraQuery)
        | None => spread [("limit", VNum 250)] extraQuery
        end)).




Module PageFixtures.
Definition shop_client : ShopifyClient := makeClient "one.myshopify.com" "shpat_one".

Definition link_to (token : string) : string :=
  String.concat (String dquote "")
    [ "<https://one.myshopify.com/admin/api/2025-04/products.json?limit=250&page_info="
        ++ token ++ ">; rel=";
      "next"; "" ]%string.

Definition link_back (token : string) : string :=
  String.concat (String dquote "")
    [ "<https://one.myshopify.com/admin/api/2025-04/products.json?limit=250&page_info="
        ++ token ++ ">; rel=";
      "previous"; "" ]%string.

Definition product (id : Z) : value := VObj [("id", VNum id); ("title", VStr "item")].

Definition page1 : Reply :=
  mkReply 200 (VObj [("products", VArr [product 1; product 2])]) (Some (link_to "tokA")).
Definition page2 : Reply :=
  mkReply 200 (VObj [("products", VArr [product 3])])
    (Some (link_back "tok0" ++ ", " ++ link_to "tokB")%string).
Definition page3 : Reply :=
  mkReply 200 (VObj [("products", VArr [product 4])]) (Some (link_back "tokA")).


Definition remote : World := mkWorld (mkStore [] [] [] [] 0) [] [page1; page2; page3] [] [].

(** A header with a [rel="next"] entry whose address has no [page_info]. *)
Definition link_without_token : string :=
  String.concat (String dquote "")
    [ "<https://one.myshopify.com/admin/api/2025-04/products.json?limit=250>; rel=";
      "next"; "" ].
End PageFixtures.

(* ====================================================================== *)
(** ** Vocabulary for statements about effects *)

(** From [w] to [w'] nothing happened but console output. *)
Definition only_logs (w w' : World) : Prop :=
  w_db w' = w_db w
  /\ w_faults w' = w_faults w
  /\ w_replies w' = w_replies w
  /\ w_requests w' = w_requests w
  /\ exists lines, w_console w' = (w_console w ++ lines)%list.

(** The secret the webhook route checks a request for [shop_] against:
    [tenant?.webhookSecret ?? DEFAULT_WEBHOOK_SECRET]. *)
Definition secret_for (DEFAULT_WEBHOOK_SECRET shop_ : string) (db : Store) : string :=
  match find (fun t => String.eqb (t_shop t) shop_) (tenants db) with
  | Some t =>
      match t_webhookSecret t with
      | Some s => s
      | None => DEFAULT_WEBHOOK_SECRET
      end
  | None => DEFAULT_WEBHOOK_SECRET
  end.

(** The topics [processWebhookPayload] has a branch for. *)
Definition handled_topic (topic : string) : bool :=
  String.prefix "orders/" topic
  || String.eqb topic "customers/create" || String.eqb topic "customers/update"
  || String.eqb topic "products/create" || String.eqb topic "products/update".

(** [!(!tenant.accessToken || !tenant.shop)]: what [fullSync] requires of
    the tenant row before it talks to the remote API. *)
Definition syncable (t : Tenant) : bool :=
  match t_accessToken t with
  | Some token => truthy (VStr token) && truthy (VStr (t_shop t))
  | None => false
  end.

(** The continuation token a turn of [paginateAll] sends: [pageInfo] when
    it is truthy. *)
Definition sent_token (pageInfo : option string) : option string :=
  match pageInfo with
  | Some p => if truthy (VStr p) then Some p else None
  | None => None
  end.


Definition budget_error : Error := JsError "paginateAll: turn budget used up".

(* ====================================================================== *)
(** ** Vocabulary for statements about the link header *)

(** [consumes i r u]: the items [r], group delimiters aside, match exactly
    the text [u]. *)
Inductive consumes (i : bool) : list RegExp.item -> list ascii -> Prop :=
| consumes_nil : consumes i [] []
| consumes_one (a : RegExp.atom) (r : list RegExp.item) (c : ascii) (u : list ascii) :
    RegExp.accepts i a c = true -> consumes i r u ->
    consumes i (RegExp.One a :: r) (c :: u)
| consumes_star (a : RegExp.atom) (r : list RegExp.item) (v u : list ascii) :
    Forall (fun c => RegExp.accepts i a c = true) v -> consumes i r u ->
    consumes i (RegExp.Star a :: r) (v ++ u)
| consumes_open (r : list RegExp.item) (u : list ascii) :
    consumes i r u -> consumes i (RegExp.Open :: r) u
| consumes_close (r : list RegExp.item) (u : list ascii) :
    consumes i r u -> consumes i (RegExp.Close :: r) u.

(** [s] has none of the characters [cs]. *)
Definition free_of (cs : string) (s : string) : Prop :=
  Forall (fun c => RegExp.mem c cs = false) (list_ascii_of_string s).

(** [s] is [keyword] up to the case of letters. *)
Definition same_letters (keyword s : string) : Prop :=
  map RegExp.upper (list_ascii_of_string s)
  = map RegExp.upper (list_ascii_of_string keyword).

Definition blank (s : string) : Prop :=
  Forall (fun c => RegExp.is_space c = true) (list_ascii_of_string s).

(** The text [rel="next"]. *)
Definition rel_next : string :=
  "rel=" ++ String dquote ("next" ++ String dquote "").

(** The text [rel="previous"]. *)
Definition rel_previous : string :=
  "rel=" ++ String dquote ("previous" ++ String dquote "").

(** A link entry as the remote API writes it: the address of the page in
    angle brackets, its last query parameter the page token, then the
    relation. *)
Definition link_entry (address : string) (sep : ascii) (token relation : string) : string :=
  "<" ++ address ++ String sep ("page_info=" ++ token ++ ">; " ++ relation).

(* ====================================================================== *)
(** ** Vocabulary for statements about what is never removed *)

(** From [db] to [db'] every row is still where it was, with its id, tenant
    id and remote id, and the tenant table is the same. *)
Definition kept (db db' : Store) : Prop :=
  extends db db' /\ tenants db' = tenants db.

(** From [w] to [w'] no row was removed and the console was only written
    to. *)
Definition advances (w w' : World) : Prop :=
  kept (w_db w) (w_db w')
  /\ exists lines, w_console w' = (w_console w ++ lines)%list.

(** [m] removes no row, moves none and rewrites no identity column, and
    takes nothing back from the console, wherever it is started. *)
Definition append_only {A} (m : M A) : Prop :=
  forall w, advances w (exec m w).

(* ====================================================================== *)
(** ** Vocabulary for statements about single columns *)

(** [v] is a string or absent ([undefined] or [null]): what a nullable text
    column accepts. *)
Definition textual (v : value) : bool :=
  match v with
  | VUndefined | VNull | VStr _ => true
  | _ => false
  end.

(** The text in [v], or [otherwise] when [v] is not a string. *)
Definition text_or (v : value) (otherwise : option string) : option string :=
  match v with
  | VStr s => Some s
  | _ => otherwise
  end.

(** The date in [v], or [otherwise] when [v] is falsy. *)
Definition date_or (v : value) (otherwise : option JsDate) : option JsDate :=
  if truthy v then Some (new_Date v) else otherwise.

(** [m] takes every world to one that is [R]-related to it. *)
Definition preserves (R : World -> World -> Prop) {A} (m : M A) : Prop :=
  forall w, R w (exec m w).

(** The customer, product and order tables are the same in [w] and [w']. *)
Definition same_rows (w w' : World) : Prop :=
  customers (w_db w') = customers (w_db w)
  /\ products (w_db w') = products (w_db w)
  /\ orders (w_db w') = orders (w_db w).

(** From [w] to [w'] every tenant row is still where it was, with its id
    and shop, and the primary key and the unique index of the tenant table
    still hold if they held. *)
Definition tenants_kept (w w' : World) : Prop :=
  (exists extra,
     map (fun t => (t_id t, t_shop t)) (tenants (w_db w'))
     = (map (fun t => (t_id t, t_shop t)) (tenants (w_db w)) ++ extra)%list)
  /\ (NoDup (map t_id (tenants (w_db w))) -> NoDup (map t_id (tenants (w_db w'))))
  /\ (NoDup (map t_shop (tenants (w_db w))) -> NoDup (map t_shop (tenants (w_db w')))).


(* ====================================================================== *)
(** ** Vocabulary for statements about the requests of a pull *)











(** The token a reply announces to the code. *)
Definition announced (r : Reply) : option string := extractNextPageInfo (link r).

(* ====================================================================== *)
(** ** Vocabulary for statements about the loops of the full sync *)

(** The table of [model] has a row for the remote record [x] of
    [tenantId]. *)
Definition stored {R D P} (model : prisma.Model R D P) (tenantId : string)
  (x : value) (db : Store) : Prop :=
  In (tenantId, to_String (prop "id" x)) (map natural_key (prisma.rows db)).

(** How often the warning [msg] is among [lines]. *)
Definition warnings (msg : string) (lines : list (level * string)) : nat :=
  List.length
    (filter (fun l => match fst l with
                      | LWarn => String.eqb (snd l) msg
                      | _ => false
                      end) lines).

(** One turn of a loop of [fullSync] on the record [x], from [w] to [w'] and
    from the count [n]: either the record is counted and its row is in the
    table of [model], or it is not counted, the warning [msg] is the last
    line written, and the tables are as they were. No other warning is
    written. *)
Definition turned {R D P} (model : prisma.Model R D P) (tenantId msg : string)
  (x : value) (n : nat) (r : outcome nat) (w w' : World) : Prop :=
  exists (counted : bool) (notes : list (level * string)),
    r = Ok (if counted then S n else n)
    /\ w_console w'
       = (w_console w ++ notes ++ if counted then [] else [(LWarn, msg)])%list
    /\ warnings msg notes = 0
    /\ (counted = true -> stored model tenantId x (w_db w'))
    /\ (counted = false -> w_db w' = w_db w).

(** What a loop over [items] did between [w] and [w'], counting from [n] to
    [k]: one flag per record says whether it was counted. A counted record
    has its row in the table of [model]; each record that was not counted
    left the warning [msg] on the console; and if none was counted the
    tables are as they were. *)
Definition tallied {R D P} (model : prisma.Model R D P) (tenantId msg : string)
  (items : list value) (n k : nat) (w w' : World) : Prop :=
  exists (flags : list bool) (lines : list (level * string)),
    Forall2 (fun x (b : bool) => b = true -> stored model tenantId x (w_db w'))
            items flags
    /\ k = n + List.length (filter (fun b => b) flags)
    /\ w_console w' = (w_console w ++ lines)%list
    /\ warnings msg lines = List.length (filter negb flags)
    /\ (k = n -> w_db w' = w_db w).

(** Between [w] and [w'] every record of [items] got its row in the table
    of [model], and the warning [msg] was not written. *)
Definition all_stored {R D P} (model : prisma.Model R D P) (tenantId msg : string)
  (items : list value) (w w' : World) : Prop :=
  Forall (fun x => stored model tenantId x (w_db w')) items
  /\ exists lines,
       w_console w' = (w_console w ++ lines)%list /\ warnings msg lines = 0.
(* ====================================================================== *)
(** ** More fixtures *)

Module Samples.
(** Tenant one with customer 77 fully known locally. *)
Definition synced_store : Store :=
  mkStore [Fixtures.tenant1; Fixtures.tenant2] [Fixtures.synced_customer] [] [] 1.

(** A customer record that carries nothing but the id and a last name. *)
Definition partial_customer : value :=
  VObj [("id", VNum 77); ("last_name", VStr "Lovelace")].

Definition lamp : Product :=
  mkProduct 0 "t1" "5" "Lamp" (Some "L-1") "19.90" None.

Definition lamp_store : Store :=
  mkStore [Fixtures.tenant1; Fixtures.tenant2] [] [lamp] [] 1.

(** A product record without title and variants. *)
Definition partial_product : value := VObj [("id", VNum 5)].

(** Another product, without variants. *)
Definition shade : value := VObj [("id", VNum 6); ("title", VStr "Shade")].

(** An order without a customer. *)
Definition counter_sale : value :=
  VObj [("id", VNum 9002); ("total_price", VStr "5.00")].



(** The address of a page of products, up to its last parameter. *)
Definition products_address : string :=
  "https://one.myshopify.com/admin/api/2025-04/products.json?limit=250".

(** A sum for the examples: the prices written one after the other. *)
Definition written_sum (prices : list Decimal) : Decimal := String.concat "+" prices.

Definition admin_key : string := "supersecret123".

(** A [registerWebhooks] that registers nothing. *)
Definition no_registration (shop_ token : string) (url : value) : M (list value) :=
  ret [].

Definition next_id_t3 (db : Store) : string := "t3".

(** A request to onboard a third shop, with the admin key. *)
Definition onboard_three : OnboardRequest :=
  mkOnboardRequest (Some admin_key)
    (VObj [("shop", VStr "three.myshopify.com"); ("accessToken", VStr "shpat_three");
           ("webhookSecret", VStr "whsec_three")]).

(** The same request with another key. *)
Definition onboard_forged : OnboardRequest :=
  mkOnboardRequest (Some "guess") (onboard_body onboard_three).

(** The remote API lists a customer and a [null]. *)
Definition customers_with_null : World :=
  mkWorld Fixtures.two_tenants []
    [Fixtures.page "customers" [Fixtures.remote_customer; VNull]] [] [].



End Samples.

(* ====================================================================== *)
(** * Properties *)

(** ** Test vectors for the primitives *)

(** The derived constants, spot-checked against the published tables. *)
Example sha256_constants :
  hd 0%Z SHA256.K = 0x428a2f98%Z /\ nth 63 SHA256.K 0%Z = 0xc67178f2%Z
  /\ List.length SHA256.K = 64
  /\ fst SHA256.H0 = (0x6a09e667, 0xbb67ae85, 0x3c6ef372, 0xa54ff53a,
                      0x510e527f, 0x9b05688c, 0x1f83d9ab)%Z.
Proof. vm_compute. repeat split. Qed.

(** Published test vectors (FIPS 180-4 examples, RFC 4231 case 2). *)
Example sha256_abc :
  hex_of_buffer (SHA256.digest (Buffer_from_string "abc"))
  = "ba7816bf8f01cfea414140de5dae2223b00361a396177a9cb410ff61f20015ad".
Proof. vm_compute. reflexivity. Qed.

Example sha256_empty :
  hex_of_buffer (SHA256.digest [])
  = "e3b0c44298fc1c149afbf4c8996fb92427ae41e4649b934ca495991b7852b855".
Proof. vm_compute. reflexivity. Qed.

Example sha256_two_blocks :
  hex_of_buffer (SHA256.digest (Buffer_from_string
    "abcdbcdecdefdefgefghfghighijhijkijkljklmklmnlmnomnopnopq"))
  = "248d6a61d20638b8e5c026930c3e6039a33ce45964ff2167f6ecedd419db06c1".
Proof. vm_compute. reflexivity. Qed.

Example hmac_rfc4231_case2 :
  hex_of_buffer (HMAC.hmac_sha256 (Buffer_from_string "Jefe")
                   (Buffer_from_string "what do ya want for nothing?"))
  = "5bdcc146bf60754e6a042426089575c75a003f089d2739839dec58b964ec3843".
Proof. vm_compute. reflexivity. Qed.

Example stringify_example :
  JSON.stringify (VObj [("id", VNum 77); ("tags", VArr [VNull; VUndefined; VBool true]);
                        ("u", VUndefined)])
  = Some (String.concat (String dquote "")
            ["{"; "id"; ":77,"; "tags"; ":[null,null,true]}"]).
Proof. reflexivity. Qed.



(* ====================================================================== *)
(** ** Buffers and digests *)

Lemma buffer_eqb_eq (a b : Buffer) : buffer_eqb a b = true <-> a = b.
Proof.
  revert b; induction a as [|x a IH]; intros [|y b]; simpl; split;
    try congruence; try reflexivity.
  - intros H. apply andb_true_iff in H as [Hxy Hab].
    apply Byte.byte_dec_bl in Hxy. apply IH in Hab. congruence.
  - intros [= -> ->]. apply andb_true_iff. split.
    + now apply Byte.byte_dec_lb.
    + now apply IH.
Qed.

Lemma Buffer_from_string_inj (s t : string) :
  Buffer_from_string s = Buffer_from_string t -> s = t.
Proof.
  unfold Buffer_from_string. intros H.
  rewrite <- (string_of_list_byte_of_string s), <- (string_of_list_byte_of_string t).
  now rewrite H.
Qed.

Lemma buffer_eqb_strings (s t : string) :
  buffer_eqb (Buffer_from_string s) (Buffer_from_string t) = String.eqb s t.
Proof.
  destruct (String.eqb_spec s t) as [->|Hne].
  - now apply buffer_eqb_eq.
  - destruct (buffer_eqb _ _) eqn:E; [|reflexivity].
    apply buffer_eqb_eq, Buffer_from_string_inj in E. contradiction.
Qed.

Lemma Buffer_from_string_length (s : string) :
  List.length (Buffer_from_string s) = String.length s.
Proof.
  unfold Buffer_from_string, list_byte_of_string.
  rewrite length_map. induction s; simpl; congruence.
Qed.

Lemma sha256_digest_length (msg : Buffer) : List.length (SHA256.digest msg) = 32.
Proof.
  unfold SHA256.digest.
  destruct (SHA256.digest_words _) as [[[[[[[a b] c] d] e] f] g] h].
  reflexivity.
Qed.

Lemma base64_encode_length (b : Buffer) :
  List.length b = 32 -> String.length (Base64.encode b) = 44.
Proof.
  unfold Base64.encode. intros H.
  do 33 (destruct b as [|? b]; try discriminate H).
  reflexivity.
Qed.

(** The HMAC tag in base64 is always 44 characters long. *)
Lemma hmac_base64_length (secret : string) (dataBuf : Buffer) :
  String.length (hmac_base64 secret dataBuf) = 44.
Proof.
  unfold hmac_base64. apply base64_encode_length.
  unfold HMAC.hmac_sha256. apply sha256_digest_length.
Qed.

Lemma string_length_eqb_false (s t : string) :
  String.length s <> String.length t -> String.eqb s t = false.
Proof. intros H. apply String.eqb_neq. congruence. Qed.

(* ====================================================================== *)
(** ** Webhook authentication *)

(** With a buffer as raw body, [verifyHmac] returns normally, and what it
    returns is whether the header is exactly the base64 HMAC-SHA256 tag of
    the body under the secret. The comparison is skipped (the length check
    of [timingSafeEqual] throws, which is caught and logged) exactly when a
    non-empty header has another length than the tag. *)
Lemma verifyHmac_buffer (B : Buffer) (sig S : string) (w : World) :
  verifyHmac (IsBuffer B) sig S w
  = (Ok (String.eqb sig (hmac_base64 S B)),
     if negb (String.eqb sig "")
        && negb (Nat.eqb (String.length (hmac_base64 S B)) (String.length sig))
     then exec (console LWarn "verifyHmac: timingSafeEqual error") w
     else w).
Proof.
  unfold verifyHmac, truthy.
  destruct (String.eqb_spec sig "") as [Hs|Hne]; cbn [negb andb].
  - subst sig. rewrite string_length_eqb_false; [reflexivity|].
    rewrite hmac_base64_length. discriminate.
  - unfold bind at 1, ret at 1. unfold try_catch, lift, crypto.timingSafeEqual.
    rewrite !Buffer_from_string_length.
    destruct (Nat.eqb_spec (String.length (hmac_base64 S B)) (String.length sig))
      as [Hlen|Hlen]; cbn [negb].
    + rewrite buffer_eqb_strings, String.eqb_sym. reflexivity.
    + rewrite (string_length_eqb_false sig) by congruence. reflexivity.
Qed.


Lemma verifyHmac_accepts_valid_tag (B : Buffer) (S : string) (w : World) :
  verifyHmac (IsBuffer B) (hmac_base64 S B) S w = (Ok true, w).
Proof.
  rewrite verifyHmac_buffer, String.eqb_refl, Nat.eqb_refl, andb_false_r.
  reflexivity.
Qed.

Lemma verifyHmac_rejects_other_header (B : Buffer) (sig S : string) (w : World) :
  sig <> hmac_base64 S B -> result (verifyHmac (IsBuffer B) sig S) w = Ok false.
Proof.
  intros H. unfold result. rewrite verifyHmac_buffer. simpl.
  apply String.eqb_neq in H. now rewrite H.
Qed.

Lemma verifyHmac_length_mismatch (B : Buffer) (sig S : string) (w : World) :
  sig <> "" -> String.length sig <> 44 ->
  crypto.timingSafeEqual (Buffer_from_string (hmac_base64 S B)) (Buffer_from_string sig)
  = Throw (RangeError "Input buffers must have the same byte length")
  /\ verifyHmac (IsBuffer B) sig S w
     = (Ok false, exec (console LWarn "verifyHmac: timingSafeEqual error") w).
Proof.
  intros Hne Hlen. split.
  - unfold crypto.timingSafeEqual.
    rewrite !Buffer_from_string_length, hmac_base64_length.
    destruct (Nat.eqb_spec 44 (String.length sig)); [congruence|reflexivity].
  - rewrite verifyHmac_buffer, hmac_base64_length.
    apply String.eqb_neq in Hne. rewrite Hne.
    destruct (Nat.eqb_spec 44 (String.length sig)); [congruence|].
    rewrite string_length_eqb_false; [reflexivity|].
    now rewrite hmac_base64_length.
Qed.

(** An empty raw body is hashed like any other. *)
Example verifyHmac_empty_body :
  verifyHmac (IsBuffer []) "not a tag" "whsec_one" Fixtures.empty_world
  = (Ok false, exec (console LWarn "verifyHmac: timingSafeEqual error")
                 Fixtures.empty_world)
  /\ verifyHmac (IsBuffer []) (hmac_base64 "whsec_one" []) "whsec_one"
       Fixtures.empty_world
     = (Ok true, Fixtures.empty_world).
Proof. split; [vm_compute; reflexivity | apply verifyHmac_accepts_valid_tag]. Qed.

(** C2, as stated, fails: a tag made with the secret ["k"] is accepted under
    the different secret ["k\0"], because HMAC pads short keys with zero
    bytes. *)
Lemma verifyHmac_accepts_zero_padded_secret :
  "k" <> Fixtures.k_nul
  /\ verifyHmac (IsBuffer Fixtures.empty_object_body)
       (hmac_base64 "k" Fixtures.empty_object_body) Fixtures.k_nul
       Fixtures.empty_world
     = (Ok true, Fixtures.empty_world).
Proof. split; [discriminate | vm_compute; reflexivity]. Qed.

(** What [timingSafeEqual] does with the tag and a header: a header of
    another length than the tag's 44 characters is refused by the length
    check, without a comparison. *)
Lemma timingSafeEqual_tag (B : Buffer) (sig S : string) :
  crypto.timingSafeEqual (Buffer_from_string (hmac_base64 S B)) (Buffer_from_string sig)
  = if Nat.eqb (String.length sig) 44
    then Ok (String.eqb (hmac_base64 S B) sig)
    else Throw (RangeError "Input buffers must have the same byte length").
Proof.
  unfold crypto.timingSafeEqual.
  rewrite !Buffer_from_string_length, hmac_base64_length, buffer_eqb_strings.
  now rewrite Nat.eqb_sym.
Qed.

(** C2 (amended): for every raw body [B] (the empty one included), header
    [sig] and secret [S], [verifyHmac] returns without throwing, and returns
    [true] exactly when [sig] is the base64 HMAC-SHA256 tag of [B] under [S].
    So the genuine tag is accepted (leaving the world untouched), every
    altered header is rejected, and an altered body or another secret is
    rejected whenever the tag changes. When a non-empty header has another
    length than the tag, the result is [false] by way of the length check
    of [timingSafeEqual] (thrown, caught and logged), with no comparison
    made. *)
Theorem verifyHmac_decides_tag_equality (B : Buffer) (sig S : string) (w : World) :
  verifyHmac (IsBuffer B) sig S w
  = (Ok (String.eqb sig (hmac_base64 S B)),
     if negb (String.eqb sig "")
        && negb (Nat.eqb (String.length (hmac_base64 S B)) (String.length sig))
     then exec (console LWarn "verifyHmac: timingSafeEqual error") w
     else w)
  /\ verifyHmac (IsBuffer B) (hmac_base64 S B) S w = (Ok true, w)
  /\ crypto.timingSafeEqual (Buffer_from_string (hmac_base64 S B))
       (Buffer_from_string sig)
     = if Nat.eqb (String.length sig) 44
       then Ok (String.eqb (hmac_base64 S B) sig)
       else Throw (RangeError "Input buffers must have the same byte length").
Proof.
  split; [|split].
  - apply verifyHmac_buffer.
  - apply verifyHmac_accepts_valid_tag.
  - apply timingSafeEqual_tag.
Qed.

(** C3, as stated, fails: given the parsed object [{}] instead of the raw
    bytes, [verifyHmac] serialises it and accepts a tag of that text. *)
Lemma verifyHmac_accepts_stringified_object :
  verifyHmac (NotBuffer (VObj []))
    (hmac_base64 Fixtures.default_secret (Buffer_from_string "{}"))
    Fixtures.default_secret Fixtures.empty_world
  = (Ok true, Fixtures.empty_world).
Proof. vm_compute. reflexivity. Qed.

(** The last-resort branch of [verifyHmac] is verification of the
    serialised text. *)
Lemma verifyHmac_stringify_fallback (v : value) (text sig S : string) (w : World) :
  (forall s, v <> VStr s) -> JSON.stringify v = Some text ->
  verifyHmac (NotBuffer v) sig S w
  = verifyHmac (IsBuffer (Buffer_from_string text)) sig S w.
Proof.
  intros Hv Hs. unfold verifyHmac.
  destruct (negb (truthy (VStr sig))); [reflexivity|].
  destruct v; try (exfalso; eapply Hv; reflexivity);
    unfold bind at 1, try_catch at 1, bind at 1, lift at 1;
    rewrite Hs; reflexivity.
Qed.

(** C3 (amended): when the raw bytes are unavailable the webhook route fails
    closed. It answers 400, and neither [verifyHmac] nor the storage layer
    is reached: the tables and the fault script are as before, and the
    console gains at most the missing-raw-body warning. (The stringify
    branch of [verifyHmac] itself remains, see
    [verifyHmac_stringify_fallback].) *)
Theorem route_without_raw_body_fails_closed
  (secret : string) (req : WebhookRequest) (w : World) :
  rawBody req = None ->
  exists text w',
    webhook_route secret req w = (Ok (mkResponse 400 text), w')
    /\ (w' = w \/ w' = exec (console LWarn "Missing raw body for webhook") w).
Proof.
  intros Hraw. unfold webhook_route, try_catch. rewrite Hraw.
  destruct (negb (truthy (VStr (shop_header req)))).
  - exists "missing shop header", w. split; [reflexivity | now left].
  - exists "missing raw body", (exec (console LWarn "Missing raw body for webhook") w).
    split; [reflexivity | now right].
Qed.

Lemma route_without_raw_body_fails_closed_witness :
  exists text w',
    webhook_route "whsec_default"
      (mkWebhookRequest (capture_raw []) "tag" "one.myshopify.com" "orders/create"
         (VObj []))
      Fixtures.empty_world
    = (Ok (mkResponse 400 text), w')
    /\ (w' = Fixtures.empty_world
        \/ w' = exec (console LWarn "Missing raw body for webhook") Fixtures.empty_world).
Proof.
  apply (route_without_raw_body_fails_closed "whsec_default"
           (mkWebhookRequest (capture_raw []) "tag" "one.myshopify.com"
              "orders/create" (VObj []))
           Fixtures.empty_world).
  reflexivity.
Defined.


(* ====================================================================== *)
(** ** The webhook route and the dispatcher's error policy *)

(** C6, as stated, fails: a webhook for a shop that no tenant row has is not
    turned away before authentication. Its signature is checked against the
    default secret, and when that check passes the route answers 200. *)
Lemma unknown_shop_reaches_hmac_and_is_acknowledged :
  find (fun t => String.eqb (t_shop t) (shop_header Fixtures.unknown_shop_request))
       (tenants (w_db Fixtures.empty_world)) = None
  /\ result (webhook_route Fixtures.default_secret Fixtures.unknown_shop_request)
       Fixtures.empty_world
     = Ok (mkResponse 200 "ok").
Proof. split; [reflexivity | vm_compute; reflexivity]. Qed.

(** C6 (amended): for a webhook whose shop domain matches no stored tenant
    (raw body and shop header present, storage answering), the route does
    run the HMAC check, against the process-wide default secret: it answers
    401 when the header is not the tag of the body under that secret and
    200 when it is. In both cases no table is changed. *)
Theorem unknown_shop_checked_against_default_secret
  (secret : string) (req : WebhookRequest) (raw : Buffer) (w : World) :
  rawBody req = Some raw ->
  shop_header req <> "" ->
  find (fun t => String.eqb (t_shop t) (shop_header req)) (tenants (w_db w)) = None ->
  w_faults w = [] ->
  exists w',
    webhook_route secret req w
    = (Ok (if String.eqb (hmac_header req) (hmac_base64 secret raw)
           then mkResponse 200 "ok"
           else mkResponse 401 "invalid hmac"), w')
    /\ w_db w' = w_db w.
Proof.
  intros Hraw Hshop Hfind Hfaults.
  destruct w as [db faults replies requests cons]; simpl in *; subst faults.
  unfold webhook_route, try_catch. rewrite Hraw. unfold truthy.
  apply String.eqb_neq in Hshop. rewrite Hshop. cbn [negb].
  unfold bind at 1. unfold prisma.tenant.findUnique_shop at 1, prisma.storage_call.
  cbn [w_faults w_db w_replies w_requests w_console]. rewrite Hfind.
  unfold bind at 1. rewrite verifyHmac_buffer.
  destruct (String.eqb (hmac_header req) (hmac_base64 secret raw)); cbn [negb].
  - unfold bind at 1, processWebhookPayload at 1, bind at 1.
    unfold prisma.tenant.findUnique_shop at 1, prisma.storage_call.
    destruct (_ && _); unfold exec, console; cbn; rewrite Hfind; cbn;
      eexists; split; reflexivity.
  - destruct (_ && _); unfold exec, bind, console, ret; cbn;
      eexists; split; reflexivity.
Qed.

Lemma unknown_shop_checked_against_default_secret_witness :
  exists w',
    webhook_route Fixtures.default_secret Fixtures.unknown_shop_request
      Fixtures.empty_world
    = (Ok (if String.eqb (hmac_header Fixtures.unknown_shop_request)
                (hmac_base64 Fixtures.default_secret Fixtures.empty_object_body)
           then mkResponse 200 "ok"
           else mkResponse 401 "invalid hmac"), w')
    /\ w_db w' = w_db Fixtures.empty_world.
Proof.
  apply (unknown_shop_checked_against_default_secret Fixtures.default_secret
           Fixtures.unknown_shop_request Fixtures.empty_object_body
           Fixtures.empty_world).
  - reflexivity.
  - discriminate.
  - reflexivity.
  - reflexivity.
Defined.

(** A [try]/[catch] whose handler only logs returns normally. *)
Lemma try_catch_console_total (m : M unit) (l : level) (msg : string) (w : World) :
  exists w', try_catch m (fun _ => console l msg) w = (Ok tt, w').
Proof.
  unfold try_catch. destruct (m w) as [[[]|e] w1]; eexists; reflexivity.
Qed.

Lemma tenant_lookup_answers (shop_ : string) (w : World) :
  hd false (w_faults w) = false ->
  exists t w', prisma.tenant.findUnique_shop shop_ w = (Ok t, w').
Proof.
  unfold prisma.tenant.findUnique_shop, prisma.storage_call.
  destruct (w_faults w) as [|[|] fs]; simpl; intros Hf; try discriminate;
    eexists; eexists; reflexivity.
Qed.

(** Once the tenant lookup has been answered, nothing that happens in a
    topic branch leaves [processWebhookPayload] as an exception. *)
Lemma dispatcher_swallows_branch_errors
  (topic shop_ : string) (payload : value) (w : World) :
  hd false (w_faults w) = false ->
  exists w', processWebhookPayload topic shop_ payload w = (Ok tt, w').
Proof.
  intros Hf. destruct (tenant_lookup_answers shop_ w Hf) as (t & w1 & E).
  unfold processWebhookPayload, bind at 1. rewrite E.
  destruct t as [t|].
  - apply try_catch_console_total.
  - eexists. reflexivity.
Qed.

(** C9: the dispatcher's tenant lookup is outside its [try] block. With a
    correctly signed webhook for a known shop, a storage failure on that
    lookup leaves [processWebhookPayload] as an exception, and the route
    answers 500 instead of 200. *)
Theorem dispatcher_tenant_lookup_error_propagates :
  result (verifyHmac (IsBuffer Fixtures.empty_object_body)
            (hmac_header Fixtures.signed_request) "whsec_one")
         Fixtures.empty_world = Ok true
  /\ result (processWebhookPayload "customers/update" "one.myshopify.com" (VObj []))
       (mkWorld Fixtures.two_tenants [true] [] [] [])
     = Throw (PrismaError "storage call rejected")
  /\ result (webhook_route Fixtures.default_secret Fixtures.signed_request)
       Fixtures.second_call_fails
     = Ok (mkResponse 500 "error").
Proof. split; [|split]; vm_compute; reflexivity. Qed.


(* ====================================================================== *)
(** ** Pagination *)

Section MatchHere.
Import RegExp.




End MatchHere.



Lemma truthy_nonempty (s : string) : s <> "" -> truthy (VStr s) = true.
Proof. intros H. simpl. apply String.eqb_neq in H. now rewrite H. Qed.

Section Paginate.
Variables (client : ShopifyClient) (path rootKey : string) (extraQuery : Query).



End Paginate.


(** What the run of three pages looks like when evaluated. *)
Example paginate_three_pages :
  result (fetchAllProducts PageFixtures.shop_client) PageFixtures.remote
  = Ok [PageFixtures.product 1; PageFixtures.product 2; PageFixtures.product 3;
        PageFixtures.product 4]
  /\ map rq_query (w_requests (exec (fetchAllProducts PageFixtures.shop_client)
                                 PageFixtures.remote))
     = [ [("limit", "250")];
         [("limit", "250"); ("page_info", "tokA")];
         [("limit", "250"); ("page_info", "tokB")] ].
Proof. split; vm_compute; reflexivity. Qed.

(** The orders pull always asks for every status. *)
Example orders_pull_query :
  map rq_query (w_requests (exec (fetchAllOrders PageFixtures.shop_client)
                              PageFixtures.remote))
  = [ [("limit", "250"); ("status", "any")];
      [("limit", "250"); ("status", "any"); ("page_info", "tokA")];
      [("limit", "250"); ("status", "any"); ("page_info", "tokB")] ].
Proof. vm_compute. reflexivity. Qed.

(** A [rel="next"] entry whose address carries no [page_info] parameter is
  not followed. *)
Example next_entry_without_token :
  extractNextPageInfo (Some PageFixtures.link_without_token) = None.
Proof. vm_compute. reflexivity. Qed.


(* ====================================================================== *)
(** ** Tables *)

#[global] Instance customer_laws : ModelLaws prisma.customer.model.
Proof.
  constructor; try reflexivity.
  - intros [? ? ? ? ?]. reflexivity.
  - intros [[|?] [|?] [|?] [|?] [|?]] [? ? ? ? ? ? ? ?]; reflexivity.
  - intros id k p r [= <-]. reflexivity.
  - intros id id' k p r _. eexists. reflexivity.
  - intros id k [[|?] [|?] [|?] [|?] [|?]] r [= <-]; reflexivity.
Qed.

#[global] Instance product_laws : ModelLaws prisma.product.model.
Proof.
  constructor; try reflexivity.
  - intros [? ? ? ? ?]. reflexivity.
  - intros [[|?] [|?] [|?] [|?]] [? ? ? ? ? ? ?]; reflexivity.
  - intros id k [[|?] ? [|?] ?] r; simpl; intros [= <-]. reflexivity.
  - intros id id' k [[|?] ? [|?] ?] r; simpl; intros [= <-]. eexists. reflexivity.
  - intros id k [[|?] [|?] [|?] [|?]] r; simpl; intros [= <-]; reflexivity.
Qed.

#[global] Instance order_laws : ModelLaws prisma.order.model.
Proof.
  constructor; try reflexivity.
  - intros [? ? ? ? ?]. reflexivity.
  - intros [[|?] [|?] [|?] [|?] [|?]] [? ? ? ? ? ? ? ?]; reflexivity.
  - intros id k [? [|?] ? ? ?] r; simpl; intros [= <-]. reflexivity.
  - intros id id' k [? [|?] ? ? ?] r; simpl; intros [= <-]. eexists. reflexivity.
  - intros id k [[|?] [|?] [|?] [|?] [|?]] r; simpl; intros [= <-]; reflexivity.
Qed.

Section UpdateFirst.
Context {R : Type} (f : R -> bool) (g : R -> R).

Lemma find_update_first (rows : list R) :
  (forall r, f (g r) = f r) ->
  find f (update_first f g rows) = option_map g (find f rows).
Proof.
  intros Hf. induction rows as [|r rows IH]; simpl; [reflexivity|].
  destruct (f r) eqn:E; simpl.
  - now rewrite Hf, E.
  - now rewrite E.
Qed.

Lemma update_first_fixed (rows : list R) (r : R) :
  find f rows = Some r -> g r = r -> update_first f g rows = rows.
Proof.
  induction rows as [|r0 rows IH]; simpl; [discriminate|].
  destruct (f r0).
  - intros [= ->] ->. reflexivity.
  - intros H1 H2. now rewrite IH.
Qed.

Lemma update_first_absent (rows : list R) :
  find f rows = None -> update_first f g rows = rows.
Proof.
  induction rows as [|r0 rows IH]; simpl; [reflexivity|].
  destruct (f r0); [discriminate|]. intros H. now rewrite IH.
Qed.

Lemma map_update_first {B} (h : R -> B) (rows : list R) :
  (forall r, h (g r) = h r) -> map h (update_first f g rows) = map h rows.
Proof.
  intros Hh. induction rows as [|r rows IH]; simpl; [reflexivity|].
  destruct (f r); simpl; [now rewrite Hh | now rewrite IH].
Qed.

Lemma find_app_new (rows : list R) (new : R) :
  find f rows = None -> f new = true -> find f (rows ++ [new]) = Some new.
Proof.
  induction rows as [|r rows IH]; simpl; intros H Hn.
  - now rewrite Hn.
  - destruct (f r); [discriminate | now apply IH].
Qed.
End UpdateFirst.

Lemma key_eqb_refl (k : prisma.key) : prisma.key_eqb k (fst k) (snd k) = true.
Proof. unfold prisma.key_eqb. now rewrite !String.eqb_refl. Qed.

Section Transactions.
Context {R D P : Type} {model : prisma.Model R D P} {laws : ModelLaws model}.

Lemma apply_has_key (k : prisma.key) (p : P) (r : R) :
  prisma.has_key k (prisma.apply p r) = prisma.has_key k r.
Proof.
  unfold prisma.has_key. pose proof (apply_ident p r) as H.
  unfold ident in H. injection H as _ -> ->. reflexivity.
Qed.

Lemma apply_has_id (id : nat) (p : P) (r : R) :
  prisma.has_id id (prisma.apply p r) = prisma.has_id id r.
Proof.
  unfold prisma.has_id. pose proof (apply_ident p r) as H.
  unfold ident in H. injection H as -> _ _. reflexivity.
Qed.

Lemma fresh_has_key (id : nat) (k : prisma.key) (p : P) (r : R) :
  prisma.fresh id k p = Ok r -> prisma.has_key k r = true.
Proof.
  intros H. apply fresh_ident in H. unfold ident in H. injection H as _ Ht Hr.
  unfold prisma.has_key. rewrite Ht, Hr. apply key_eqb_refl.
Qed.

(** What a successful upsert leaves behind. *)
Lemma upsert_tx_inv (k : prisma.key) (u c : D) (db db' : Store) (r : R) :
  prisma.upsert_tx k u (k, c) db = Ok (r, db') ->
  exists pu pc r0,
    prisma.validate u = Ok pu /\ prisma.validate c = Ok pc
    /\ prisma.fresh (next_id db) k pc = Ok r0
    /\ (   (exists old, find (prisma.has_key k) (prisma.rows db) = Some old
                        /\ r = prisma.apply pu old
                        /\ prisma.references_ok pu db = true
                        /\ db' = prisma.set_rows
                                   (update_first (prisma.has_key k) (prisma.apply pu)
                                      (prisma.rows db)) 0 db)
        \/ (find (prisma.has_key k) (prisma.rows db) = None
            /\ r = r0
            /\ prisma.references_ok pc db = true
            /\ db' = prisma.set_rows (prisma.rows db ++ [r0]) 1 db)).
Proof.
  unfold prisma.upsert_tx. cbn [fst snd].
  destruct (prisma.validate u) as [pu|e]; [|destruct (prisma.validate c); discriminate].
  destruct (prisma.validate c) as [pc|e]; [|discriminate].
  destruct (prisma.fresh (next_id db) k pc) as [r0|e] eqn:Ef; [|discriminate].
  destruct (find (prisma.has_key k) (prisma.rows db)) as [old|] eqn:Efind.
  - unfold prisma.update_tx. rewrite Efind.
    destruct (prisma.references_ok pu db) eqn:Eref; [|discriminate].
    intros [= <- <-]. exists pu, pc, r0.
    split; [reflexivity|]. split; [reflexivity|]. split; [assumption|].
    left. exists old. repeat split; reflexivity || assumption.
  - unfold prisma.insert_tx. rewrite Ef, Efind.
    destruct (prisma.references_ok pc db) eqn:Eref; [|discriminate].
    intros [= <- <-]. exists pu, pc, r0.
    split; [reflexivity|]. split; [reflexivity|]. split; [assumption|].
    right. repeat split; reflexivity || assumption.
Qed.

(** An upsert that finds its row already in the state the update patch
    describes changes nothing. *)
Lemma upsert_tx_noop (k : prisma.key) (u c : D) (pu pc : P) (db : Store) (r r0 : R) :
  prisma.validate u = Ok pu -> prisma.validate c = Ok pc ->
  prisma.fresh (next_id db) k pc = Ok r0 ->
  find (prisma.has_key k) (prisma.rows db) = Some r ->
  prisma.apply pu r = r ->
  prisma.references_ok pu db = true ->
  prisma.upsert_tx k u (k, c) db = Ok (r, db).
Proof.
  intros Hu Hc Hf Hfind Hfix Href.
  unfold prisma.upsert_tx, prisma.update_tx. cbn [fst snd].
  rewrite Hu, Hc, Hf, Hfind, Href, Hfix.
  rewrite (update_first_fixed _ _ _ r Hfind Hfix), set_rows_same. reflexivity.
Qed.

(** After a successful upsert the row is there under its key, and when the
    update patch is absorbed by the create patch, a second upsert of the
    same data is a no-op on any store with the same rows in this table. *)
Lemma upsert_tx_settles (k : prisma.key) (u c : D) (db db' : Store) (r : R) :
  prisma.upsert_tx k u (k, c) db = Ok (r, db') ->
  (forall pu pc, prisma.validate u = Ok pu -> prisma.validate c = Ok pc ->
                 absorbed pu pc) ->
  find (prisma.has_key k) (prisma.rows db') = Some r
  /\ (forall p, prisma.references_ok p db' = prisma.references_ok p db)
  /\ forall db2,
       prisma.rows db2 = prisma.rows db' ->
       (forall p, prisma.references_ok p db2 = prisma.references_ok p db) ->
       prisma.upsert_tx k u (k, c) db2 = Ok (r, db2).
Proof.
  intros H Habs.
  apply upsert_tx_inv in H as (pu & pc & r0 & Hu & Hc & Hf & Hcase).
  destruct (Habs pu pc Hu Hc) as [Hfix Href].
  destruct Hcase as [(old & Hfind & -> & Hr & ->) | (Hfind & -> & Hr & ->)];
    rewrite rows_set_rows.
  - assert (Hfound : find (prisma.has_key k)
                       (update_first (prisma.has_key k) (prisma.apply pu) (prisma.rows db))
                     = Some (prisma.apply pu old)).
    { rewrite find_update_first by (intros; apply apply_has_key).
      now rewrite Hfind. }
    split; [assumption|]. split; [intros p; apply references_set_rows|].
    intros db2 Hrows Hrefs.
    destruct (fresh_any_id _ (next_id db2) _ _ _ Hf) as [r1 Hf1].
    eapply upsert_tx_noop; eauto;
      try (rewrite Hrows; assumption); try apply apply_twice;
      try (rewrite Hrefs; assumption).
  - assert (Hfound : find (prisma.has_key k) (prisma.rows db ++ [r0]) = Some r0).
    { apply find_app_new; [assumption|]. eapply fresh_has_key; eassumption. }
    split; [assumption|]. split; [intros p; apply references_set_rows|].
    intros db2 Hrows Hrefs.
    destruct (fresh_any_id _ (next_id db2) _ _ _ Hf) as [r1 Hf1].
    eapply upsert_tx_noop; eauto;
      try (rewrite Hrows; assumption);
      try (rewrite Hrefs; apply Href; assumption).
Qed.

(** A successful upsert keeps the identity columns of every row in place. *)
Lemma upsert_tx_extends (k : prisma.key) (u c : D) (db db' : Store) (r : R) :
  prisma.upsert_tx k u (k, c) db = Ok (r, db') ->
  exists l b, db' = prisma.set_rows l b db
              /\ exists extra, map ident l = (map ident (prisma.rows db) ++ extra)%list.
Proof.
  intros H. apply upsert_tx_inv in H as (pu & pc & r0 & _ & _ & _ & Hcase).
  destruct Hcase as [(old & _ & _ & _ & ->) | (_ & _ & _ & ->)];
    eexists; eexists; (split; [reflexivity|]).
  - exists []. rewrite app_nil_r. apply map_update_first. apply apply_ident.
  - exists [ident r0]. now rewrite map_app.
Qed.

(** When both data arguments validate and the foreign keys hold, an
    upsert succeeds: it writes the update patch to the row it finds, or
    appends the new row. *)
Lemma upsert_tx_succeeds (k : prisma.key) (u c : D) (pu pc : P) (db : Store) (r0 : R) :
  prisma.validate u = Ok pu -> prisma.validate c = Ok pc ->
  prisma.fresh (next_id db) k pc = Ok r0 ->
  prisma.references_ok pu db = true -> prisma.references_ok pc db = true ->
  prisma.upsert_tx k u (k, c) db
  = Ok (match find (prisma.has_key k) (prisma.rows db) with
        | Some old =>
            (prisma.apply pu old,
             prisma.set_rows
               (update_first (prisma.has_key k) (prisma.apply pu) (prisma.rows db)) 0 db)
        | None => (r0, prisma.set_rows (prisma.rows db ++ [r0]) 1 db)
        end).
Proof.
  intros Hu Hc Hf Hru Hrc.
  unfold prisma.upsert_tx, prisma.update_tx, prisma.insert_tx. cbn [fst snd].
  rewrite Hu, Hc, Hf.
  destruct (find (prisma.has_key k) (prisma.rows db)) as [old|] eqn:E.
  - now rewrite Hru.
  - now rewrite Hrc.
Qed.

Lemma find_none_not_in (k : prisma.key) (l : list R) :
  find (prisma.has_key k) l = None -> ~ In k (map natural_key l).
Proof.
  induction l as [|r l IH]; simpl; [tauto|].
  destruct (prisma.has_key k r) eqn:E; [discriminate|].
  intros H [Hk | Hin]; [|now apply IH].
  unfold prisma.has_key, prisma.key_eqb in E. unfold natural_key in Hk.
  subst k. cbn [fst snd] in E. now rewrite !String.eqb_refl in E.
Qed.

(** A successful upsert keeps the unique index of its table satisfied. *)
Lemma upsert_tx_unique (k : prisma.key) (u c : D) (db db' : Store) (r : R) :
  prisma.upsert_tx k u (k, c) db = Ok (r, db') ->
  unique_in model db -> unique_in model db'.
Proof.
  unfold unique_in. intros H Hu.
  apply upsert_tx_inv in H as (pu & pc & r0 & _ & _ & Hf & Hcase).
  destruct Hcase as [(old & _ & _ & _ & ->) | (Hfind & _ & _ & ->)];
    rewrite rows_set_rows.
  - rewrite map_update_first; [assumption|].
    intros x. pose proof (apply_ident pu x) as Hi. unfold ident in Hi.
    unfold natural_key. now injection Hi as _ -> ->.
  - rewrite map_app. cbn [map].
    apply fresh_ident in Hf. unfold ident in Hf. injection Hf as _ Ht Hr.
    unfold natural_key at 2. rewrite Ht, Hr, <- surjective_pairing.
    rewrite <- (rev_involutive (map natural_key (prisma.rows db) ++ [k])).
    apply NoDup_rev. rewrite rev_app_distr. cbn [rev app].
    constructor.
    + rewrite <- in_rev. now apply find_none_not_in.
    + now apply NoDup_rev.
Qed.
End Transactions.

Section SameData.
Context {R D P : Type} {model : prisma.Model R D P} {laws : ModelLaws model}.

Lemma absorbed_same (p : P) : absorbed p p.
Proof. split; [intros id k r; apply fresh_apply | auto]. Qed.

(** Upserting with the same data for update and create, twice. *)
Lemma upsert_tx_same_twice (k : prisma.key) (d : D) (db db' : Store) (r : R) :
  prisma.upsert_tx k d (k, d) db = Ok (r, db') ->
  prisma.upsert_tx k d (k, d) db' = Ok (r, db').
Proof.
  intros H. eapply upsert_tx_settles in H as (_ & Href & Hnoop).
  - apply Hnoop; [reflexivity | assumption].
  - intros pu pc Hu Hc. rewrite Hu in Hc. injection Hc as <-. apply absorbed_same.
Qed.
End SameData.

Lemma extends_refl (db : Store) : extends db db.
Proof. repeat split; exists []; now rewrite app_nil_r. Qed.

Lemma extends_trans (a b c : Store) : extends a b -> extends b c -> extends a c.
Proof.
  intros (H1 & H2 & H3) (K1 & K2 & K3).
  repeat split;
    [destruct H1 as [x Hx], K1 as [y Hy] | destruct H2 as [x Hx], K2 as [y Hy]
     | destruct H3 as [x Hx], K3 as [y Hy]];
    exists (x ++ y)%list; rewrite Hy, Hx, app_assoc; reflexivity.
Qed.

Lemma grows_refl (db : Store) : grows db db.
Proof. split; [apply extends_refl | auto]. Qed.

Lemma grows_trans (a b c : Store) : grows a b -> grows b c -> grows a c.
Proof.
  intros [H1 H2] [K1 K2]. split; [eapply extends_trans; eassumption | auto].
Qed.

Lemma customer_upsert_extends k u c db db' r :
  prisma.upsert_tx (model := prisma.customer.model) k u (k, c) db = Ok (r, db') ->
  extends db db'.
Proof.
  intros H. apply upsert_tx_extends in H as (l & b & -> & Hext).
  split; [exact Hext|]. split; exists []; now rewrite app_nil_r.
Qed.

Lemma product_upsert_extends k u c db db' r :
  prisma.upsert_tx (model := prisma.product.model) k u (k, c) db = Ok (r, db') ->
  extends db db'.
Proof.
  intros H. apply upsert_tx_extends in H as (l & b & -> & Hext).
  split; [|split]; [|exact Hext|]; exists []; now rewrite app_nil_r.
Qed.

Lemma order_upsert_extends k u c db db' r :
  prisma.upsert_tx (model := prisma.order.model) k u (k, c) db = Ok (r, db') ->
  extends db db'.
Proof.
  intros H. apply upsert_tx_extends in H as (l & b & -> & Hext).
  split; [|split]; [| |exact Hext]; exists []; now rewrite app_nil_r.
Qed.

Lemma customer_upsert_grows k u c db db' r :
  prisma.upsert_tx (model := prisma.customer.model) k u (k, c) db = Ok (r, db') ->
  grows db db'.
Proof.
  intros H. split; [eapply customer_upsert_extends; eassumption|].
  intros (Hc & Hp & Ho). pose proof (upsert_tx_unique _ _ _ _ _ _ H Hc) as Hc'.
  apply upsert_tx_extends in H as (l & b & -> & _).
  split; [exact Hc' | split; assumption].
Qed.

Lemma product_upsert_grows k u c db db' r :
  prisma.upsert_tx (model := prisma.product.model) k u (k, c) db = Ok (r, db') ->
  grows db db'.
Proof.
  intros H. split; [eapply product_upsert_extends; eassumption|].
  intros (Hc & Hp & Ho). pose proof (upsert_tx_unique _ _ _ _ _ _ H Hp) as Hp'.
  apply upsert_tx_extends in H as (l & b & -> & _).
  split; [assumption | split; [exact Hp' | assumption]].
Qed.

Lemma order_upsert_grows k u c db db' r :
  prisma.upsert_tx (model := prisma.order.model) k u (k, c) db = Ok (r, db') ->
  grows db db'.
Proof.
  intros H. split; [eapply order_upsert_extends; eassumption|].
  intros (Hc & Hp & Ho). pose proof (upsert_tx_unique _ _ _ _ _ _ H Ho) as Ho'.
  apply upsert_tx_extends in H as (l & b & -> & _).
  split; [assumption | split; [assumption | exact Ho']].
Qed.


(* ====================================================================== *)
(** ** Reconciliation is idempotent *)

Lemma quiet_world (w : World) :
  quiet w ->
  w = mkWorld (w_db w) [] (w_replies w) (w_requests w) (w_console w).
Proof. destruct w; unfold quiet; simpl; intros ->; reflexivity. Qed.

(** Put a quiet world in record form, so that the monad evaluates on it. *)
Ltac open_quiet w Hq :=
  rewrite (quiet_world w Hq);
  generalize (w_db w) (w_replies w) (w_requests w) (w_console w);
  clear w Hq; intros ?db ?replies ?requests ?cons.

Ltac run_monad :=
  unfold exec, result, try_catch, bind, get_prop, throw, ret, console, lift,
    prisma.product.upsert, prisma.customer.upsert, prisma.order.upsert,
    prisma.customer.findFirst, prisma.customer.update, prisma.customer.create,
    prisma.tenant.findUnique_shop, prisma.tenant.findUnique_id,
    prisma.upsert, prisma.findFirst, prisma.update, prisma.create,
    prisma.storage_call;
  cbn [w_db w_faults w_replies w_requests w_console fst snd].

Ltac step :=
  repeat (progress (cbv beta iota;
                    cbn [w_db w_faults w_replies w_requests w_console fst snd])).

Ltac idem_done := split; [reflexivity | split; [reflexivity|]].

Lemma sync_product_idempotent (tenantId : string) (n m : nat) (p : value) (w : World) :
  quiet w ->
  idempotent_on (sync_product tenantId n p) (sync_product tenantId m p) w.
Proof.
  intros Hq. unfold idempotent_on. open_quiet w Hq.
  unfold sync_product. run_monad.
  destruct (nullish p); step.
  - idem_done; apply grows_refl.
  - destruct (prisma.upsert_tx _ _ _ db) as [[r db']|e] eqn:E; step.
    + rewrite (upsert_tx_same_twice _ _ _ _ _ E). step.
      idem_done; eapply product_upsert_grows; eassumption.
    + rewrite E. step. idem_done; apply grows_refl.
Qed.

Lemma sync_order_idempotent (tenantId : string) (n m : nat) (o : value) (w : World) :
  quiet w ->
  idempotent_on (sync_order tenantId n o) (sync_order tenantId m o) w.
Proof.
  intros Hq. unfold idempotent_on. open_quiet w Hq.
  unfold sync_order. run_monad.
  destruct (nullish o); step.
  - idem_done; apply grows_refl.
  - destruct (truthy (opt_prop "id" (prop "customer" o))); step.
    + destruct (prisma.upsert_tx _ _ _ db) as [[r db']|e] eqn:E; step.
      * pose proof E as Hinv. apply upsert_tx_extends in Hinv as (l & b & Hdb & _).
        assert (Hc : prisma.rows (Model := prisma.customer.model) db'
                     = prisma.rows (Model := prisma.customer.model) db)
          by (rewrite Hdb; reflexivity).
        rewrite Hc.
        rewrite (upsert_tx_same_twice _ _ _ _ _ E). step.
        idem_done; eapply order_upsert_grows; eassumption.
      * rewrite E. step. idem_done; apply grows_refl.
    + destruct (prisma.upsert_tx _ _ _ db) as [[r db']|e] eqn:E; step.
      * rewrite (upsert_tx_same_twice _ _ _ _ _ E). step.
        idem_done; eapply order_upsert_grows; eassumption.
      * rewrite E. step. idem_done; apply grows_refl.
Qed.

(** For customers an upsert with the same data on both sides can only fail
    in validation. *)
Lemma customer_upsert_throw (k : prisma.key) (d : prisma.customer.Data)
  (db : Store) (e : Error) :
  prisma.upsert_tx (model := prisma.customer.model) k d (k, d) db = Throw e ->
  prisma.validate (Model := prisma.customer.model) d = Throw e.
Proof.
  unfold prisma.upsert_tx, prisma.update_tx, prisma.insert_tx. cbn [fst snd].
  destruct (prisma.validate d) as [p|x]; [|intros [= <-]; reflexivity].
  cbn [prisma.fresh prisma.references_ok prisma.customer.model prisma.customer.new_row].
  destruct (find _ _); discriminate.
Qed.

Lemma sync_customer_idempotent (tenantId : string) (n m : nat) (c : value) (w : World) :
  quiet w ->
  idempotent_on (sync_customer tenantId n c) (sync_customer tenantId m c) w.
Proof.
  intros Hq. unfold idempotent_on. open_quiet w Hq.
  unfold sync_customer. run_monad.
  destruct (nullish c); step.
  - idem_done; apply grows_refl.
  - destruct (prisma.upsert_tx _ _ _ db) as [[r db']|e] eqn:E; step.
    + rewrite (upsert_tx_same_twice _ _ _ _ _ E). step.
      idem_done; eapply customer_upsert_grows; eassumption.
    + apply customer_upsert_throw in E as Hv.
      repeat first
        [ progress step | rewrite E | rewrite Hv
        | match goal with
          | |- context [match find ?f ?l with _ => _ end] => destruct (find f l)
          end ];
        idem_done; apply grows_refl.
Qed.

(** *** The webhook paths: update and create data differ *)

Lemma set_slot_absorb {A} (su sc : slot A) (x : A) :
  su = Keep \/ su = sc -> set_slot su (set_slot sc x) = set_slot sc x.
Proof. intros [-> | ->]; [reflexivity | destruct sc; reflexivity]. Qed.

Lemma text_opt_coalesce (col : string) (v : value) su sc :
  prisma.text_opt col (coalesce v VUndefined) = Ok su ->
  prisma.text_opt col (coalesce v VNull) = Ok sc ->
  su = Keep \/ su = sc.
Proof. destruct v; simpl; intros [= <-] [= <-]; auto. Qed.

Lemma text_req_coalesce (col : string) (v : value) (dflt : string) su sc :
  prisma.text_req col (coalesce v VUndefined) = Ok su ->
  prisma.text_req col (coalesce v (VStr dflt)) = Ok sc ->
  su = Keep \/ su = sc.
Proof. destruct v; simpl; intros [= <-] [= <-]; auto. Qed.

Lemma webhook_customer_absorbed (c : value) (pu pc : prisma.customer.Patch) :
  prisma.customer.check (webhook_customer_update c) = Ok pu ->
  prisma.customer.check (webhook_customer_create c) = Ok pc ->
  absorbed (model := prisma.customer.model) pu pc.
Proof.
  unfold prisma.customer.check, webhook_customer_update, webhook_customer_create.
  cbn [prisma.customer.email prisma.customer.firstName prisma.customer.lastName
       prisma.customer.createdAt prisma.customer.updatedAt].
  destruct (prisma.text_opt "email" (coalesce _ VUndefined)) as [e1|] eqn:E1;
    [|discriminate].
  destruct (prisma.text_opt "firstName" (coalesce _ VUndefined)) as [f1|] eqn:F1;
    [|discriminate].
  destruct (prisma.text_opt "lastName" (coalesce _ VUndefined)) as [l1|] eqn:L1;
    [|discriminate].
  destruct (prisma.text_opt "email" (coalesce _ VNull)) as [e2|] eqn:E2;
    [|discriminate].
  destruct (prisma.text_opt "firstName" (coalesce _ VNull)) as [f2|] eqn:F2;
    [|discriminate].
  destruct (prisma.text_opt "lastName" (coalesce _ VNull)) as [l2|] eqn:L2;
    [|discriminate].
  intros [= <-] [= <-].
  pose proof (text_opt_coalesce _ _ _ _ E1 E2) as He.
  pose proof (text_opt_coalesce _ _ _ _ F1 F2) as Hf.
  pose proof (text_opt_coalesce _ _ _ _ L1 L2) as Hl.
  split; [|reflexivity].
  intros id k r [= <-]. cbn. unfold prisma.customer.write. cbn.
  rewrite (set_slot_absorb e1 e2), (set_slot_absorb f1 f2), (set_slot_absorb l1 l2)
    by assumption.
  rewrite (set_slot_absorb (prisma.date_opt _)) by now right.
  reflexivity.
Qed.

Lemma webhook_product_absorbed (p : value) (pu pc : prisma.product.Patch) :
  prisma.product.check (product_data p VUndefined) = Ok pu ->
  prisma.product.check (product_data p (VStr "Untitled")) = Ok pc ->
  absorbed (model := prisma.product.model) pu pc.
Proof.
  unfold prisma.product.check, product_data.
  cbn [prisma.product.title prisma.product.sku prisma.product.price
       prisma.product.createdAt].
  destruct (prisma.text_req "title" (coalesce _ VUndefined)) as [t1|] eqn:T1;
    [|discriminate].
  destruct (prisma.text_req "title" (coalesce _ (VStr _))) as [t2|] eqn:T2;
    [|destruct (prisma.text_opt _ _); [destruct (prisma.decimal_req _ _)|]; discriminate].
  destruct (prisma.text_opt "sku" _) as [s|]; [|discriminate].
  destruct (prisma.decimal_req "price" _) as [pr|]; [|discriminate].
  intros [= <-] [= <-].
  pose proof (text_req_coalesce _ _ _ _ _ T1 T2) as Ht.
  split; [|reflexivity].
  intros id k r. cbn. unfold prisma.product.new_row. cbn.
  destruct t2 as [|t]; [discriminate|]. destruct pr as [|pr]; [discriminate|].
  cbn. intros [= <-]. unfold prisma.product.write. cbn.
  f_equal.
  - destruct Ht as [-> | ->]; reflexivity.
  - destruct s; reflexivity.
  - destruct (prisma.date_opt _); reflexivity.
Qed.

Section UpsertFacts.
Context {R D P : Type} {model : prisma.Model R D P} {laws : ModelLaws model}.

Lemma upsert_tx_tenants k u c db db' (r : R) :
  prisma.upsert_tx k u (k, c) db = Ok (r, db') -> tenants db' = tenants db.
Proof.
  intros H. apply upsert_tx_extends in H as (l & b & -> & _).
  apply tenants_set_rows.
Qed.
End UpsertFacts.

Lemma webhook_customer_upsert_twice k c db db' r :
  prisma.upsert_tx (model := prisma.customer.model) k (webhook_customer_update c)
    (k, webhook_customer_create c) db = Ok (r, db') ->
  forall db2, customers db2 = customers db' ->
    prisma.upsert_tx (model := prisma.customer.model) k (webhook_customer_update c)
      (k, webhook_customer_create c) db2 = Ok (r, db2).
Proof.
  intros H. eapply upsert_tx_settles in H as (_ & _ & Hnoop).
  - intros db2 Hrows. apply Hnoop; [exact Hrows | reflexivity].
  - intros pu pc. apply webhook_customer_absorbed.
Qed.

Lemma webhook_product_upsert_twice k p db db' r :
  prisma.upsert_tx (model := prisma.product.model) k (product_data p VUndefined)
    (k, product_data p (VStr "Untitled")) db = Ok (r, db') ->
  prisma.upsert_tx (model := prisma.product.model) k (product_data p VUndefined)
    (k, product_data p (VStr "Untitled")) db' = Ok (r, db').
Proof.
  intros H. eapply upsert_tx_settles in H as (_ & _ & Hnoop).
  - apply Hnoop; reflexivity.
  - intros pu pc. apply webhook_product_absorbed.
Qed.

Lemma order_upsert_customers k u c db db' r :
  prisma.upsert_tx (model := prisma.order.model) k u (k, c) db = Ok (r, db') ->
  customers db' = customers db.
Proof.
  intros H. apply upsert_tx_extends in H as (l & b & -> & _). reflexivity.
Qed.

Lemma processWebhookPayload_idempotent (topic shop_ : string) (payload : value)
  (w : World) :
  quiet w ->
  idempotent_on (processWebhookPayload topic shop_ payload)
    (processWebhookPayload topic shop_ payload) w.
Proof.
  intros Hq. unfold idempotent_on. open_quiet w Hq.
  unfold processWebhookPayload. run_monad.
  destruct (find _ (tenants db)) as [t|] eqn:Et; step.
  2:{ rewrite Et. step. idem_done; apply grows_refl. }
  destruct (String.prefix "orders/" topic).
  { destruct (nullish payload); step.
    { rewrite Et. step. idem_done; apply grows_refl. }
    destruct (truthy (opt_prop "id" (prop "customer" payload))); step.
    - destruct (prisma.upsert_tx _ _ _ db) as [[cust db1]|e] eqn:Ec; step.
      + pose proof (upsert_tx_tenants _ _ _ _ _ _ Ec) as Ht1.
        destruct (prisma.upsert_tx _ _ _ db1) as [[ord db2]|e] eqn:Eo; step.
        * pose proof (upsert_tx_tenants _ _ _ _ _ _ Eo) as Ht2.
          rewrite Ht2, Ht1, Et. step.
          rewrite (webhook_customer_upsert_twice _ _ _ _ _ Ec db2
                     (order_upsert_customers _ _ _ _ _ _ Eo)). step.
          rewrite (upsert_tx_same_twice _ _ _ _ _ Eo). step.
          idem_done. eapply grows_trans.
          -- eapply customer_upsert_grows; eassumption.
          -- eapply order_upsert_grows; eassumption.
        * rewrite Ht1, Et. step.
          rewrite (webhook_customer_upsert_twice _ _ _ _ _ Ec db1 eq_refl). step.
          rewrite Eo. step.
          idem_done. eapply customer_upsert_grows; eassumption.
      + rewrite Et. step. rewrite Ec. step. idem_done; apply grows_refl.
    - destruct (prisma.upsert_tx _ _ _ db) as [[ord db2]|e] eqn:Eo; step.
      + rewrite (upsert_tx_tenants _ _ _ _ _ _ Eo), Et. step.
        rewrite (upsert_tx_same_twice _ _ _ _ _ Eo). step.
        idem_done. eapply order_upsert_grows; eassumption.
      + rewrite Et. step. rewrite Eo. step. idem_done; apply grows_refl. }
  destruct (String.eqb topic "customers/create" || String.eqb topic "customers/update").
  { destruct (nullish payload); step.
    { rewrite Et. step. idem_done; apply grows_refl. }
    destruct (prisma.upsert_tx _ _ _ db) as [[cust db1]|e] eqn:Ec; step.
    - rewrite (upsert_tx_tenants _ _ _ _ _ _ Ec), Et. step.
      rewrite (webhook_customer_upsert_twice _ _ _ _ _ Ec db1 eq_refl). step.
      idem_done. eapply customer_upsert_grows; eassumption.
    - rewrite Et. step. rewrite Ec. step. idem_done; apply grows_refl. }
  destruct (String.eqb topic "products/create" || String.eqb topic "products/update").
  { destruct (nullish payload); step.
    { rewrite Et. step. idem_done; apply grows_refl. }
    destruct (prisma.upsert_tx _ _ _ db) as [[prod db1]|e] eqn:Ep; step.
    - rewrite (upsert_tx_tenants _ _ _ _ _ _ Ep), Et. step.
      rewrite (webhook_product_upsert_twice _ _ _ _ _ Ep). step.
      idem_done. eapply product_upsert_grows; eassumption.
    - rewrite Et. step. rewrite Ep. step. idem_done; apply grows_refl. }
  step. rewrite Et. step. idem_done; apply grows_refl.
Qed.

(** C1: for every remote record, each reconciliation upsert (the product,
    customer and order bodies of [fullSync], and every topic branch of
    [processWebhookPayload]) applied a second time on a store that rejects
    nothing leaves the tables exactly as the first application made them.
    The first application keeps id, tenant id and remote id of every
    existing row in place, and keeps each table at one row per
    (tenant id, remote id) at most. *)
Theorem reconciliation_idempotent
  (tenantId topic shop_ : string) (record : value) (n m : nat) (w : World) :
  quiet w ->
  idempotent_on (sync_product tenantId n record) (sync_product tenantId m record) w
  /\ idempotent_on (sync_customer tenantId n record) (sync_customer tenantId m record) w
  /\ idempotent_on (sync_order tenantId n record) (sync_order tenantId m record) w
  /\ idempotent_on (processWebhookPayload topic shop_ record)
       (processWebhookPayload topic shop_ record) w.
Proof.
  intros Hq. split; [|split; [|split]].
  - now apply sync_product_idempotent.
  - now apply sync_customer_idempotent.
  - now apply sync_order_idempotent.
  - now apply processWebhookPayload_idempotent.
Qed.

Lemma reconciliation_idempotent_witness :
  let w := Fixtures.two_tenants_world in
  let record := Fixtures.remote_order in
  idempotent_on (sync_product "t1" 0 record) (sync_product "t1" 1 record) w
  /\ idempotent_on (sync_customer "t1" 0 record) (sync_customer "t1" 1 record) w
  /\ idempotent_on (sync_order "t1" 0 record) (sync_order "t1" 1 record) w
  /\ idempotent_on (processWebhookPayload "orders/create" "one.myshopify.com" record)
       (processWebhookPayload "orders/create" "one.myshopify.com" record) w.
Proof.
  apply (reconciliation_idempotent "t1" "orders/create" "one.myshopify.com"
           Fixtures.remote_order 0 1 Fixtures.two_tenants_world).
  reflexivity.
Defined.

(** The same customer applied twice through the sync path and then once
    more through the webhook path: one row. *)
Example customer_applied_three_times :
  let w1 := exec (sync_customer "t1" 0 Fixtures.remote_customer)
                 Fixtures.two_tenants_world in
  let w2 := exec (sync_customer "t1" 1 Fixtures.remote_customer) w1 in
  let w3 := exec (processWebhookPayload "customers/update" "one.myshopify.com"
                    Fixtures.remote_customer) w2 in
  customers (w_db w1)
  = [ mkCustomer 0 "t1" "77" (Some "ada@example.com") (Some "Ada") None None
        (Some (new_Date (VStr "2025-09-09T06:08:26Z"))) ]
  /\ w_db w2 = w_db w1 /\ w_db w3 = w_db w1.
Proof. vm_compute. repeat split. Qed.


(* ====================================================================== *)
(** ** The fallback of the customer loop *)

Section ById.
Context {R D P : Type} {model : prisma.Model R D P} {laws : ModelLaws model}.

(** With ids unique in the table, the first row found by any predicate is
    also the first row that has its id. *)
Lemma find_by_id_of_found (f : R -> bool) (g : R -> R) (l : list R) (r : R) :
  NoDup (map prisma.row_id l) ->
  find f l = Some r ->
  find (prisma.has_id (prisma.row_id r)) l = Some r
  /\ update_first (prisma.has_id (prisma.row_id r)) g l = update_first f g l.
Proof.
  induction l as [|x l IH]; simpl; [discriminate|].
  intros Hnd Hfind. inversion Hnd as [|? ? Hx Hl]; subst.
  destruct (f x) eqn:Efx.
  - injection Hfind as ->. unfold prisma.has_id. rewrite Nat.eqb_refl. now split.
  - assert (Hin : In (prisma.row_id r) (map prisma.row_id l)).
    { apply in_map. apply find_some in Hfind. tauto. }
    assert (Hne : prisma.has_id (prisma.row_id r) x = false).
    { unfold prisma.has_id. apply Nat.eqb_neq. intros Heq. now rewrite Heq in Hx. }
    rewrite Hne. destruct (IH Hl Hfind) as [H1 H2]. now rewrite H1, H2.
Qed.
End ById.

(** C10: take a customer table with unique row ids and a record whose
    composite-key upsert would succeed and produce the store [db']. If
    instead the storage layer rejects that upsert, and answers the two
    calls of the fallback (the lookup by tenant id and remote id, then the
    update by row id or the create), the customer loop body ends with the
    store equal to [db'] and counts the record. *)
Theorem customer_fallback_matches_upsert
  (tenantId : string) (n : nat) (c : value) (w : World) (fs : list bool)
  (r : Customer) (db' : Store) :
  NoDup (map c_id (customers (w_db w))) ->
  nullish c = false ->
  prisma.upsert_tx (model := prisma.customer.model)
    (tenantId, to_String (prop "id" c)) (customer_data c)
    ((tenantId, to_String (prop "id" c)), customer_data c) (w_db w)
  = Ok (r, db') ->
  w_faults w = true :: false :: false :: fs ->
  result (sync_customer tenantId n c) w = Ok (S n)
  /\ w_db (exec (sync_customer tenantId n c) w) = db'.
Proof.
  intros Hnd Hc Hup Hf.
  destruct w as [db faults replies requests cons]. cbn in Hnd, Hup, Hf. subst faults.
  apply upsert_tx_inv in Hup as (pu & pc & r0 & Hu & Hv & Hfresh & Hcase).
  rewrite Hu in Hv. injection Hv as <-.
  unfold sync_customer. run_monad. rewrite Hc. step.
  destruct Hcase as [(old & Hfind & -> & Href & ->) | (Hfind & -> & Href & ->)].
  - rewrite Hfind. step. rewrite Hu. unfold prisma.update_tx.
    destruct (find_by_id_of_found (model := prisma.customer.model) _
                (prisma.apply pu) _ _ Hnd Hfind) as [Hid Hupd].
    cbn [prisma.row_id prisma.customer.model] in Hid, Hupd.
    change (@prisma.rows _ _ _ prisma.customer.model db) with (customers db).
    rewrite Hid, Hupd. cbn [prisma.references_ok prisma.customer.model]. step.
    split; reflexivity.
  - rewrite Hfind. step. rewrite Hu. unfold prisma.insert_tx. cbn [fst snd].
    rewrite Hfresh, Hfind. cbn [prisma.references_ok prisma.customer.model]. step.
    split; reflexivity.
Qed.

Lemma customer_fallback_matches_upsert_witness :
  result (sync_customer "t1" 0 Fixtures.remote_customer) Fixtures.upsert_rejected
  = Ok 1
  /\ w_db (exec (sync_customer "t1" 0 Fixtures.remote_customer)
             Fixtures.upsert_rejected)
     = mkStore [Fixtures.tenant1; Fixtures.tenant2] [Fixtures.synced_customer] [] [] 1.
Proof.
  apply (customer_fallback_matches_upsert "t1" 0 Fixtures.remote_customer
           Fixtures.upsert_rejected [] Fixtures.synced_customer).
  - simpl. constructor; [simpl; tauto | constructor].
  - reflexivity.
  - vm_compute. reflexivity.
  - reflexivity.
Defined.


(* ====================================================================== *)
(** ** The customer reference of an order *)

(** What a validated order patch looks like: the total price is always
    given, and the customer reference is written exactly when one was
    resolved. *)
Lemma order_check_inv (o : value) (cid : option nat) (p : prisma.order.Patch) :
  prisma.order.check (order_data o cid) = Ok p ->
  (exists t, prisma.order.pt_totalPrice p = Put t)
  /\ prisma.order.pt_customerId p
     = match cid with None => Keep | Some i => Put (Some i) end.
Proof.
  unfold prisma.order.check, order_data.
  cbn [prisma.order.orderNumber prisma.order.totalPrice prisma.order.currency
       prisma.order.createdAt prisma.order.customerId].
  destruct (prisma.text_opt "orderNumber" _) as [n|]; [|discriminate].
  destruct (prisma.decimal_req "totalPrice" _) as [t|] eqn:Et;
    [|discriminate].
  destruct (prisma.text_opt "currency" _) as [c|]; [|discriminate].
  intros [= <-]. cbn. split; [|reflexivity].
  destruct (prop "total_price" o); cbn in Et; try discriminate;
    injection Et as <-; eexists; reflexivity.
Qed.

(** Whether the order data validates does not depend on the reference. *)
Lemma order_check_any_reference (o : value) (cid cid' : option nat)
  (p : prisma.order.Patch) :
  prisma.order.check (order_data o cid) = Ok p ->
  exists p', prisma.order.check (order_data o cid') = Ok p'.
Proof.
  unfold prisma.order.check, order_data.
  cbn [prisma.order.orderNumber prisma.order.totalPrice prisma.order.currency
       prisma.order.createdAt prisma.order.customerId].
  destruct (prisma.text_opt "orderNumber" _) as [n|]; [|discriminate].
  destruct (prisma.decimal_req "totalPrice" _) as [t|]; [|discriminate].
  destruct (prisma.text_opt "currency" _) as [c|]; [|discriminate].
  intros _. eexists. reflexivity.
Qed.

(** Upserting validated order data whose reference, if any, names an
    existing customer. *)
Lemma order_upsert_reference (k : prisma.key) (o : value) (cid : option nat)
  (p : prisma.order.Patch) (db : Store) :
  prisma.order.check (order_data o cid) = Ok p ->
  (forall i, cid = Some i -> existsb (fun c => Nat.eqb (c_id c) i) (customers db) = true) ->
  exists r db',
    prisma.upsert_tx (model := prisma.order.model) k (order_data o cid)
      (k, order_data o cid) db = Ok (r, db')
    /\ find (prisma.has_key k) (orders db') = Some r
    /\ o_customerId r = reference_after cid (find (prisma.has_key k) (orders db))
    /\ customers db' = customers db.
Proof.
  intros Hp Hfk.
  destruct (order_check_inv _ _ _ Hp) as [[t Ht] Hc].
  assert (Hfresh : exists r0, prisma.fresh (Model := prisma.order.model) (next_id db) k p = Ok r0
                              /\ o_customerId r0 = cid).
  { cbn. unfold prisma.order.new_row. rewrite Ht. cbn. eexists. split; [reflexivity|].
    cbn. rewrite Hc. destruct cid; reflexivity. }
  destruct Hfresh as (r0 & Hfresh & Hr0).
  assert (Href : prisma.references_ok (Model := prisma.order.model) p db = true).
  { cbn. unfold prisma.order.customer_exists. rewrite Hc.
    destruct cid as [i|]; [now apply Hfk | reflexivity]. }
  pose proof (upsert_tx_succeeds (model := prisma.order.model) k _ _ p p db r0
                Hp Hp Hfresh Href Href) as Hup.
  change (@prisma.rows _ _ _ prisma.order.model db) with (orders db) in Hup.
  destruct (find (prisma.has_key k) (orders db)) as [old|] eqn:Efind.
  - eexists. eexists. split; [exact Hup|]. cbn [prisma.set_rows prisma.order.model orders customers].
    split; [|split; [|reflexivity]].
    + rewrite find_update_first by (intros; apply (apply_has_key (model := prisma.order.model))).
      now rewrite Efind.
    + cbn. rewrite Hc. destruct cid; reflexivity.
  - eexists. eexists. split; [exact Hup|]. cbn [prisma.set_rows prisma.order.model orders customers].
    split; [|split; [|reflexivity]].
    + apply find_app_new; [assumption|].
      eapply (fresh_has_key (model := prisma.order.model)); eassumption.
    + rewrite Hr0. destruct cid; reflexivity.
Qed.

Lemma found_customer_exists (k : prisma.key) (db : Store) (i : nat) :
  option_map c_id (find (prisma.has_key (model := prisma.customer.model) k) (customers db))
  = Some i ->
  existsb (fun c => Nat.eqb (c_id c) i) (customers db) = true.
Proof.
  destruct (find _ _) as [c|] eqn:E; [|discriminate]. intros [= <-].
  apply existsb_exists. exists c. apply find_some in E.
  split; [tauto | apply Nat.eqb_refl].
Qed.

(** The order loop of [fullSync]. *)
Lemma sync_order_reference (tenantId : string) (n : nat) (o : value) (w : World)
  (p : prisma.order.Patch) :
  quiet w ->
  nullish o = false ->
  truthy (opt_prop "id" (prop "customer" o)) = true ->
  prisma.order.check (order_data o None) = Ok p ->
  let ck := (tenantId, to_String (prop "id" (prop "customer" o))) in
  let ok := (tenantId, to_String (prop "id" o)) in
  let found := find (prisma.has_key (model := prisma.customer.model) ck)
                    (customers (w_db w)) in
  let before := find (prisma.has_key (model := prisma.order.model) ok)
                     (orders (w_db w)) in
  let w' := exec (sync_order tenantId n o) w in
  result (sync_order tenantId n o) w = Ok (S n)
  /\ exists r,
       find (prisma.has_key (model := prisma.order.model) ok) (orders (w_db w')) = Some r
       /\ o_customerId r = reference_after (option_map c_id found) before.
Proof.
  intros Hq Ho Hid Hp. cbv zeta. open_quiet w Hq.
  destruct (order_check_any_reference o None
              (option_map c_id
                 (find (prisma.has_key (model := prisma.customer.model)
                          (tenantId, to_String (prop "id" (prop "customer" o))))
                       (customers db))) p Hp) as [p' Hp'].
  destruct (order_upsert_reference (tenantId, to_String (prop "id" o)) o _ p' db Hp'
              (found_customer_exists _ db)) as (r & db' & Hup & Hfind & Href & _).
  unfold sync_order. run_monad. rewrite Ho. step. rewrite Hid. step.
  change (@prisma.rows _ _ _ prisma.customer.model db) with (customers db).
  rewrite Hup. step. split; [reflexivity|]. exists r. split; assumption.
Qed.

(** The [orders/] branch of the dispatcher: the embedded customer is
    upserted first, then the order is linked to that row. *)
Lemma webhook_order_reference (topic shop_ : string) (payload : value) (w : World)
  (t : Tenant) (p : prisma.order.Patch) (pu pc : prisma.customer.Patch) :
  quiet w ->
  find (fun t => String.eqb (t_shop t) shop_) (tenants (w_db w)) = Some t ->
  String.prefix "orders/" topic = true ->
  nullish payload = false ->
  truthy (opt_prop "id" (prop "customer" payload)) = true ->
  prisma.customer.check (webhook_customer_update (prop "customer" payload)) = Ok pu ->
  prisma.customer.check (webhook_customer_create (prop "customer" payload)) = Ok pc ->
  prisma.order.check (order_data payload None) = Ok p ->
  let ck := (t_id t, to_String (prop "id" (prop "customer" payload))) in
  let ok := (t_id t, to_String (prop "id" payload)) in
  let w' := exec (processWebhookPayload topic shop_ payload) w in
  exists cust r,
    find (prisma.has_key (model := prisma.customer.model) ck) (customers (w_db w'))
    = Some cust
    /\ find (prisma.has_key (model := prisma.order.model) ok) (orders (w_db w')) = Some r
    /\ o_customerId r = Some (c_id cust)
    /\ (forall c0,
          find (prisma.has_key (model := prisma.customer.model) ck) (customers (w_db w))
          = Some c0 -> c_id cust = c_id c0).
Proof.
  intros Hq Et Htopic Hn Hid Hu Hc Hp. cbv zeta. revert Et. open_quiet w Hq.
  cbn [w_db]. intros Et.
  set (ck := (t_id t, to_String (prop "id" (prop "customer" payload)))).
  assert (Hcust : exists cust db1,
            prisma.upsert_tx (model := prisma.customer.model) ck
              (webhook_customer_update (prop "customer" payload))
              (ck, webhook_customer_create (prop "customer" payload)) db
            = Ok (cust, db1)).
  { erewrite (upsert_tx_succeeds (model := prisma.customer.model) ck _ _ pu pc db);
      try eassumption; try reflexivity.
    destruct (find (prisma.has_key ck) (prisma.rows db)); eexists; eexists; reflexivity. }
  destruct Hcust as (cust & db1 & Ecust).
  pose proof Ecust as Hsettle.
  eapply upsert_tx_settles in Hsettle as (Hfound & _ & _);
    [|intros ? ?; apply webhook_customer_absorbed].
  change (@prisma.rows _ _ _ prisma.customer.model db1) with (customers db1) in Hfound.
  destruct (order_check_any_reference payload None (Some (c_id cust)) p Hp) as [p' Hp'].
  destruct (order_upsert_reference (t_id t, to_String (prop "id" payload)) payload
              (Some (c_id cust)) p' db1 Hp') as (r & db2 & Eord & Hfind & Href & Hsame).
  { intros i [= <-]. apply existsb_exists. exists cust.
    apply find_some in Hfound. split; [tauto | apply Nat.eqb_refl]. }
  unfold processWebhookPayload. run_monad. rewrite Et. step. rewrite Htopic, Hn.
  step. rewrite Hid. step. fold ck. rewrite Ecust. step. rewrite Eord. step.
  exists cust, r. rewrite Hsame.
  split; [assumption|]. split; [assumption|]. split; [exact Href|].
  intros c0 Hc0.
  apply upsert_tx_inv in Ecust as (? & ? & ? & _ & _ & _ & Hcase).
  change (@prisma.rows _ _ _ prisma.customer.model db) with (customers db) in Hcase.
  destruct Hcase as [(old & Hold & -> & _) | (Hnone & _)].
  - rewrite Hold in Hc0. injection Hc0 as <-. reflexivity.
  - rewrite Hnone in Hc0. discriminate.
Qed.

(** C8, as stated, fails in its second half on both paths.
    Webhook path: an order webhook naming remote customer 77, for which
    there is no customer row, does not leave the order without a customer
    reference; the dispatcher first inserts customer 77 (row id 0) and
    links the order to it.
    Sync path: order 9001 is stored and linked to customer row 0; remotely
    it now names customer 78, which has no row; after the order loop the
    stored order still references row 0. *)
Lemma order_without_local_customer_keeps_a_reference :
  (find (prisma.has_key (model := prisma.customer.model) ("t1", "77"))
        (customers Fixtures.two_tenants) = None
   /\ w_db (exec (processWebhookPayload "orders/create" "one.myshopify.com"
                    Fixtures.remote_order) Fixtures.two_tenants_world)
      = mkStore [Fixtures.tenant1; Fixtures.tenant2]
          [ mkCustomer 0 "t1" "77" (Some "ada@example.com") None None None None ]
          []
          [ mkOrder 1 "t1" "9001" (Some "1001") "19.90" (Some "EUR") None (Some 0) ]
          2)
  /\ (find (prisma.has_key (model := prisma.customer.model) ("t1", "78"))
           (customers Fixtures.one_linked_order) = None
      /\ exec (sync_order "t1" 0 Fixtures.remote_order_other_customer)
              (Fixtures.world_of Fixtures.one_linked_order)
         = Fixtures.world_of Fixtures.one_linked_order).
Proof. split; split; vm_compute; reflexivity. Qed.

(** C8 (amended): take an order record with a truthy remote customer id
    whose data validates, on a store that rejects nothing.
    In the order loop of [fullSync] the record is stored without an error
    and counted; if a customer row with that remote id exists for the
    tenant, the stored order references that row's id; if none exists, a
    newly inserted order has no reference and an order that was stored
    before keeps the reference it had.
    In the [orders/] branch of the dispatcher the embedded customer is
    upserted first (inserted if there was no row), and the stored order
    references that customer row; the row keeps its id if it existed. *)
Theorem order_customer_reference
  (topic shop_ : string) (o : value) (n : nat) (w : World) (t : Tenant)
  (p : prisma.order.Patch) (pu pc : prisma.customer.Patch) :
  quiet w ->
  find (fun t => String.eqb (t_shop t) shop_) (tenants (w_db w)) = Some t ->
  String.prefix "orders/" topic = true ->
  nullish o = false ->
  truthy (opt_prop "id" (prop "customer" o)) = true ->
  prisma.customer.check (webhook_customer_update (prop "customer" o)) = Ok pu ->
  prisma.customer.check (webhook_customer_create (prop "customer" o)) = Ok pc ->
  prisma.order.check (order_data o None) = Ok p ->
  let ck := (t_id t, to_String (prop "id" (prop "customer" o))) in
  let ok := (t_id t, to_String (prop "id" o)) in
  let found := find (prisma.has_key (model := prisma.customer.model) ck)
                    (customers (w_db w)) in
  let before := find (prisma.has_key (model := prisma.order.model) ok)
                     (orders (w_db w)) in
  let synced := exec (sync_order (t_id t) n o) w in
  let pushed := exec (processWebhookPayload topic shop_ o) w in
  (result (sync_order (t_id t) n o) w = Ok (S n)
   /\ exists r,
        find (prisma.has_key (model := prisma.order.model) ok) (orders (w_db synced))
        = Some r
        /\ o_customerId r = reference_after (option_map c_id found) before)
  /\ (exists cust r,
        find (prisma.has_key (model := prisma.customer.model) ck)
             (customers (w_db pushed)) = Some cust
        /\ find (prisma.has_key (model := prisma.order.model) ok)
                (orders (w_db pushed)) = Some r
        /\ o_customerId r = Some (c_id cust)
        /\ (forall c0, found = Some c0 -> c_id cust = c_id c0)).
Proof.
  intros Hq Et Htopic Hn Hid Hu Hc Hp. cbv zeta. split.
  - now apply (sync_order_reference (t_id t) n o w p).
  - now apply (webhook_order_reference topic shop_ o w t p pu pc).
Qed.

Lemma order_customer_reference_witness :
  let w := Fixtures.world_of Fixtures.one_customer in
  let o := Fixtures.remote_order in
  let ck := ("t1", "77") in
  let ok := ("t1", "9001") in
  let found := find (prisma.has_key (model := prisma.customer.model) ck)
                    (customers (w_db w)) in
  let before := find (prisma.has_key (model := prisma.order.model) ok)
                     (orders (w_db w)) in
  let synced := exec (sync_order "t1" 0 o) w in
  let pushed := exec (processWebhookPayload "orders/create" "one.myshopify.com" o) w in
  (result (sync_order "t1" 0 o) w = Ok 1
   /\ exists r,
        find (prisma.has_key (model := prisma.order.model) ok) (orders (w_db synced))
        = Some r
        /\ o_customerId r = reference_after (option_map c_id found) before)
  /\ (exists cust r,
        find (prisma.has_key (model := prisma.customer.model) ck)
             (customers (w_db pushed)) = Some cust
        /\ find (prisma.has_key (model := prisma.order.model) ok)
                (orders (w_db pushed)) = Some r
        /\ o_customerId r = Some (c_id cust)
        /\ (forall c0, found = Some c0 -> c_id cust = c_id c0)).
Proof.
  apply (order_customer_reference "orders/create" "one.myshopify.com"
           Fixtures.remote_order 0 (Fixtures.world_of Fixtures.one_customer)
           Fixtures.tenant1
           (prisma.order.mkPatch (Put (Some "1001")) (Put "19.90") (Put (Some "EUR"))
              Keep Keep)
           (prisma.customer.mkPatch (Put (Some "ada@example.com")) Keep Keep Keep Keep)
           (prisma.customer.mkPatch (Put (Some "ada@example.com")) (Put None) (Put None)
              Keep Keep)).
  - reflexivity.
  - reflexivity.
  - reflexivity.
  - reflexivity.
  - reflexivity.
  - vm_compute. reflexivity.
  - vm_compute. reflexivity.
  - vm_compute. reflexivity.
Defined.

(** The order of the witness, evaluated: it is linked to customer row 0 on
    both paths. *)
Example order_linked_to_synced_customer :
  orders (w_db (exec (sync_order "t1" 0 Fixtures.remote_order)
                  (Fixtures.world_of Fixtures.one_customer)))
  = [ mkOrder 1 "t1" "9001" (Some "1001") "19.90" (Some "EUR") None (Some 0) ]
  /\ orders (w_db (exec (processWebhookPayload "orders/create" "one.myshopify.com"
                           Fixtures.remote_order)
                     (Fixtures.world_of Fixtures.one_customer)))
     = [ mkOrder 1 "t1" "9001" (Some "1001") "19.90" (Some "EUR") None (Some 0) ].
Proof. split; vm_compute; reflexivity. Qed.


(* ====================================================================== *)
(** ** Tenant isolation: the program logic *)

Section Safe.
Variables (T1 : string) (db0 : Store).

Lemma monotone_and (F G : Store -> Prop) :
  monotone F -> monotone G -> monotone (fun db => F db /\ G db).
Proof. intros HF HG db db' He [Hf Hg]. split; eauto. Qed.

Lemma safe_ret {A} (a : A) (Pre : Store -> Prop) (V : A -> Store -> Prop) :
  (forall db, isolated T1 db0 db -> Pre db -> V a db) ->
  safe T1 db0 Pre (ret a) V.
Proof.
  intros HV F HF w Hi Hp Hf. cbn. split; [assumption | split; [assumption|]].
  intros a' [= <-]. now apply HV.
Qed.

Lemma safe_throw {A} (e : Error) (Pre : Store -> Prop) (V : A -> Store -> Prop) :
  safe T1 db0 Pre (throw e) V.
Proof.
  intros F HF w Hi Hp Hf. cbn. split; [assumption | split; [assumption | discriminate]].
Qed.

Lemma safe_lift {A} (o : outcome A) (Pre : Store -> Prop) :
  safe T1 db0 Pre (lift o) anything.
Proof.
  intros F HF w Hi Hp Hf. cbn. split; [assumption | split; [assumption|]].
  intros; exact I.
Qed.

Lemma safe_get_prop (k : string) (v : value) (Pre : Store -> Prop) :
  safe T1 db0 Pre (get_prop k v) (fun _ db => Pre db).
Proof.
  intros F HF w Hi Hp Hf. unfold get_prop, exec, result.
  destruct (nullish v); cbn; (split; [assumption | split; [assumption|]]);
    [discriminate | intros; assumption].
Qed.

Lemma safe_console (l : level) (msg : string) (Pre : Store -> Prop) :
  safe T1 db0 Pre (console l msg) (fun _ db => Pre db).
Proof.
  intros F HF w Hi Hp Hf. cbn. split; [assumption | split; [assumption|]].
  intros; assumption.
Qed.

Lemma safe_bind {A B} (m : M A) (k : A -> M B) (Pre : Store -> Prop)
  (V1 : A -> Store -> Prop) (V2 : B -> Store -> Prop) :
  safe T1 db0 Pre m V1 ->
  (forall a, safe T1 db0 (V1 a) (k a) V2) ->
  safe T1 db0 Pre (bind m k) V2.
Proof.
  intros Hm Hk F HF w Hi Hp Hf.
  destruct (Hm F HF w Hi Hp Hf) as (Hi1 & Hf1 & Hv1).
  unfold exec, result, bind in *. destruct (m w) as [[a|e] w1]; cbn in *.
  - apply (Hk a F HF w1 Hi1); [now apply Hv1 | assumption].
  - split; [assumption | split; [assumption | discriminate]].
Qed.

Lemma safe_try {A} (m : M A) (h : Error -> M A) (Pre : Store -> Prop)
  (V : A -> Store -> Prop) :
  safe T1 db0 Pre m V ->
  (forall e, safe T1 db0 anywhere (h e) V) ->
  safe T1 db0 Pre (try_catch m h) V.
Proof.
  intros Hm Hh F HF w Hi Hp Hf.
  destruct (Hm F HF w Hi Hp Hf) as (Hi1 & Hf1 & Hv1).
  unfold exec, result, try_catch in *. destruct (m w) as [[a|e] w1]; cbn in *.
  - split; [assumption | split; assumption].
  - apply (Hh e F HF w1 Hi1); [exact I | assumption].
Qed.

Lemma safe_weaken {A} (m : M A) (Pre Pre' : Store -> Prop)
  (V V' : A -> Store -> Prop) :
  safe T1 db0 Pre m V ->
  (forall db, isolated T1 db0 db -> Pre' db -> Pre db) ->
  (forall a db, V a db -> V' a db) ->
  safe T1 db0 Pre' m V'.
Proof.
  intros Hm HP HV F HF w Hi Hp Hf.
  destruct (Hm F HF w Hi (HP _ Hi Hp) Hf) as (Hi1 & Hf1 & Hv1).
  split; [assumption | split; [assumption|]]. intros a Ha. apply HV. now apply Hv1.
Qed.

(** A precondition that does not speak of the store is a hypothesis. *)
Lemma safe_assume {A} (Q : Prop) (m : M A) (V : A -> Store -> Prop) :
  (Q -> safe T1 db0 anywhere m V) -> safe T1 db0 (fun _ => Q) m V.
Proof. intros H F HF w Hi Hq Hf. exact (H Hq F HF w Hi I Hf). Qed.

(** A monotone precondition is still there afterwards. *)
Lemma safe_frame {A} (m : M A) (Pre : Store -> Prop) (V : A -> Store -> Prop) :
  monotone Pre ->
  safe T1 db0 Pre m V ->
  safe T1 db0 Pre m (fun a db => Pre db /\ V a db).
Proof.
  intros HPre Hm F HF w Hi Hp Hf.
  destruct (Hm (fun db => F db /\ Pre db) (monotone_and _ _ HF HPre) w Hi Hp
              (conj Hf Hp)) as (Hi1 & [Hf1 Hp1] & Hv1).
  split; [assumption | split; [assumption|]].
  intros a Ha. split; [assumption | now apply Hv1].
Qed.

Lemma safe_for_of {A S} (xs : list A) (body : S -> A -> M S) (Pre : Store -> Prop) :
  monotone Pre ->
  (forall acc x, In x xs -> safe T1 db0 Pre (body acc x) anything) ->
  forall acc, safe T1 db0 Pre (for_of xs body acc) anything.
Proof.
  intros HPre. induction xs as [|x xs IH]; intros Hbody acc.
  - now apply safe_ret.
  - cbn [for_of]. eapply safe_bind.
    + apply safe_frame; [assumption|]. apply Hbody. now left.
    + intros acc'. eapply safe_weaken.
      * apply IH. intros a y Hy. apply Hbody. now right.
      * intros db _ [Hp _]. exact Hp.
      * auto.
Qed.

(** A storage call: what its transaction must guarantee. *)
Lemma safe_storage_call {A} (tx : Store -> outcome (A * Store))
  (Pre : Store -> Prop) (V : A -> Store -> Prop) :
  (forall db a db',
     isolated T1 db0 db -> Pre db -> tx db = Ok (a, db') ->
     isolated T1 db0 db' /\ extends db db' /\ V a db') ->
  safe T1 db0 Pre (prisma.storage_call tx) V.
Proof.
  intros Htx F HF w Hi Hp Hf. unfold exec, result, prisma.storage_call.
  assert (Hrun : forall fs,
    let res := match tx (w_db w) with
               | Ok (a, db') =>
                   (Ok a, mkWorld db' fs (w_replies w) (w_requests w) (w_console w))
               | Throw e =>
                   (Throw e, mkWorld (w_db w) fs (w_replies w) (w_requests w) (w_console w))
               end in
    isolated T1 db0 (w_db (snd res)) /\ F (w_db (snd res))
    /\ forall a, fst res = Ok a -> V a (w_db (snd res))).
  { intros fs. destruct (tx (w_db w)) as [[a db']|e] eqn:E; cbn.
    - destruct (Htx _ _ _ Hi Hp E) as (Hi' & He & Hv).
      split; [assumption | split; [eapply HF; eassumption|]].
      intros a' [= <-]. exact Hv.
    - split; [assumption | split; [assumption | discriminate]]. }
  destruct (w_faults w) as [|[|] fs]; [apply Hrun | | apply Hrun].
  cbn. split; [assumption | split; [assumption | discriminate]].
Qed.

(** Calls that only read. *)
Lemma safe_read {A} (f : Store -> A) (Pre : Store -> Prop) (V : A -> Store -> Prop) :
  (forall db, isolated T1 db0 db -> Pre db -> V (f db) db) ->
  safe T1 db0 Pre (prisma.storage_call (fun db => Ok (f db, db))) V.
Proof.
  intros HV. apply safe_storage_call. intros db a db' Hi Hp [= <- <-].
  split; [assumption | split; [apply extends_refl | now apply HV]].
Qed.
End Safe.


(* ====================================================================== *)
(** ** Tenant isolation: what the transactions keep *)

Section ListFacts.
Context {R : Type}.

Lemma filter_update_first (f h : R -> bool) (g : R -> R) (l : list R) :
  (forall r, In r l -> f r = true -> h r = false /\ h (g r) = false) ->
  filter h (update_first f g l) = filter h l.
Proof.
  induction l as [|r l IH]; intros H; simpl; [reflexivity|].
  destruct (f r) eqn:E.
  - destruct (H r (or_introl eq_refl) E) as [H1 H2]. simpl. now rewrite H1, H2.
  - simpl. rewrite IH; [reflexivity|]. intros x Hx. apply H. now right.
Qed.

Lemma in_update_first (f : R -> bool) (g : R -> R) (l : list R) (x : R) :
  In x (update_first f g l) ->
  In x l \/ exists y, In y l /\ f y = true /\ x = g y.
Proof.
  induction l as [|r l IH]; simpl; [tauto|].
  destruct (f r) eqn:E; simpl.
  - intros [<- | Hin]; [right; exists r; tauto | left; tauto].
  - intros [<- | Hin]; [left; tauto|].
    destruct (IH Hin) as [H | (y & Hy & Hf & ->)]; [left; tauto|].
    right. exists y. tauto.
Qed.

Lemma find_in_update_first (f : R -> bool) (g : R -> R) (l : list R) (old : R) :
  find f l = Some old -> In (g old) (update_first f g l).
Proof.
  induction l as [|x l IH]; simpl; [discriminate|].
  destruct (f x).
  - intros [= ->]. now left.
  - intros H. right. now apply IH.
Qed.

Lemma filter_app_new (h : R -> bool) (l : list R) (r : R) :
  h r = false -> filter h (l ++ [r]) = filter h l.
Proof. intros H. rewrite filter_app. simpl. rewrite H. apply app_nil_r. Qed.

Lemma NoDup_map_eq {B} (f : R -> B) (l : list R) (a b : R) :
  NoDup (map f l) -> In a l -> In b l -> f a = f b -> a = b.
Proof.
  induction l as [|x l IH]; simpl; [tauto|].
  intros Hnd Ha Hb Hab. inversion Hnd as [|? ? Hx Hl]; subst.
  destruct Ha as [<- | Ha], Hb as [<- | Hb]; try reflexivity.
  - exfalso. apply Hx. rewrite Hab. now apply in_map.
  - exfalso. apply Hx. rewrite <- Hab. now apply in_map.
  - now apply IH.
Qed.

Lemma NoDup_app_new {B} (f : R -> B) (l : list R) (r : R) :
  NoDup (map f l) -> ~ In (f r) (map f l) -> NoDup (map f (l ++ [r])).
Proof.
  intros Hnd Hnew. rewrite map_app. simpl.
  rewrite <- (rev_involutive (map f l ++ [f r])). apply NoDup_rev.
  rewrite rev_app_distr. simpl. constructor.
  - now rewrite <- in_rev.
  - now apply NoDup_rev.
Qed.
End ListFacts.

Section Writes.
Context {R D P : Type} {model : prisma.Model R D P} {laws : ModelLaws model}.
Variable T1 : string.

Lemma apply_tenant (p : P) (r : R) :
  prisma.row_tenant (prisma.apply p r) = prisma.row_tenant r.
Proof. pose proof (apply_ident p r) as H. unfold ident in H. now injection H. Qed.

Lemma apply_id (p : P) (r : R) : prisma.row_id (prisma.apply p r) = prisma.row_id r.
Proof. pose proof (apply_ident p r) as H. unfold ident in H. now injection H. Qed.

Lemma has_key_tenant (k : prisma.key) (r : R) :
  prisma.has_key k r = true -> prisma.row_tenant r = fst k.
Proof.
  unfold prisma.has_key, prisma.key_eqb. intros H.
  apply andb_true_iff in H as [H _]. now apply String.eqb_eq in H.
Qed.

(** What an update in place is, when it succeeds. *)
Lemma update_tx_inv (f : R -> bool) (p : P) (db db' : Store) (r : R) :
  prisma.update_tx f p db = Ok (r, db') ->
  exists old,
    find f (prisma.rows db) = Some old /\ r = prisma.apply p old
    /\ prisma.references_ok p db = true
    /\ db' = prisma.set_rows (update_first f (prisma.apply p) (prisma.rows db)) 0 db.
Proof.
  unfold prisma.update_tx.
  destruct (find f (prisma.rows db)) as [old|]; [|discriminate].
  destruct (prisma.references_ok p db); [|discriminate].
  intros [= <- <-]. exists old. auto.
Qed.

(** What an insert is, when it succeeds. *)
Lemma insert_tx_inv (k : prisma.key) (p : P) (db db' : Store) (r : R) :
  prisma.insert_tx k p db = Ok (r, db') ->
  prisma.fresh (next_id db) k p = Ok r
  /\ find (prisma.has_key k) (prisma.rows db) = None
  /\ prisma.references_ok p db = true
  /\ db' = prisma.set_rows (prisma.rows db ++ [r]) 1 db.
Proof.
  unfold prisma.insert_tx.
  destruct (prisma.fresh (next_id db) k p) as [new|]; [|discriminate].
  destruct (find _ _); [discriminate|].
  destruct (prisma.references_ok p db); [|discriminate].
  intros [= <- <-]. auto.
Qed.

(** An upsert is an update in place or an insert. *)
Lemma upsert_tx_cases (k : prisma.key) (u c : D) (db db' : Store) (r : R) :
  prisma.upsert_tx k u (k, c) db = Ok (r, db') ->
  (exists pu, prisma.validate u = Ok pu
              /\ prisma.update_tx (prisma.has_key k) pu db = Ok (r, db'))
  \/ (exists pc, prisma.validate c = Ok pc /\ prisma.insert_tx k pc db = Ok (r, db')).
Proof.
  unfold prisma.upsert_tx. cbn [fst snd].
  destruct (prisma.validate u) as [pu|]; [|destruct (prisma.validate c); discriminate].
  destruct (prisma.validate c) as [pc|]; [|discriminate].
  destruct (prisma.fresh _ _ _); [|discriminate].
  destruct (find _ _); intros H; [left | right]; eauto.
Qed.

(** Updating rows of [T1] in place leaves the rows of other tenants. *)
Lemma update_keeps_foreign (f : R -> bool) (p : P) (l : list R) :
  (forall r, In r l -> f r = true -> prisma.row_tenant r = T1) ->
  filter (fun r => negb (String.eqb (prisma.row_tenant r) T1))
         (update_first f (prisma.apply p) l)
  = filter (fun r => negb (String.eqb (prisma.row_tenant r) T1)) l.
Proof.
  intros H. apply filter_update_first. intros r Hr Hf.
  rewrite apply_tenant, (H r Hr Hf), String.eqb_refl. auto.
Qed.

Lemma insert_keeps_foreign (l : list R) (r : R) :
  prisma.row_tenant r = T1 ->
  filter (fun r => negb (String.eqb (prisma.row_tenant r) T1)) (l ++ [r])
  = filter (fun r => negb (String.eqb (prisma.row_tenant r) T1)) l.
Proof. intros H. apply filter_app_new. now rewrite H, String.eqb_refl. Qed.

Lemma update_tx_extends (f : R -> bool) (p : P) (db db' : Store) (r : R) :
  prisma.update_tx f p db = Ok (r, db') -> extends_table model db db'.
Proof.
  intros H. apply update_tx_inv in H as (old & _ & _ & _ & ->).
  exists []. rewrite rows_set_rows, app_nil_r.
  apply map_update_first, apply_ident.
Qed.

Lemma insert_tx_extends (k : prisma.key) (p : P) (db db' : Store) (r : R) :
  prisma.insert_tx k p db = Ok (r, db') -> extends_table model db db'.
Proof.
  intros H. apply insert_tx_inv in H as (_ & _ & _ & ->).
  exists [ident r]. now rewrite rows_set_rows, map_app.
Qed.
End Writes.

Lemma extends_customers (l : list Customer) (b : nat) (db : Store) :
  (exists extra, map ident l = (map ident (customers db) ++ extra)%list) ->
  extends db (prisma.set_rows (Model := prisma.customer.model) l b db).
Proof. intros H. split; [exact H|]. split; exists []; now rewrite app_nil_r. Qed.

Lemma extends_products (l : list Product) (b : nat) (db : Store) :
  (exists extra, map ident l = (map ident (products db) ++ extra)%list) ->
  extends db (prisma.set_rows (Model := prisma.product.model) l b db).
Proof.
  intros H. split; [|split]; [|exact H|]; exists []; now rewrite app_nil_r.
Qed.

Lemma extends_orders (l : list Order) (b : nat) (db : Store) :
  (exists extra, map ident l = (map ident (orders db) ++ extra)%list) ->
  extends db (prisma.set_rows (Model := prisma.order.model) l b db).
Proof.
  intros H. split; [|split]; [| |exact H]; exists []; now rewrite app_nil_r.
Qed.

Lemma owned_monotone (T1 : string) (id : nat) : monotone (owned T1 id).
Proof.
  intros db db' ([extra He] & _ & _) (c & Hc & Hid & Ht).
  assert (Hin : In (ident c) (map ident (prisma.rows (Model := prisma.customer.model) db')))
    by (rewrite He; apply in_or_app; left; now apply in_map).
  apply in_map_iff in Hin as (c' & Hi & Hc').
  exists c'. unfold ident in Hi. cbn in Hi, Hc'. injection Hi as H1 H2 _.
  repeat split; [assumption | congruence | congruence].
Qed.

Section Isolation.
Variables (T1 : string) (db0 : Store).

(** Rows of an updated customer table, by identity. *)
Lemma in_updated_customers (f : Customer -> bool) (p : prisma.customer.Patch)
  (l : list Customer) (c : Customer) :
  In c (update_first f (prisma.customer.write p) l) ->
  exists y, In y l /\ c_id c = c_id y /\ c_tenantId c = c_tenantId y.
Proof.
  intros H. apply in_update_first in H as [H | (y & Hy & _ & ->)].
  - exists c. auto.
  - exists y. auto.
Qed.

Lemma customer_update_isolated (f : Customer -> bool) (p : prisma.customer.Patch)
  (db db' : Store) (r : Customer) :
  isolated T1 db0 db ->
  (forall c, In c (customers db) -> f c = true -> c_tenantId c = T1) ->
  prisma.update_tx (model := prisma.customer.model) f p db = Ok (r, db') ->
  isolated T1 db0 db' /\ extends db db' /\ owned T1 (c_id r) db'.
Proof.
  intros ((Hnd & Hlt & Href) & Hsc & Hten & Hoth) Hf H.
  pose proof (update_tx_extends _ _ _ _ _ H) as Hext.
  apply update_tx_inv in H as (old & Hfind & -> & _ & ->).
  cbn [prisma.rows prisma.customer.model prisma.apply] in *.
  split; [|split].
  - split; [split; [|split] | split; [|split]].
    + cbn. rewrite map_update_first; [assumption | reflexivity].
    + cbn. intros c Hc. apply in_updated_customers in Hc as (y & Hy & -> & _). auto.
    + exact Href.
    + intros o c Ho Hc Hoc. cbn in Ho, Hc.
      apply in_updated_customers in Hc as (y & Hy & Hid & ->).
      apply Hsc; [assumption | assumption | congruence].
    + exact Hten.
    + rewrite <- Hoth. unfold others, foreign_rows. cbn. f_equal. f_equal.
      apply (update_keeps_foreign (model := prisma.customer.model)). exact Hf.
  - apply extends_customers. exact Hext.
  - exists (prisma.customer.write p old). split; [|split].
    + cbn. now apply find_in_update_first.
    + reflexivity.
    + cbn. apply find_some in Hfind as [Hin Hfo]. now apply Hf.
Qed.

Lemma customer_insert_isolated (k : prisma.key) (p : prisma.customer.Patch)
  (db db' : Store) (r : Customer) :
  isolated T1 db0 db -> fst k = T1 ->
  prisma.insert_tx (model := prisma.customer.model) k p db = Ok (r, db') ->
  isolated T1 db0 db' /\ extends db db' /\ owned T1 (c_id r) db'.
Proof.
  intros ((Hnd & Hlt & Href) & Hsc & Hten & Hoth) Hk H.
  pose proof (insert_tx_extends _ _ _ _ _ H) as Hext.
  apply insert_tx_inv in H as (Hfresh & _ & _ & ->).
  apply (fresh_ident (model := prisma.customer.model)) in Hfresh as Hid.
  unfold ident in Hid. cbn in Hid. injection Hid as Hrid Hrt _.
  cbn [prisma.rows prisma.customer.model] in *.
  split; [|split].
  - split; [split; [|split] | split; [|split]].
    + cbn. apply NoDup_app_new; [assumption|].
      rewrite Hrid. intros Hin. apply in_map_iff in Hin as (c & Hc & Hin).
      apply Hlt in Hin. lia.
    + cbn. intros c Hc. apply in_app_or in Hc as [Hc | [<- | []]].
      * apply Hlt in Hc. lia.
      * lia.
    + cbn. intros o i Ho Hi. specialize (Href o i Ho Hi). lia.
    + intros o c Ho Hc Hoc. cbn in Ho, Hc. apply in_app_or in Hc as [Hc | [<- | []]].
      * now apply Hsc.
      * rewrite Hrid in Hoc. specialize (Href o _ Ho Hoc). lia.
    + exact Hten.
    + rewrite <- Hoth. unfold others, foreign_rows. cbn. f_equal. f_equal.
      apply (insert_keeps_foreign (model := prisma.customer.model)).
      cbn. congruence.
  - apply extends_customers. exact Hext.
  - exists r. split; [|split].
    + cbn. apply in_or_app. right. now left.
    + reflexivity.
    + congruence.
Qed.

(** Writes to the product table touch nothing the invariant speaks of but
    the foreign product rows and the id counter. *)
Lemma product_write_isolated (l : list Product) (b : nat) (db : Store) :
  isolated T1 db0 db ->
  filter (fun r => negb (String.eqb (p_tenantId r) T1)) l
  = filter (fun r => negb (String.eqb (p_tenantId r) T1)) (products db) ->
  isolated T1 db0 (prisma.set_rows (Model := prisma.product.model) l b db).
Proof.
  intros ((Hnd & Hlt & Href) & Hsc & Hten & Hoth) Hl.
  split; [split; [|split] | split; [|split]].
  - exact Hnd.
  - cbn. intros c Hc. apply Hlt in Hc. lia.
  - cbn. intros o i Ho Hi. specialize (Href o i Ho Hi). lia.
  - exact Hsc.
  - exact Hten.
  - rewrite <- Hoth. unfold others, foreign_rows. cbn. now rewrite Hl.
Qed.

Lemma product_upsert_isolated (k : prisma.key) (u c : prisma.product.Data)
  (db db' : Store) (r : Product) :
  isolated T1 db0 db -> fst k = T1 ->
  prisma.upsert_tx (model := prisma.product.model) k u (k, c) db = Ok (r, db') ->
  isolated T1 db0 db' /\ extends db db'.
Proof.
  intros Hi Hk H. split; [|eapply product_upsert_extends; eassumption].
  apply upsert_tx_cases in H as [(pu & _ & H) | (pc & _ & H)].
  - apply update_tx_inv in H as (old & _ & _ & _ & ->).
    apply product_write_isolated; [assumption|].
    apply (update_keeps_foreign (model := prisma.product.model)).
    intros x _ Hx. apply has_key_tenant in Hx. cbn in Hx |- *. congruence.
  - apply insert_tx_inv in H as (Hfresh & _ & _ & ->).
    apply product_write_isolated; [assumption|].
    apply (insert_keeps_foreign (model := prisma.product.model)).
    apply (fresh_ident (model := prisma.product.model)) in Hfresh.
    unfold ident in Hfresh. cbn in Hfresh |- *. congruence.
Qed.

Lemma customer_upsert_isolated (k : prisma.key) (u c : prisma.customer.Data)
  (db db' : Store) (r : Customer) :
  isolated T1 db0 db -> fst k = T1 ->
  prisma.upsert_tx (model := prisma.customer.model) k u (k, c) db = Ok (r, db') ->
  isolated T1 db0 db' /\ extends db db' /\ owned T1 (c_id r) db'.
Proof.
  intros Hi Hk H.
  apply upsert_tx_cases in H as [(pu & _ & H) | (pc & _ & H)].
  - eapply customer_update_isolated; try eassumption.
    intros x _ Hx. apply has_key_tenant in Hx. cbn in Hx |- *. congruence.
  - eapply customer_insert_isolated; eassumption.
Qed.

Lemma order_check_customerId (d : prisma.order.Data) (p : prisma.order.Patch) :
  prisma.order.check d = Ok p ->
  prisma.order.pt_customerId p
  = match prisma.order.customerId d with None => Keep | Some i => Put (Some i) end.
Proof.
  unfold prisma.order.check.
  destruct (prisma.text_opt _ _); [|discriminate].
  destruct (prisma.decimal_req _ _); [|discriminate].
  destruct (prisma.text_opt _ _); [|discriminate].
  intros [= <-]. reflexivity.
Qed.

(** Writes to the order table: every reference in the new rows is either
    inherited from a row of the same tenant, or names a customer row of
    [T1] and sits on an order of [T1]. *)
Lemma order_write_isolated (l : list Order) (b : nat) (db : Store) :
  isolated T1 db0 db ->
  filter (fun r => negb (String.eqb (o_tenantId r) T1)) l
  = filter (fun r => negb (String.eqb (o_tenantId r) T1)) (orders db) ->
  (forall o i, In o l -> o_customerId o = Some i ->
     (exists y, In y (orders db) /\ o_tenantId y = o_tenantId o
                /\ o_customerId y = Some i)
     \/ (o_tenantId o = T1 /\ owned T1 i db)) ->
  isolated T1 db0 (prisma.set_rows (Model := prisma.order.model) l b db).
Proof.
  intros ((Hnd & Hlt & Href) & Hsc & Hten & Hoth) Hl Hrefs.
  split; [split; [|split] | split; [|split]].
  - exact Hnd.
  - cbn. intros c Hc. apply Hlt in Hc. lia.
  - cbn. intros o i Ho Hi.
    destruct (Hrefs o i Ho Hi) as [(y & Hy & _ & Hyi) | (_ & c & Hc & <- & _)].
    + specialize (Href y i Hy Hyi). lia.
    + apply Hlt in Hc. lia.
  - intros o c Ho Hc Hoc. cbn in Ho, Hc.
    destruct (Hrefs o _ Ho Hoc) as [(y & Hy & Hyt & Hyi) | (Hot & c0 & Hc0 & Hid & Hct)].
    + rewrite <- Hyt. now apply Hsc.
    + rewrite (NoDup_map_eq c_id _ c c0 Hnd Hc Hc0) by congruence. congruence.
  - exact Hten.
  - rewrite <- Hoth. unfold others, foreign_rows. cbn. now rewrite Hl.
Qed.

Lemma order_upsert_isolated (k : prisma.key) (u c : prisma.order.Data)
  (db db' : Store) (r : Order) :
  isolated T1 db0 db -> fst k = T1 ->
  (forall i, prisma.order.customerId u = Some i -> owned T1 i db) ->
  (forall i, prisma.order.customerId c = Some i -> owned T1 i db) ->
  prisma.upsert_tx (model := prisma.order.model) k u (k, c) db = Ok (r, db') ->
  isolated T1 db0 db' /\ extends db db'.
Proof.
  intros Hi Hk Hu Hc H. split; [|eapply order_upsert_extends; eassumption].
  apply upsert_tx_cases in H as [(pu & Hv & H) | (pc & Hv & H)].
  - apply update_tx_inv in H as (old & _ & _ & _ & ->).
    apply order_check_customerId in Hv.
    apply order_write_isolated; [assumption | |].
    + apply (update_keeps_foreign (model := prisma.order.model)).
      intros x _ Hx. apply has_key_tenant in Hx. cbn in Hx |- *. congruence.
    + intros o i Ho Hoi. cbn in Ho.
      apply in_update_first in Ho as [Ho | (y & Hy & Hky & ->)].
      * left. exists o. auto.
      * cbn in Hoi. rewrite Hv in Hoi.
        destruct (prisma.order.customerId u) as [j|] eqn:Ej; cbn in Hoi.
        -- injection Hoi as <-. right. split; [|now apply Hu].
           apply has_key_tenant in Hky. cbn in Hky |- *. congruence.
        -- left. exists y. auto.
  - apply insert_tx_inv in H as (Hfresh & _ & _ & ->).
    apply order_check_customerId in Hv.
    assert (Hr : o_tenantId r = T1
                 /\ o_customerId r = prisma.order.customerId c).
    { cbn in Hfresh. unfold prisma.order.new_row in Hfresh.
      destruct (prisma.required _ _); [|discriminate]. injection Hfresh as <-.
      cbn. rewrite Hv. split; [assumption|].
      destruct (prisma.order.customerId c); reflexivity. }
    destruct Hr as [Hrt Hrc].
    apply order_write_isolated; [assumption | |].
    + apply (insert_keeps_foreign (model := prisma.order.model)). exact Hrt.
    + intros o i Ho Hoi. cbn in Ho. apply in_app_or in Ho as [Ho | [<- | []]].
      * left. exists o. auto.
      * right. split; [assumption|]. apply Hc. congruence.
Qed.

(** A lookup scoped to [T1] finds rows of [T1] only. *)
Lemma customer_found_owned (k : prisma.key) (db : Store) (c : Customer) :
  fst k = T1 ->
  find (prisma.has_key (model := prisma.customer.model) k) (customers db) = Some c ->
  owned T1 (c_id c) db.
Proof.
  intros Hk H. apply find_some in H as [Hin Hkey].
  apply has_key_tenant in Hkey. cbn in Hkey.
  exists c. repeat split; [assumption | congruence].
Qed.

(** With ids unique, the row an id-keyed update hits is the owned one. *)
Lemma owned_has_id (id : nat) (db : Store) :
  isolated T1 db0 db -> owned T1 id db ->
  forall c, In c (customers db) ->
            prisma.has_id (model := prisma.customer.model) id c = true ->
            c_tenantId c = T1.
Proof.
  intros ((Hnd & _) & _) (c0 & Hc0 & Hid & Ht) c Hc Hh.
  unfold prisma.has_id in Hh. cbn in Hh. apply Nat.eqb_eq in Hh.
  rewrite (NoDup_map_eq c_id _ c c0 Hnd Hc Hc0) by congruence. exact Ht.
Qed.
End Isolation.


(* ====================================================================== *)
(** ** Tenant isolation: the calls and the programs *)

Lemma in_firstn {A} (n : nat) (l : list A) (x : A) : In x (firstn n l) -> In x l.
Proof.
  intros H. rewrite <- (firstn_skipn n l). apply in_or_app. now left.
Qed.

Section SafeCalls.
Variables (T1 : string) (db0 : Store).

Lemma safe_customer_upsert (k : prisma.key) (u c : prisma.customer.Data)
  (Pre : Store -> Prop) :
  fst k = T1 ->
  safe T1 db0 Pre (prisma.customer.upsert k u (k, c))
    (fun r db => owned T1 (c_id r) db).
Proof.
  intros Hk. apply safe_storage_call. intros db r db' Hi _ H.
  eapply customer_upsert_isolated; eassumption.
Qed.

Lemma safe_product_upsert (k : prisma.key) (u c : prisma.product.Data)
  (Pre : Store -> Prop) :
  fst k = T1 ->
  safe T1 db0 Pre (prisma.product.upsert k u (k, c)) anything.
Proof.
  intros Hk. apply safe_storage_call. intros db r db' Hi _ H.
  destruct (product_upsert_isolated T1 db0 k u c db db' r Hi Hk H) as [H1 H2].
  split; [assumption | split; [assumption | exact I]].
Qed.

Lemma safe_order_upsert (k : prisma.key) (d : prisma.order.Data) :
  fst k = T1 ->
  safe T1 db0
    (fun db => forall i, prisma.order.customerId d = Some i -> owned T1 i db)
    (prisma.order.upsert k d (k, d)) anything.
Proof.
  intros Hk. apply safe_storage_call. intros db r db' Hi Hp H.
  destruct (order_upsert_isolated T1 db0 k d d db db' r Hi Hk Hp Hp H) as [H1 H2].
  split; [assumption | split; [assumption | exact I]].
Qed.

Lemma safe_customer_findFirst (k : prisma.key) (Pre : Store -> Prop) :
  fst k = T1 ->
  safe T1 db0 Pre (prisma.customer.findFirst k)
    (fun found db => forall c, found = Some c -> owned T1 (c_id c) db).
Proof.
  intros Hk. apply safe_read. intros db _ _ c Hc.
  eapply customer_found_owned; eassumption.
Qed.

Lemma safe_customer_update (id : nat) (data : prisma.customer.Data) :
  safe T1 db0 (owned T1 id) (prisma.customer.update id data) anything.
Proof.
  apply safe_storage_call. intros db r db' Hi Hown H.
  destruct (prisma.validate data) as [p|]; [|discriminate].
  destruct (customer_update_isolated T1 db0 _ p db db' r Hi
              (owned_has_id T1 db0 id db Hi Hown) H) as (H1 & H2 & _).
  split; [assumption | split; [assumption | exact I]].
Qed.

Lemma safe_customer_create (k : prisma.key) (data : prisma.customer.Data)
  (Pre : Store -> Prop) :
  fst k = T1 ->
  safe T1 db0 Pre (prisma.customer.create (k, data)) anything.
Proof.
  intros Hk. apply safe_storage_call. intros db r db' Hi _ H. cbn [fst snd] in H.
  destruct (prisma.validate data) as [p|]; [|discriminate].
  destruct (customer_insert_isolated T1 db0 k p db db' r Hi Hk H) as (H1 & H2 & _).
  split; [assumption | split; [assumption | exact I]].
Qed.

Lemma safe_customer_findMany (take : nat) (Pre : Store -> Prop) :
  safe T1 db0 Pre (prisma.customer.findMany (missing_where T1) take)
    (fun found db => forall row, In row found -> owned T1 (c_id row) db).
Proof.
  apply safe_read. intros db _ _ row Hrow.
  apply in_firstn in Hrow. apply filter_In in Hrow as [Hin Hw].
  unfold missing_where in Hw. apply andb_true_iff in Hw as [Ht _].
  apply String.eqb_eq in Ht. exists row. auto.
Qed.

Lemma safe_tenant_by_shop (shop_ : string) (Pre : Store -> Prop) :
  safe T1 db0 Pre (prisma.tenant.findUnique_shop shop_)
    (fun found _ => found = find (fun t => String.eqb (t_shop t) shop_) (tenants db0)).
Proof.
  apply safe_read. intros db (_ & _ & Hten & _) _. now rewrite Hten.
Qed.

Lemma safe_tenant_by_id (id : string) (Pre : Store -> Prop) :
  safe T1 db0 Pre (prisma.tenant.findUnique_id id)
    (fun found _ => forall t, found = Some t -> t_id t = id).
Proof.
  apply safe_read. intros db _ _ t Ht. apply find_some in Ht as [_ Ht].
  now apply String.eqb_eq in Ht.
Qed.

(** Computations that never write to the store. *)
Lemma safe_read_only {A} (m : M A) (Pre : Store -> Prop) :
  (forall w, w_db (exec m w) = w_db w) ->
  safe T1 db0 Pre m (fun _ db => Pre db).
Proof.
  intros H F HF w Hi Hp Hf. rewrite H.
  split; [assumption | split; [assumption|]]. intros; assumption.
Qed.

Lemma safe_log (l : level) (msg : string) (Pre : Store -> Prop) :
  safe T1 db0 Pre (console l msg) anything.
Proof.
  eapply safe_weaken; [apply (safe_console T1 db0 l msg Pre) | |];
    [intros; assumption | intros; exact I].
Qed.

Lemma safe_log_ret {A} (l : level) (msg : string) (a : A) (Pre : Store -> Prop) :
  safe T1 db0 Pre (console l msg ;; ret a) anything.
Proof.
  eapply safe_bind; [apply safe_console|]. intros ?. apply safe_ret. intros; exact I.
Qed.
End SafeCalls.

Lemma shopifyFetch_db client path query (w : World) :
  w_db (exec (shopifyFetch client path query) w) = w_db w.
Proof.
  unfold exec, shopifyFetch. destruct (w_replies w) as [|r rest]; [reflexivity|].
  destruct (res_ok r); reflexivity.
Qed.

Lemma paginate_loop_db (turns : nat) client path rootKey extraQuery :
  forall all pageInfo (w : World),
    w_db (exec (paginate_loop turns client path rootKey extraQuery all pageInfo) w)
    = w_db w.
Proof.
  induction turns as [|turns IH]; intros all pageInfo w; [reflexivity|].
  cbn [paginate_loop]. unfold exec, bind at 1.
  pose proof (shopifyFetch_db client path
                (match pageInfo with
                 | Some p => if truthy (VStr p)
                             then obj_set "page_info" (VStr p)
                                    (spread [("limit", VNum 250)] extraQuery)
                             else spread [("limit", VNum 250)] extraQuery
                 | None => spread [("limit", VNum 250)] extraQuery
                 end) w) as Hf.
  unfold exec in Hf.
  destruct (shopifyFetch _ _ _ w) as [[res|e] w1]; cbn in Hf |- *; [|exact Hf].
  unfold bind at 1, get_prop. destruct (nullish (fst res)); [exact Hf|].
  unfold ret at 1. unfold bind at 1, lift.
  destruct (iterate _) as [items|e]; [|exact Hf].
  cbv zeta. destruct (extractNextPageInfo (snd res)) as [next|]; [|exact Hf].
  match goal with
  | |- context [if ?b then _ else _] => destruct b
  end; [|exact Hf].
  rewrite <- Hf. apply IH.
Qed.

Lemma paginateAll_db client path rootKey extraQuery (w : World) :
  w_db (exec (paginateAll client path rootKey extraQuery) w) = w_db w.
Proof. unfold paginateAll. apply (paginate_loop_db _ _ _ _ _ [] None w). Qed.

Section SafePrograms.
Variables (T1 : string) (db0 : Store).

Lemma safe_sync_product (n : nat) (p : value) (Pre : Store -> Prop) :
  safe T1 db0 Pre (sync_product T1 n p) anything.
Proof.
  unfold sync_product. apply safe_try; [|intros e; apply safe_log_ret].
  eapply safe_bind; [apply safe_get_prop|]. intros id.
  eapply safe_bind; [now apply safe_product_upsert|]. intros r.
  apply safe_ret. intros; exact I.
Qed.

Lemma safe_sync_customer (n : nat) (c : value) (Pre : Store -> Prop) :
  safe T1 db0 Pre (sync_customer T1 n c) anything.
Proof.
  unfold sync_customer. apply safe_try; [|intros e; apply safe_log_ret].
  eapply safe_bind; [apply safe_get_prop|]. intros id. cbv zeta.
  eapply safe_bind; [apply safe_console|]. intros ?.
  eapply safe_bind with (V1 := anything);
      [|intros ?; apply safe_ret; intros; exact I].
  apply safe_try.
  - eapply safe_bind; [now apply safe_customer_upsert|]. intros r.
    apply safe_ret. intros; exact I.
  - intros err.
    eapply safe_bind; [now apply (safe_customer_findFirst T1 db0 _ anywhere)|].
    intros [existing|].
    + eapply safe_bind with (V1 := anything);
      [|intros ?; apply safe_ret; intros; exact I].
      eapply safe_weaken; [apply safe_customer_update | | auto].
      intros db _ H. now apply H.
    + eapply safe_bind with (V1 := anything);
      [|intros ?; apply safe_ret; intros; exact I].
      now apply safe_customer_create.
Qed.

Lemma safe_sync_order (n : nat) (o : value) (Pre : Store -> Prop) :
  safe T1 db0 Pre (sync_order T1 n o) anything.
Proof.
  unfold sync_order. apply safe_try; [|intros e; apply safe_log_ret].
  eapply safe_bind; [apply safe_get_prop|]. intros id. cbv zeta.
  eapply safe_bind with
    (V1 := fun cid db => forall i, cid = Some i -> owned T1 i db).
  - destruct (truthy _).
    + eapply safe_bind; [now apply (safe_customer_findFirst T1 db0 _ Pre)|].
      intros found. apply safe_ret. intros db _ H i Hi.
      destruct found as [c|]; [|discriminate]. injection Hi as <-. now apply H.
    + apply safe_ret. intros db _ _ i Hi. discriminate.
  - intros cid.
    eapply safe_bind with (V1 := anything);
      [|intros ?; apply safe_ret; intros; exact I].
    eapply safe_weaken; [now apply safe_order_upsert | | auto].
    intros db _ H. exact H.
Qed.

Lemma fetchShopifyCustomerById_db client id (w : World) :
  w_db (exec (fetchShopifyCustomerById client id) w) = w_db w.
Proof. reflexivity. Qed.

Lemma safe_backfill_apply (row : Customer) (n : nat) (remote : value) :
  safe T1 db0 (owned T1 (c_id row)) (backfill_apply row n remote) anything.
Proof.
  unfold backfill_apply. destruct (truthy remote); [|apply safe_ret; intros; exact I].
  cbv zeta. destruct (negb _); [|apply safe_ret; intros; exact I].
  eapply safe_bind; [apply safe_customer_update|]. intros ?.
  apply safe_ret. intros; exact I.
Qed.

Lemma safe_backfill_row (client : ShopifyClient) (n : nat) (row : Customer) :
  safe T1 db0 (owned T1 (c_id row)) (backfill_row client n row) anything.
Proof.
  unfold backfill_row. destruct (negb _); [apply safe_ret; intros; exact I|].
  apply safe_try; [|intros e; apply safe_log_ret].
  eapply safe_bind.
  - apply safe_read_only. apply fetchShopifyCustomerById_db.
  - intros remote. apply safe_backfill_apply.
Qed.

Lemma safe_fetch_all (m : M (list value)) (Pre : Store -> Prop) :
  (forall w, w_db (exec m w) = w_db w) ->
  safe T1 db0 Pre m (fun _ _ => True).
Proof.
  intros H. eapply safe_weaken; [apply (safe_read_only T1 db0 m Pre H) | auto | auto].
Qed.

Lemma safe_fullSync : safe T1 db0 anywhere (fullSync T1) anything.
Proof.
  unfold fullSync.
  eapply safe_bind; [apply (safe_tenant_by_id T1 db0 T1 anywhere)|].
  intros [tenant|]; [|apply safe_throw].
  destruct (t_accessToken tenant) as [token|]; [|apply safe_throw].
  destruct (_ || _); [apply safe_throw|]. cbv zeta.
  eapply safe_bind;
    [apply safe_fetch_all; intros w; apply paginateAll_db|]. intros products.
  eapply safe_bind.
  { apply (safe_for_of T1 db0 products (sync_product T1) anywhere);
      [intros ? ? _ _; exact I|]. intros acc x _. apply safe_sync_product. }
  intros productCount.
  eapply safe_bind;
    [apply safe_fetch_all; intros w; apply paginateAll_db|]. intros customers.
  eapply safe_bind.
  { apply (safe_for_of T1 db0 customers (sync_customer T1) anywhere);
      [intros ? ? _ _; exact I|]. intros acc x _. apply safe_sync_customer. }
  intros customerCount.
  eapply safe_bind;
    [apply safe_fetch_all; intros w; apply paginateAll_db|]. intros orders.
  eapply safe_bind.
  { apply (safe_for_of T1 db0 orders (sync_order T1) anywhere);
      [intros ? ? _ _; exact I|]. intros acc x _. apply safe_sync_order. }
  intros orderCount.
  eapply safe_bind; [apply (safe_customer_findMany T1 db0 1000 anywhere)|].
  intros missing.
  eapply safe_bind with (V1 := anything);
    [|intros backfilled; apply safe_ret; intros; exact I].
  apply (safe_for_of T1 db0 missing (backfill_row _)
           (fun db => forall row, In row missing -> owned T1 (c_id row) db)).
  - intros db db' He H row Hrow. eapply owned_monotone; eauto.
  - intros acc row Hrow. eapply safe_weaken; [apply safe_backfill_row | | auto].
    intros db _ H. now apply H.
Qed.

Lemma safe_processWebhookPayload (topic shop_ : string) (payload : value) :
  (forall t, find (fun t => String.eqb (t_shop t) shop_) (tenants db0) = Some t ->
             t_id t = T1) ->
  safe T1 db0 anywhere (processWebhookPayload topic shop_ payload) anything.
Proof.
  intros Hshop. unfold processWebhookPayload.
  eapply safe_bind; [apply (safe_tenant_by_shop T1 db0 shop_ anywhere)|].
  intros [tenant|]; [|apply safe_log].
  apply safe_assume. intros Htenant. symmetry in Htenant.
  apply Hshop in Htenant. cbv zeta. rewrite Htenant.
  apply safe_try; [|intros e; apply safe_log].
  destruct (String.prefix "orders/" topic).
  { eapply safe_bind; [apply safe_get_prop|]. intros customer_.
    eapply safe_bind with
      (V1 := fun cid db => forall i, cid = Some i -> owned T1 i db).
    - destruct (truthy _).
      + cbv zeta. eapply safe_bind; [now apply safe_customer_upsert|].
        intros cust. apply safe_ret. intros db _ H i [= <-]. exact H.
      + apply safe_ret. intros db _ _ i Hi. discriminate.
    - intros cid. cbv zeta.
      eapply safe_bind with (V1 := anything);
      [|intros ?; apply safe_ret; intros; exact I].
      eapply safe_weaken; [now apply safe_order_upsert | | auto].
      intros db _ H. exact H. }
  destruct (_ || _).
  { eapply safe_bind; [apply safe_get_prop|]. intros id. cbv zeta.
    eapply safe_bind; [now apply safe_customer_upsert|].
    intros ?. apply safe_ret. intros; exact I. }
  destruct (_ || _).
  { eapply safe_bind; [apply safe_get_prop|]. intros id. cbv zeta.
    eapply safe_bind; [now apply safe_product_upsert|].
    intros ?. apply safe_ret. intros; exact I. }
  apply safe_try; [|intros e]; apply safe_log.
Qed.
End SafePrograms.


(* ====================================================================== *)
(** ** Tenant isolation: the statement *)

Lemma filter_filter_sub {A} (f g : A -> bool) (l : list A) :
  (forall x, f x = true -> g x = true) ->
  filter f (filter g l) = filter f l.
Proof.
  intros H. induction l as [|x l IH]; simpl; [reflexivity|].
  destruct (g x) eqn:Eg; simpl.
  - now rewrite IH.
  - destruct (f x) eqn:Ef; [|assumption].
    apply H in Ef. congruence.
Qed.

Lemma others_unchanged_for (T1 T2 : string) (db db' : Store) :
  T1 <> T2 -> others T1 db' = others T1 db -> unchanged_for T2 db db'.
Proof.
  intros Hne H. unfold others, foreign_rows in H. injection H as Hc Hp Ho.
  assert (Hsub : forall t : string,
            String.eqb t T2 = true -> negb (String.eqb t T1) = true).
  { intros t Ht. apply String.eqb_eq in Ht. subst t.
    apply negb_true_iff, String.eqb_neq. congruence. }
  unfold unchanged_for, tenant_rows. repeat split.
  - rewrite <- (filter_filter_sub _ (fun r => negb (String.eqb (c_tenantId r) T1)))
      by (intros; now apply Hsub).
    cbn in Hc |- *. rewrite Hc. apply filter_filter_sub. intros; now apply Hsub.
  - rewrite <- (filter_filter_sub _ (fun r => negb (String.eqb (p_tenantId r) T1)))
      by (intros; now apply Hsub).
    cbn in Hp |- *. rewrite Hp. apply filter_filter_sub. intros; now apply Hsub.
  - rewrite <- (filter_filter_sub _ (fun r => negb (String.eqb (o_tenantId r) T1)))
      by (intros; now apply Hsub).
    cbn in Ho |- *. rewrite Ho. apply filter_filter_sub. intros; now apply Hsub.
Qed.

Lemma isolated_start (T1 : string) (db : Store) :
  well_keyed db -> scoped db -> isolated T1 db db.
Proof. intros Hk Hs. repeat split; try assumption; apply Hk. Qed.

(** C4: let [T1] and [T2] be different tenants, on tables with unique
    customer ids in which no order references another tenant's customer.
    Whatever the remote API returns for [T1], whichever storage calls are
    rejected, and whether or not remote ids collide across the tenants:
    a full sync of [T1], and the dispatch of any webhook addressed to the
    shop of [T1], leave every customer, product and order row of [T2]
    exactly as it was, and every customer reference of an order is still
    to a customer row of the order's own tenant. *)
Theorem tenant_isolation
  (T1 T2 topic shop_ : string) (payload : value) (w : World) :
  T1 <> T2 ->
  well_keyed (w_db w) ->
  scoped (w_db w) ->
  (forall t, find (fun t => String.eqb (t_shop t) shop_) (tenants (w_db w)) = Some t ->
             t_id t = T1) ->
  let synced := w_db (exec (fullSync T1) w) in
  let pushed := w_db (exec (processWebhookPayload topic shop_ payload) w) in
  (unchanged_for T2 (w_db w) synced /\ scoped synced)
  /\ (unchanged_for T2 (w_db w) pushed /\ scoped pushed).
Proof.
  intros Hne Hk Hs Hshop. cbv zeta.
  pose proof (isolated_start T1 (w_db w) Hk Hs) as Hi.
  split.
  - destruct (safe_fullSync T1 (w_db w) (fun _ => True) (fun _ _ _ _ => I) w Hi I I)
      as ((_ & Hsc & _ & Hoth) & _).
    split; [now apply (others_unchanged_for T1) | exact Hsc].
  - destruct (safe_processWebhookPayload T1 (w_db w) topic shop_ payload Hshop
                (fun _ => True) (fun _ _ _ _ => I) w Hi I I)
      as ((_ & Hsc & _ & Hoth) & _).
    split; [now apply (others_unchanged_for T1) | exact Hsc].
Qed.

Lemma tenant_isolation_witness :
  let w := Fixtures.colliding_world in
  let synced := w_db (exec (fullSync "t1") w) in
  let pushed := w_db (exec (processWebhookPayload "orders/create" "one.myshopify.com"
                              Fixtures.remote_order) w) in
  (unchanged_for "t2" (w_db w) synced /\ scoped synced)
  /\ (unchanged_for "t2" (w_db w) pushed /\ scoped pushed).
Proof.
  apply (tenant_isolation "t1" "t2" "orders/create" "one.myshopify.com"
           Fixtures.remote_order Fixtures.colliding_world).
  - discriminate.
  - simpl. split; [|split].
    + repeat constructor; simpl; intuition discriminate.
    + intros c [<- | [<- | []]]; cbn; lia.
    + intros o i [<- | []] [= <-]. cbn. lia.
  - intros o c [<- | []] [<- | [<- | []]]; simpl; intros H;
      [discriminate | reflexivity].
  - simpl. intros t [= <-]. reflexivity.
Defined.

(** The sync of tenant one on colliding remote ids, evaluated: tenant two's
    customer "100" and its order are as before, and tenant one's order
    "5000" is linked to tenant one's customer "100" (row 0). *)
Example sync_with_colliding_ids :
  let db' := w_db (exec (fullSync "t1") Fixtures.colliding_world) in
  customers db'
  = [ mkCustomer 0 "t1" "100" (Some "ann@example.com") (Some "Ann") None None None;
      mkCustomer 1 "t2" "100" (Some "bob@example.com") (Some "Bob") None None None ]
  /\ orders db'
     = [ mkOrder 2 "t2" "5000" None "10.00" None None (Some 1);
         mkOrder 4 "t1" "5000" None "42.00" None None (Some 0) ]
  /\ result (fullSync "t1") Fixtures.colliding_world = Ok (mkStats 1 1 1 0).
Proof. vm_compute. repeat split. Qed.


(* ====================================================================== *)
(** ** The backfill pass *)

(** Which rows the backfill selects. *)
Lemma missing_where_spec (tenantId : string) (r : Customer) :
  missing_where tenantId r = true
  <-> c_tenantId r = tenantId /\ (c_firstName r = None \/ c_email r = None).
Proof.
  unfold missing_where. rewrite andb_true_iff, orb_true_iff, String.eqb_eq.
  destruct (c_firstName r), (c_email r); intuition discriminate.
Qed.

(** On a store that answers, the selection is the first 1000 rows of the
    tenant that lack an email or a first name, in table order. *)
Lemma backfill_selection (tenantId : string) (w : World) :
  quiet w ->
  exists selected,
    prisma.customer.findMany (missing_where tenantId) 1000 w = (Ok selected, w)
    /\ selected = firstn 1000 (filter (missing_where tenantId) (customers (w_db w)))
    /\ List.length selected <= 1000
    /\ forall r, In r selected ->
         c_tenantId r = tenantId /\ (c_firstName r = None \/ c_email r = None).
Proof.
  intros Hq. destruct w as [db faults replies requests cons].
  unfold quiet in Hq. cbn in Hq. subst faults.
  eexists. split; [|split; [reflexivity|split]].
  - reflexivity.
  - apply firstn_le_length.
  - intros r Hr. apply in_firstn, filter_In in Hr as [_ Hr].
    now apply missing_where_spec.
Qed.

Example backfill_targets :
  missing_where "t1" (mkCustomer 0 "t1" "77" None (Some "Ada") None None None) = true
  /\ missing_where "t1"
       (mkCustomer 0 "t1" "77" (Some "ada@example.com") (Some "Ada") None None None)
     = false.
Proof. split; reflexivity. Qed.

(** What the backfill would write for a fetched customer: only the columns
    whose remote value is present and differs, and the update time. *)
Example backfill_apply_partial_update :
  let row := mkCustomer 0 "t1" "77" None (Some "Ada") None None None in
  let w := Fixtures.world_of (mkStore [Fixtures.tenant1] [row] [] [] 1) in
  backfill_apply row 0 Fixtures.remote_customer w
  = (Ok 1,
     Fixtures.world_of
       (mkStore [Fixtures.tenant1]
          [ mkCustomer 0 "t1" "77" (Some "ada@example.com") (Some "Ada") None None
              (Some (new_Date (VStr "2025-09-09T06:08:26Z"))) ]
          [] [] 1)).
Proof. vm_compute. reflexivity. Qed.

Lemma fetchShopifyCustomerById_null (client : ShopifyClient) (id : string) (w : World) :
  fetchShopifyCustomerById client id w = (Ok VNull, w).
Proof. reflexivity. Qed.

Lemma backfill_row_skips (client : ShopifyClient) (n : nat) (row : Customer) (w : World) :
  backfill_row client n row w = (Ok n, w).
Proof. unfold backfill_row. destruct (negb _); reflexivity. Qed.

(** C7: the backfill never fetches. [fetchShopifyCustomerById] calls
    [client.get] on the record made by [makeClient], which has no such
    member; the [TypeError] is caught and the function answers [null] for
    every customer, without a request. At the failing input (customer 77
    stored without email and first name, the remote API ready to answer
    with both) the row is selected, no request for it is issued, it stays
    as it was, and the pass reports [backfilled = 0]. *)
Theorem backfill_never_fetches :
  (forall client id w, fetchShopifyCustomerById client id w = (Ok VNull, w))
  /\ (forall client n row w, backfill_row client n row w = (Ok n, w))
  /\ result (prisma.customer.findMany (missing_where "t1") 1000) Fixtures.backfill_world
     = Ok [Fixtures.bare_customer]
  /\ result (fullSync "t1") Fixtures.backfill_world = Ok (mkStats 0 0 0 0)
  /\ customers (w_db (exec (fullSync "t1") Fixtures.backfill_world))
     = [Fixtures.bare_customer]
  /\ map rq_path (w_requests (exec (fullSync "t1") Fixtures.backfill_world))
     = ["products"; "customers"; "orders"]
  /\ w_replies (exec (fullSync "t1") Fixtures.backfill_world)
     = [Fixtures.single_customer_reply].
Proof.
  split; [exact fetchShopifyCustomerById_null|].
  split; [exact backfill_row_skips|].
  split; [reflexivity|].
  split; [vm_compute; reflexivity|].
  split; [vm_compute; reflexivity|].
  split; vm_compute; reflexivity.
Qed.

(* ====================================================================== *)
(** ** Authentication and dispatch: what they never do *)

Lemma only_logs_refl (w : World) : only_logs w w.
Proof.
  repeat (split; [reflexivity|]). exists []. now rewrite app_nil_r.
Qed.

Lemma only_logs_trans (a b c : World) : only_logs a b -> only_logs b c -> only_logs a c.
Proof.
  intros (H1 & H2 & H3 & H4 & l1 & H5) (G1 & G2 & G3 & G4 & l2 & G5).
  split; [congruence|]. split; [congruence|]. split; [congruence|].
  split; [congruence|]. exists (l1 ++ l2)%list. rewrite G5, H5. now rewrite app_assoc.
Qed.

Lemma only_logs_console (l : level) (msg : string) (w : World) :
  only_logs w (exec (console l msg) w).
Proof.
  repeat (split; [reflexivity|]). exists [(l, msg)]. reflexivity.
Qed.

(** The comparison step of [verifyHmac]. *)
Lemma compare_tag_total (computed hmacHeader : string) (w : World) :
  String.length computed = 44 ->
  let m := try_catch
             (lift (crypto.timingSafeEqual (Buffer_from_string computed)
                      (Buffer_from_string hmacHeader)))
             (fun _ => console LWarn "verifyHmac: timingSafeEqual error" ;; ret false) in
  exists b, result m w = Ok b /\ only_logs w (exec m w)
            /\ (b = true -> String.length hmacHeader = 44).
Proof.
  intros Hlen m. subst m.
  unfold try_catch, lift, result, exec, crypto.timingSafeEqual.
  rewrite !Buffer_from_string_length, Hlen.
  destruct (Nat.eqb_spec 44 (String.length hmacHeader)) as [E|E]; cbn [fst snd].
  - eexists. split; [reflexivity|]. split; [apply only_logs_refl | auto].
  - exists false. split; [reflexivity|].
    split; [apply (only_logs_console LWarn _ w) | discriminate].
Qed.

(** Whatever it is given, [verifyHmac] returns, and has only logged. *)
Lemma verifyHmac_outcome
  (rawBody : RawBody) (hmacHeader secret : string) (w : World) :
  exists b,
    result (verifyHmac rawBody hmacHeader secret) w = Ok b
    /\ only_logs w (exec (verifyHmac rawBody hmacHeader secret) w)
    /\ (b = true -> String.length hmacHeader = 44).
Proof.
  unfold verifyHmac.
  destruct (negb (truthy (VStr hmacHeader))).
  { exists false. split; [reflexivity|]. split; [apply only_logs_refl | discriminate]. }
  assert (Hcmp : forall dataBuf w1, only_logs w w1 ->
            let m := try_catch
                       (lift (crypto.timingSafeEqual
                                (Buffer_from_string (hmac_base64 secret dataBuf))
                                (Buffer_from_string hmacHeader)))
                       (fun _ => console LWarn "verifyHmac: timingSafeEqual error" ;;
                                 ret false) in
            exists b, fst (m w1) = Ok b /\ only_logs w (snd (m w1))
                      /\ (b = true -> String.length hmacHeader = 44)).
  { intros dataBuf w1 Hw1 m.
    destruct (compare_tag_total (hmac_base64 secret dataBuf) hmacHeader w1
                (hmac_base64_length secret dataBuf)) as (b & Hb & Hl & H44).
    exists b. split; [exact Hb|]. split; [|exact H44].
    eapply only_logs_trans; eassumption. }
  match goal with
  | |- exists b, result (bind ?m0 ?k0) w = _ /\ _ => set (m := m0); set (k := k0)
  end.
  assert (Hk : forall ob w1, m w = (Ok ob, w1) -> only_logs w w1 ->
            exists b, result (bind m k) w = Ok b
                      /\ only_logs w (exec (bind m k) w)
                      /\ (b = true -> String.length hmacHeader = 44)).
  { intros ob w1 Em Hl. unfold result, exec, bind. rewrite Em.
    destruct ob as [dataBuf|]; subst k; cbv beta iota.
    - apply Hcmp, Hl.
    - exists false. split; [reflexivity|]. split; [exact Hl | discriminate]. }
  assert (Hstr : forall v',
            let m' := try_catch
                       (b <- lift (Buffer_from (JSON.stringify v')) ;; ret (Some b))
                       (fun _ => console LWarn "verifyHmac: failed to stringify rawBody" ;;
                                 ret None) in
            exists ob w1, m' w = (Ok ob, w1) /\ only_logs w w1).
  { intros v' m'. subst m'. unfold try_catch, bind at 1, lift, Buffer_from.
    destruct (JSON.stringify v') as [s|].
    - eexists. eexists. split; [reflexivity | apply only_logs_refl].
    - exists None. eexists. split; [reflexivity | apply (only_logs_console LWarn _ w)]. }
  destruct rawBody as [buf|v].
  { apply (Hk (Some buf) w); [reflexivity | apply only_logs_refl]. }
  destruct v as [| |bo|n|s|items|fields];
    try (apply (Hk (Some (Buffer_from_string s)) w); [reflexivity | apply only_logs_refl]);
    match goal with
    | _ := try_catch (b <- lift (Buffer_from (JSON.stringify ?v')) ;; _) _ |- _ =>
        destruct (Hstr v') as (ob & w1 & E & Hl); exact (Hk ob w1 E Hl)
    end.
Qed.

(** X1: [verifyHmac] returns normally on every input, changes nothing but
    the console, and accepts no header that is not 44 characters long. *)
Theorem verifyHmac_never_throws
  (rawBody : RawBody) (hmacHeader secret : string) (w : World) :
  exists b,
    result (verifyHmac rawBody hmacHeader secret) w = Ok b
    /\ only_logs w (exec (verifyHmac rawBody hmacHeader secret) w)
    /\ (b = true -> String.length hmacHeader = 44).
Proof. exact (verifyHmac_outcome rawBody hmacHeader secret w). Qed.

(** The dispatcher either returns, or fails on its first storage call,
    before it has written anything. *)
Lemma processWebhookPayload_outcome (topic shop_ : string) (payload : value) (w : World) :
  (exists w', processWebhookPayload topic shop_ payload w = (Ok tt, w'))
  \/ (exists e w', processWebhookPayload topic shop_ payload w = (Throw e, w')
                   /\ w_db w' = w_db w).
Proof.
  destruct (hd false (w_faults w)) eqn:Hf.
  - right. unfold processWebhookPayload, bind at 1,
      prisma.tenant.findUnique_shop, prisma.storage_call.
    destruct (w_faults w) as [|[|] fs]; try discriminate.
    eexists. eexists. split; reflexivity.
  - left. now apply dispatcher_swallows_branch_errors.
Qed.

(** X2: the webhook route always answers, with one of four statuses. It
    answers 200 only to a request whose header is the tag of its raw body
    under the secret of the shop named in the request (the default secret
    if that shop has none), and with any other answer the tables are as
    they were. *)
Theorem webhook_route_writes_only_when_authenticated
  (DEFAULT_WEBHOOK_SECRET : string) (req : WebhookRequest) (w : World) :
  exists resp,
    result (webhook_route DEFAULT_WEBHOOK_SECRET req) w = Ok resp
    /\ In (res_status resp) [200; 400; 401; 500]%Z
    /\ (res_status resp = 200%Z ->
        exists raw,
          rawBody req = Some raw
          /\ hmac_header req
             = hmac_base64 (secret_for DEFAULT_WEBHOOK_SECRET (shop_header req) (w_db w))
                 raw)
    /\ (res_status resp <> 200%Z ->
        w_db (exec (webhook_route DEFAULT_WEBHOOK_SECRET req) w) = w_db w).
Proof.
  enough (exists resp w',
            webhook_route DEFAULT_WEBHOOK_SECRET req w = (Ok resp, w')
            /\ In (res_status resp) [200; 400; 401; 500]%Z
            /\ (res_status resp = 200%Z ->
                exists raw,
                  rawBody req = Some raw
                  /\ hmac_header req
                     = hmac_base64
                         (secret_for DEFAULT_WEBHOOK_SECRET (shop_header req) (w_db w)) raw)
            /\ (res_status resp <> 200%Z -> w_db w' = w_db w))
    as (resp & w' & E & H).
  { exists resp. unfold result, exec. rewrite E. split; [reflexivity | exact H]. }
  unfold webhook_route, try_catch at 1. cbv zeta.
  destruct (negb (truthy (VStr (shop_header req)))).
  { eexists. eexists. split; [reflexivity|]. cbn. split; [tauto|].
    split; [discriminate | reflexivity]. }
  destruct (rawBody req) as [raw|].
  2:{ eexists. eexists. split; [reflexivity|]. cbn. split; [tauto|].
      split; [discriminate | reflexivity]. }
  unfold bind at 1.
  assert (Hlook :
    (exists w1, prisma.tenant.findUnique_shop (shop_header req) w
                = (Ok (find (fun t => String.eqb (t_shop t) (shop_header req))
                         (tenants (w_db w))), w1)
                /\ w_db w1 = w_db w)
    \/ (exists e w1, prisma.tenant.findUnique_shop (shop_header req) w = (Throw e, w1)
                     /\ w_db w1 = w_db w)).
  { unfold prisma.tenant.findUnique_shop, prisma.storage_call.
    destruct (w_faults w) as [|[|] fs];
      [left | right | left]; repeat eexists; reflexivity. }
  destruct Hlook as [(w1 & -> & Hdb1) | (e & w1 & -> & Hdb1)].
  2:{ eexists. eexists. split; [reflexivity|]. cbn. split; [tauto|].
      split; [discriminate | intros _; exact Hdb1]. }
  fold (secret_for DEFAULT_WEBHOOK_SECRET (shop_header req) (w_db w)).
  set (secret := secret_for DEFAULT_WEBHOOK_SECRET (shop_header req) (w_db w)).
  unfold bind at 1. rewrite verifyHmac_buffer.
  match goal with
  | |- context [if ?c then ?a else w1] => set (w2 := if c then a else w1)
  end.
  assert (Hdb2 : w_db w2 = w_db w).
  { subst w2. destruct (_ && _); exact Hdb1. }
  destruct (String.eqb_spec (hmac_header req) (hmac_base64 secret raw)) as [Htag|Htag];
    cbn [negb].
  2:{ eexists. eexists. split; [reflexivity|]. cbn. split; [tauto|].
      split; [discriminate | intros _; exact Hdb2]. }
  unfold bind at 1.
  destruct (processWebhookPayload_outcome (topic_header req) (shop_header req)
              (parsed_body req) w2) as [(w3 & ->) | (e & w3 & -> & Hdb3)].
  - eexists. eexists. split; [reflexivity|]. cbn. split; [tauto|]. split.
    + intros _. exists raw. split; [reflexivity | exact Htag].
    + intros H. now contradiction H.
  - eexists. eexists. split; [reflexivity|]. cbn. split; [tauto|].
    split; [discriminate | intros _; congruence].
Qed.

(** X3: a topic with no branch of its own ([customers/delete],
    [app/uninstalled], ...) changes no table, whatever the payload: such an
    event is only logged. *)
Theorem processWebhookPayload_ignores_other_topics
  (topic shop_ : string) (payload : value) (w : World) :
  handled_topic topic = false ->
  w_db (exec (processWebhookPayload topic shop_ payload) w) = w_db w
  /\ w_requests (exec (processWebhookPayload topic shop_ payload) w) = w_requests w
  /\ w_replies (exec (processWebhookPayload topic shop_ payload) w) = w_replies w.
Proof.
  unfold handled_topic. intros H.
  apply orb_false_elim in H as [H Hpu]. apply orb_false_elim in H as [H Hpc].
  apply orb_false_elim in H as [H Hcu]. apply orb_false_elim in H as [Ho Hcc].
  unfold processWebhookPayload. rewrite Ho, Hcc, Hcu, Hpc, Hpu. cbn [orb].
  unfold exec, bind at 1 2 3, prisma.tenant.findUnique_shop, prisma.storage_call.
  destruct (w_faults w) as [|[|] fs]; cbn [fst snd];
    try (split; [reflexivity | split; reflexivity]);
    destruct (find _ _); split; try reflexivity; split; reflexivity.
Qed.

Lemma processWebhookPayload_ignores_other_topics_witness :
  let pushed :=
    exec (processWebhookPayload "customers/delete" "one.myshopify.com"
            (VObj [("id", VNum 77)]))
      (Fixtures.world_of Fixtures.one_customer) in
  w_db pushed = w_db (Fixtures.world_of Fixtures.one_customer)
  /\ w_requests pushed = w_requests (Fixtures.world_of Fixtures.one_customer)
  /\ w_replies pushed = w_replies (Fixtures.world_of Fixtures.one_customer).
Proof.
  apply (processWebhookPayload_ignores_other_topics "customers/delete"
           "one.myshopify.com" (VObj [("id", VNum 77)])
           (Fixtures.world_of Fixtures.one_customer)).
  reflexivity.
Defined.

(* ====================================================================== *)
(** ** The full sync: refusals *)

(** X4: [fullSync] for a tenant id that has no row, or whose row lacks an
    access token or a shop, throws the corresponding error once the lookup
    is answered; no request has been sent and no table or pending reply
    has changed. *)
Theorem fullSync_refuses_incomplete_tenant (tenantId : string) (w : World) :
  hd false (w_faults w) = false ->
  let found := find (fun t => String.eqb (t_id t) tenantId) (tenants (w_db w)) in
  match found with Some t => syncable t = false | None => True end ->
  result (fullSync tenantId) w
  = Throw (JsError match found with
                   | Some _ => "tenant missing accessToken or shop"
                   | None => "tenant not found"
                   end)
  /\ w_db (exec (fullSync tenantId) w) = w_db w
  /\ w_requests (exec (fullSync tenantId) w) = w_requests w
  /\ w_replies (exec (fullSync tenantId) w) = w_replies w.
Proof.
  intros Hf found Hno.
  enough (exists w',
            fullSync tenantId w
            = (Throw (JsError match found with
                              | Some _ => "tenant missing accessToken or shop"
                              | None => "tenant not found"
                              end), w')
            /\ w_db w' = w_db w /\ w_requests w' = w_requests w
            /\ w_replies w' = w_replies w)
    as (w' & E & H).
  { unfold result, exec. rewrite E. split; [reflexivity | exact H]. }
  subst found.
  unfold fullSync, bind at 1, prisma.tenant.findUnique_id, prisma.storage_call.
  assert (Hrefuse : forall t, syncable t = false ->
            match t_accessToken t with
            | Some token =>
                negb (truthy (VStr token)) || negb (truthy (VStr (t_shop t)))
            | None => true
            end = true).
  { intros t. unfold syncable. destruct (t_accessToken t) as [token|]; [|reflexivity].
    intros [-> | ->]%andb_false_iff; [reflexivity | now rewrite orb_true_r]. }
  destruct (w_faults w) as [|[|] fs]; try discriminate Hf;
    (destruct (find _ (tenants (w_db w))) as [t|];
     [ specialize (Hrefuse t Hno); destruct (t_accessToken t) as [token|];
       [rewrite Hrefuse|]
     | ]; eexists; (split; [reflexivity|]); repeat split).
Qed.

Lemma fullSync_refuses_incomplete_tenant_witness :
  result (fullSync "t9") Fixtures.two_tenants_world = Throw (JsError "tenant not found")
  /\ w_db (exec (fullSync "t9") Fixtures.two_tenants_world) = Fixtures.two_tenants
  /\ w_requests (exec (fullSync "t9") Fixtures.two_tenants_world) = []
  /\ w_replies (exec (fullSync "t9") Fixtures.two_tenants_world) = [].
Proof.
  apply (fullSync_refuses_incomplete_tenant "t9" Fixtures.two_tenants_world).
  - reflexivity.
  - vm_compute. exact I.
Defined.

(** A program made of binds that ends in [ret c] returns nothing but [c]. *)
Lemma bind_returns {A B} (m : M A) (k : A -> M B) (P : B -> Prop) :
  (forall a w1 b w2, k a w1 = (Ok b, w2) -> P b) ->
  forall w b w', bind m k w = (Ok b, w') -> P b.
Proof.
  intros Hk w b w'. unfold bind. destruct (m w) as [[a|e] w1]; [eauto | discriminate].
Qed.
(* ====================================================================== *)
(** ** Pagination: requests, replies and failures *)

Section Requests.
Variables (client : ShopifyClient) (path rootKey : string) (extraQuery : Query).

Lemma turn_query (pageInfo : option string) :
  search_params
    match pageInfo with
    | Some p => if truthy (VStr p)
                then obj_set "page_info" (VStr p) (spread [("limit", VNum 250)] extraQuery)
                else spread [("limit", VNum 250)] extraQuery
    | None => spread [("limit", VNum 250)] extraQuery
    end
  = rq_query (page_request client path extraQuery (sent_token pageInfo)).
Proof.
  unfold page_request, sent_token. cbn [rq_query].
  destruct pageInfo as [p|]; [|reflexivity]. destruct (truthy (VStr p)); reflexivity.
Qed.

(** What a run of the loop does to the world, whatever the replies are:
    [tokens] are the continuation tokens of the later requests, each one
    announced by the reply before it. *)
Lemma paginate_loop_requests (turns : nat) :
  forall (all : list value) (pageInfo : option string) (w : World),
    List.length (w_replies w) < turns ->
    exists (tokens : list string) (consumed : list Reply) r w',
      paginate_loop turns client path rootKey extraQuery all pageInfo w = (r, w')
      /\ w_requests w'
         = (w_requests w
            ++ map (page_request client path extraQuery)
                 (sent_token pageInfo :: map Some tokens))%list
      /\ w_replies w = (consumed ++ w_replies w')%list
      /\ List.length consumed <= S (List.length tokens) <= S (List.length consumed)
      /\ w_db w' = w_db w /\ w_faults w' = w_faults w /\ w_console w' = w_console w
      /\ r <> Throw budget_error
      /\ map Some tokens = firstn (List.length tokens) (map announced consumed).
Proof.
  induction turns as [|turns IH]; intros all pageInfo w Hlen; [lia|].
  cbn [paginate_loop]. cbv zeta. unfold bind at 1, shopifyFetch at 1.
  rewrite turn_query.
  change (mkRequest client path
            (rq_query (page_request client path extraQuery (sent_token pageInfo))))
    with (page_request client path extraQuery (sent_token pageInfo)).
  destruct (w_replies w) as [|res rest] eqn:Hw.
  { exists [], []. eexists. eexists. split; [reflexivity|].
    cbn [w_db w_faults w_replies w_requests w_console map List.length app firstn].
    repeat (split; [first [reflexivity | lia | discriminate]|]). reflexivity. }
  assert (Hstop : forall (r : outcome (list value)),
            r <> Throw budget_error ->
            exists (tokens : list string) (consumed : list Reply) r0 w',
              (r, mkWorld (w_db w) (w_faults w) rest
                    (w_requests w
                     ++ [page_request client path extraQuery (sent_token pageInfo)])
                    (w_console w)) = (r0, w')
              /\ w_requests w'
                 = (w_requests w
                    ++ map (page_request client path extraQuery)
                         (sent_token pageInfo :: map Some tokens))%list
              /\ res :: rest = (consumed ++ w_replies w')%list
              /\ List.length consumed <= S (List.length tokens) <= S (List.length consumed)
              /\ w_db w' = w_db w /\ w_faults w' = w_faults w
              /\ w_console w' = w_console w
              /\ r0 <> Throw budget_error
              /\ map Some tokens = firstn (List.length tokens) (map announced consumed)).
  { intros r Hr. exists [], [res]. eexists. eexists. split; [reflexivity|].
    cbn [w_db w_faults w_replies w_requests w_console map List.length app firstn].
    repeat (split; [first [reflexivity | lia | exact Hr]|]). reflexivity. }
  destruct (res_ok res).
  2:{ apply Hstop. unfold budget_error, JsError. simpl. congruence. }
  cbn [fst snd]. unfold bind at 1, get_prop at 1.
  destruct (nullish (body res)).
  { apply Hstop. discriminate. }
  unfold ret at 1. unfold bind at 1, lift at 1.
  destruct (iterate _) as [items|e] eqn:Hit.
  2:{ apply Hstop. unfold iterate in Hit.
      destruct (coalesce _ _); try discriminate Hit; injection Hit as <-; discriminate. }
  destruct (extractNextPageInfo (link res)) as [next|] eqn:Hnext.
  2:{ apply Hstop. discriminate. }
  destruct (truthy (VStr next)) eqn:Ht.
  2:{ apply Hstop. discriminate. }
  match goal with
  | |- context [paginate_loop turns _ _ _ _ ?a ?p ?w1] =>
      destruct (IH a p w1)
        as (tokens & consumed & r & w' & E & Hrq & Hrp & Hn & Hd & Hf & Hc & Hr & Htk)
  end.
  { cbn [w_replies]. simpl in Hlen. lia. }
  cbn [w_db w_faults w_replies w_requests w_console] in Hrq, Hrp, Hd, Hf, Hc.
  assert (Hsent : sent_token (Some next) = Some next)
    by (unfold sent_token; now rewrite Ht).
  rewrite Hsent in Hrq.
  exists (next :: tokens), (res :: consumed), r, w'.
  split; [exact E|]. split.
  { rewrite Hrq, <- app_assoc. reflexivity. }
  split; [rewrite Hrp; reflexivity|].
  split; [cbn [List.length]; lia|].
  repeat (split; [assumption|]).
  cbn [map List.length firstn]. unfold announced at 1. rewrite Hnext, <- Htk.
  reflexivity.
Qed.

(** What [paginateAll] does to the world, whatever the replies are. *)
Lemma paginateAll_accounting (w : World) :
  let w' := exec (paginateAll client path rootKey extraQuery) w in
  exists (tokens : list string) (consumed : list Reply),
    w_requests w'
    = (w_requests w
       ++ map (page_request client path extraQuery) (None :: map Some tokens))%list
    /\ w_replies w = (consumed ++ w_replies w')%list
    /\ List.length consumed <= S (List.length tokens) <= S (List.length consumed)
    /\ w_db w' = w_db w /\ w_faults w' = w_faults w /\ w_console w' = w_console w
    /\ result (paginateAll client path rootKey extraQuery) w <> Throw budget_error
    /\ map Some tokens = firstn (List.length tokens) (map announced consumed).
Proof.
  cbv zeta. unfold exec, result, paginateAll.
  destruct (paginate_loop_requests (S (List.length (w_replies w))) [] None w)
    as (tokens & consumed & r & w' & E & H); [lia|].
  rewrite E. exists tokens, consumed. exact H.
Qed.

End Requests.








(** X9: every request of the orders pull asks for orders of any status, 250
    to a page, whether or not it carries a continuation token. *)
Theorem fetchAllOrders_asks_for_any_status (client : ShopifyClient) (w : World) :
  exists issued,
    w_requests (exec (fetchAllOrders client) w) = (w_requests w ++ issued)%list
    /\ issued <> []
    /\ Forall (fun rq =>
                 rq_client rq = client /\ rq_path rq = "orders"
                 /\ exists more,
                      rq_query rq = [("limit", "250"); ("status", "any")] ++ more
                      /\ (more = [] \/ exists p, more = [("page_info", p)]))
              issued.
Proof.
  unfold fetchAllOrders.
  destruct (paginateAll_accounting client "orders" "orders"
              [("status", VStr "any")] w) as (tokens & consumed & Hrq & _).
  eexists. split; [exact Hrq|]. split; [discriminate|].
  apply Forall_forall. intros rq Hin. apply in_map_iff in Hin as (pi & <- & _).
  split; [reflexivity|]. split; [reflexivity|].
  destruct pi as [p|].
  - exists [("page_info", p)]. split; [reflexivity | right; eauto].
  - exists []. split; [reflexivity | now left].
Qed.



(* ====================================================================== *)
(** ** The link header: what a match looks like *)

Section Consumes.
Import RegExp.
Variable i : bool.

Lemma consumes_star_cons (a : atom) (r : list item) (c : ascii) (u : list ascii) :
  accepts i a c = true -> consumes i (Star a :: r) u -> consumes i (Star a :: r) (c :: u).
Proof.
  intros Hc H. inversion H as [| |a' r' v u' Hv Hu| |]; subst.
  change (c :: v ++ u') with ((c :: v) ++ u'). constructor; [|assumption].
  now constructor.
Qed.

(** A match of [r1 ++ r2], [r1] without group delimiters, splits the input. *)
Lemma match_here_prefix (r1 r2 : list item) :
  plain r1 ->
  forall s opened captured res,
    match_here i (r1 ++ r2) s opened captured = Some res ->
    exists u s', s = (u ++ s')%list /\ consumes i r1 u
                 /\ match_here i r2 s' opened captured = Some res.
Proof.
  induction r1 as [|x r1 IH]; intros Hp.
  - intros s o c res H. exists [], s. split; [reflexivity|]. split; [constructor | exact H].
  - inversion Hp as [|? ? Hx Hr]; subst. specialize (IH Hr).
    destruct x as [a|a| |]; try contradiction; cbn [app match_here].
    + intros [|ch s] o c res H; [discriminate|].
      destruct (accepts i a ch) eqn:Ha; [|discriminate].
      apply IH in H as (u & s' & -> & Hu & H).
      exists (ch :: u), s'. split; [reflexivity|]. split; [now constructor | exact H].
    + intros s. induction s as [|ch s IHs]; intros o c res H.
      * apply IH in H as (u & s' & E & Hu & H).
        exists u, s'. split; [exact E|]. split; [|exact H].
        apply (consumes_star i a r1 [] u); [constructor | exact Hu].
      * assert (Hhere : match_here i (r1 ++ r2) (ch :: s) o c = Some res ->
                  exists u s', ch :: s = (u ++ s')%list /\ consumes i (Star a :: r1) u
                               /\ match_here i r2 s' o c = Some res).
        { intros H'. apply IH in H' as (u & s' & E & Hu & H').
          exists u, s'. split; [exact E|]. split; [|exact H'].
          apply (consumes_star i a r1 [] u); [constructor | exact Hu]. }
        destruct (accepts i a ch) eqn:Ha; [|now apply Hhere].
        match type of H with
        | match ?t with _ => _ end = _ => destruct t eqn:E
        end; [|now apply Hhere].
        injection H as <-. apply IHs in E as (u & s' & -> & Hu & E).
        exists (ch :: u), s'. split; [reflexivity|].
        split; [now apply consumes_star_cons | exact E].
Qed.

(** A match of a pattern with one group: the capture is the text the
    group's items matched. *)
Lemma match_here_group (r1 r2 r3 : list item) :
  plain r1 -> plain r2 -> plain r3 ->
  forall s opened captured res,
    match_here i (r1 ++ Open :: r2 ++ Close :: r3) s opened captured = Some res ->
    exists u1 u3 rest,
      s = (u1 ++ res ++ u3 ++ rest)%list
      /\ consumes i r1 u1 /\ consumes i r2 res /\ consumes i r3 u3.
Proof.
  intros H1 H2 H3 s o c res H.
  apply (match_here_prefix r1 _ H1) in H as (u1 & s1 & -> & Hu1 & H).
  cbn [match_here] in H.
  apply (match_here_prefix r2 _ H2) in H as (u2 & s2 & -> & Hu2 & H).
  cbn [match_here] in H.
  replace (List.length (u2 ++ s2) - List.length s2) with (List.length u2) in H
    by (rewrite length_app; lia).
  rewrite firstn_app, firstn_all, Nat.sub_diag, firstn_0, app_nil_r in H.
  rewrite <- (app_nil_r r3) in H.
  apply (match_here_prefix r3 _ H3) in H as (u3 & rest & -> & Hu3 & H).
  cbn [match_here] in H. injection H as <-.
  exists u1, u3, rest. split; [reflexivity|]. split; [assumption|]. split; assumption.
Qed.

Lemma search_finds (r : list item) (s res : list ascii) :
  search i r s = Some res ->
  exists before s', s = (before ++ s')%list /\ match_here i r s' [] [] = Some res.
Proof.
  induction s as [|c s IH]; cbn [search].
  - destruct (match_here i r [] [] []) eqn:E; [|discriminate].
    intros [= <-]. exists [], []. split; [reflexivity | exact E].
  - destruct (match_here i r (c :: s) [] []) eqn:E.
    + intros [= <-]. exists [], (c :: s). split; [reflexivity | exact E].
    + intros H. apply IH in H as (before & s' & -> & H).
      exists (c :: before), s'. split; [reflexivity | exact H].
Qed.
End Consumes.

Lemma list_ascii_app (a b : string) :
  list_ascii_of_string (a ++ b) = (list_ascii_of_string a ++ list_ascii_of_string b)%list.
Proof. induction a as [|c a IH]; [reflexivity|]. simpl. now rewrite IH. Qed.

Lemma string_of_app (a b : list ascii) :
  string_of_list_ascii (a ++ b)
  = (string_of_list_ascii a ++ string_of_list_ascii b)%string.
Proof. induction a as [|c a IH]; [reflexivity|]. simpl. now rewrite IH. Qed.

Lemma list_ascii_inj (a b : string) :
  list_ascii_of_string a = list_ascii_of_string b -> a = b.
Proof.
  intros H. rewrite <- (string_of_list_ascii_of_string a), H.
  apply string_of_list_ascii_of_string.
Qed.

(** Under the [i] flag a punctuation mark is matched by itself only. *)
Lemma lit_lt (c : ascii) : RegExp.accepts true (RegExp.Lit "<") c = true -> c = "<"%char.
Proof.
  destruct c as [[] [] [] [] [] [] [] []]; vm_compute; intros H;
    first [reflexivity | discriminate H].
Qed.

Lemma lit_gt (c : ascii) : RegExp.accepts true (RegExp.Lit ">") c = true -> c = ">"%char.
Proof.
  destruct c as [[] [] [] [] [] [] [] []]; vm_compute; intros H;
    first [reflexivity | discriminate H].
Qed.

Lemma lit_semicolon (c : ascii) :
  RegExp.accepts true (RegExp.Lit ";") c = true -> c = ";"%char.
Proof.
  destruct c as [[] [] [] [] [] [] [] []]; vm_compute; intros H;
    first [reflexivity | discriminate H].
Qed.

Lemma lit_upper (x c : ascii) :
  RegExp.accepts true (RegExp.Lit x) c = true -> RegExp.upper c = RegExp.upper x.
Proof. cbn. intros H. apply Ascii.eqb_eq in H. congruence. Qed.

Lemma in_set (c : ascii) :
  RegExp.accepts true (RegExp.In "?&") c = true -> c = "?"%char \/ c = "&"%char.
Proof.
  cbn. destruct (Ascii.eqb_spec c "?"); [now left|].
  destruct (Ascii.eqb_spec c "&"); [now right | discriminate].
Qed.

Lemma not_in_mem (cs : string) (v : list ascii) :
  Forall (fun c => RegExp.accepts true (RegExp.NotIn cs) c = true) v ->
  Forall (fun c => RegExp.mem c cs = false) v.
Proof.
  apply Forall_impl. intros c. unfold RegExp.accepts.
  destruct (RegExp.mem c cs); [discriminate | reflexivity].
Qed.

Ltac invert_consumes :=
  repeat match goal with
         | H : consumes _ (_ :: _) _ |- _ => inversion H; subst; clear H
         | H : consumes _ [] _ |- _ => inversion H; subst; clear H
         end.

(** What the input looks like where the pattern matches. *)
Lemma match_shape (s res : list ascii) :
  RegExp.match_here true next_link_pattern s [] [] = Some res ->
  exists head sep key tail sp rel rest,
    s = ("<"%char :: head ++ sep :: key ++ res ++ tail
         ++ ">"%char :: ";"%char :: sp ++ rel ++ rest)%list
    /\ Forall (fun c => RegExp.mem c ">" = false) head
    /\ (sep = "?"%char \/ sep = "&"%char)
    /\ map RegExp.upper key = map RegExp.upper (list_ascii_of_string "page_info=")
    /\ res <> []
    /\ Forall (fun c => RegExp.mem c "&>" = false) res
    /\ Forall (fun c => RegExp.mem c ">" = false) tail
    /\ Forall (fun c => RegExp.is_space c = true) sp
    /\ map RegExp.upper rel = map RegExp.upper (list_ascii_of_string rel_next).
Proof.
  intros E.
  change next_link_pattern with
    ((RegExp.lits "<"
      ++ [RegExp.Star (RegExp.NotIn ">"); RegExp.One (RegExp.In "?&")]
      ++ RegExp.lits "page_info=")
     ++ RegExp.Open :: RegExp.plus (RegExp.NotIn "&>")
     ++ RegExp.Close
        :: ([RegExp.Star (RegExp.NotIn ">")] ++ RegExp.lits ">;"
            ++ [RegExp.Star RegExp.Space] ++ RegExp.lits "rel="
            ++ [RegExp.One (RegExp.Lit dquote)] ++ RegExp.lits "next"
            ++ [RegExp.One (RegExp.Lit dquote)]))%list in E.
  apply match_here_group in E as (u1 & u3 & rest & -> & H1 & H2 & H3);
    try (unfold RegExp.plain; repeat constructor).
  cbn in H1, H3. unfold RegExp.plus in H2. invert_consumes.
  repeat match goal with
         | H : RegExp.accepts true (RegExp.Lit "<") _ = true |- _ =>
             apply lit_lt in H; subst
         | H : RegExp.accepts true (RegExp.Lit ">") _ = true |- _ =>
             apply lit_gt in H; subst
         | H : RegExp.accepts true (RegExp.Lit ";") _ = true |- _ =>
             apply lit_semicolon in H; subst
         | H : RegExp.accepts true (RegExp.Lit _) _ = true |- _ =>
             apply lit_upper in H
         | H : RegExp.accepts true (RegExp.In _) _ = true |- _ =>
             apply in_set in H
         | H : Forall (fun c => RegExp.accepts true (RegExp.NotIn _) c = true) _ |- _ =>
             apply not_in_mem in H
         | H : RegExp.accepts true (RegExp.NotIn _) _ = true |- _ =>
             apply negb_true_iff in H
         end.
  rewrite !app_nil_r in *.
  match goal with
  | |- context [(("<"%char :: ?head ++ ?sep :: ?key) ++ (?t0 :: ?t)
                 ++ (?tail ++ ">"%char :: ";"%char :: ?sp ++ ?rel) ++ rest)%list] =>
      exists head, sep, key, tail, sp, rel, rest
  end.
  split; [repeat (rewrite <- ?app_assoc; cbn [app]); reflexivity|].
  split; [assumption|]. split; [assumption|].
  split; [cbn; congruence|].
  split; [discriminate|].
  split; [constructor; assumption|].
  split; [assumption|].
  split; [assumption|].
  unfold rel_next. cbn. congruence.
Qed.

(** X10: a token [extractNextPageInfo] returns was found in the header as
    the pattern says: inside an entry in angle brackets, after a [?] or [&]
    and the parameter name [page_info=], running up to the next [&] or the
    closing bracket, the bracket followed by [;], optional blanks and
    [rel="next"] (names in any case). The token is not empty and has no
    [&] and no [>]. *)
Theorem extractNextPageInfo_sound (linkHeader tok : string) :
  extractNextPageInfo (Some linkHeader) = Some tok ->
  exists before head sep key tail spaces rel after_,
    linkHeader
    = (before ++ "<" ++ head
       ++ String sep (key ++ tok ++ tail ++ ">;" ++ spaces ++ rel ++ after_))%string
    /\ free_of ">" head
    /\ (sep = "?"%char \/ sep = "&"%char)
    /\ same_letters "page_info=" key
    /\ tok <> "" /\ free_of "&>" tok
    /\ free_of ">" tail
    /\ blank spaces
    /\ same_letters rel_next rel.
Proof.
  unfold extractNextPageInfo.
  destruct (String.eqb linkHeader ""); [discriminate|].
  destruct (RegExp.search _ _ _) as [cap|] eqn:E; [|discriminate].
  intros [= <-].
  apply search_finds in E as (before & s & Hs & E).
  apply match_shape in E
    as (head & sep & key & tail & sp & rel & rest & -> & Hh & Hsep & Hk & Hne & Hc
        & Ht & Hsp & Hrel).
  exists (string_of_list_ascii before), (string_of_list_ascii head), sep,
    (string_of_list_ascii key), (string_of_list_ascii tail),
    (string_of_list_ascii sp), (string_of_list_ascii rel),
    (string_of_list_ascii rest).
  unfold free_of, same_letters, blank.
  rewrite !list_ascii_of_string_of_list_ascii.
  split.
  { apply list_ascii_inj. rewrite Hs.
    repeat (rewrite ?list_ascii_app, ?list_ascii_of_string_of_list_ascii;
            cbn [list_ascii_of_string]).
    repeat (rewrite <- ?app_assoc; cbn [app]). reflexivity. }
  repeat (split; [assumption|]).
  split; [destruct cap; [contradiction | discriminate]|].
  repeat (split; [assumption|]). assumption.
Qed.

Lemma extractNextPageInfo_sound_witness :
  exists before head sep key tail spaces rel after_,
    PageFixtures.link_to "tokA"
    = (before ++ "<" ++ head
       ++ String sep (key ++ "tokA" ++ tail ++ ">;" ++ spaces ++ rel ++ after_))%string
    /\ free_of ">" head
    /\ (sep = "?"%char \/ sep = "&"%char)
    /\ same_letters "page_info=" key
    /\ "tokA" <> "" /\ free_of "&>" "tokA"
    /\ free_of ">" tail
    /\ blank spaces
    /\ same_letters rel_next rel.
Proof.
  apply (extractNextPageInfo_sound (PageFixtures.link_to "tokA") "tokA").
  vm_compute. reflexivity.
Defined.

(* ====================================================================== *)
(** ** The link header: entries the remote API writes *)

Section Greedy.
Import RegExp.
Variable i : bool.

(** A star that can take all of [u] and then meets a character it does
    not accept hands over there, if the rest of the pattern matches. *)
Lemma star_takes_all (a : atom) (r : list item) (u s : list ascii) :
  Forall (fun ch => accepts i a ch = true) u ->
  match s with [] => True | ch :: _ => accepts i a ch = false end ->
  forall opened captured res,
    match_here i r s opened captured = Some res ->
    match_here i (Star a :: r) (u ++ s) opened captured = Some res.
Proof.
  intros Hu Hs o c res H. induction Hu as [|ch u Hch Hu IH].
  - destruct s as [|ch s]; cbn [app match_here]; [exact H|]. now rewrite Hs.
  - cbn [app match_here] in IH |- *. rewrite Hch, IH. reflexivity.
Qed.

(** A star followed by a single character [b]: among the places where the
    star could stop, the last one followed by a [b] is tried first. *)
Lemma star_backs_up (a b : atom) (r : list item) (u v s : list ascii) (x : ascii) :
  Forall (fun ch => accepts i a ch = true) u ->
  accepts i a x = true ->
  Forall (fun ch => accepts i a ch = true /\ accepts i b ch = false) v ->
  match s with
  | [] => True
  | ch :: _ => accepts i a ch = false /\ accepts i b ch = false
  end ->
  forall opened captured res,
    match_here i (One b :: r) (x :: v ++ s) opened captured = Some res ->
    match_here i (Star a :: One b :: r) (u ++ x :: v ++ s) opened captured = Some res.
Proof.
  intros Hu Hx Hv Hs o c res H.
  assert (Hnone : match_here i (Star a :: One b :: r) (v ++ s) o c = None).
  { clear H. induction Hv as [|ch v [Ha Hb] Hv IH].
    - destruct s as [|ch s]; cbn [app match_here]; [reflexivity|].
      destruct Hs as [-> ->]. reflexivity.
    - cbn [app match_here] in IH |- *. rewrite Ha, IH, Hb. reflexivity. }
  induction Hu as [|ch u Hch Hu IH].
  - cbn [app match_here] in Hnone |- *. rewrite Hx, Hnone. exact H.
  - cbn [app match_here] in IH |- *. rewrite Hch, IH. reflexivity.
Qed.

(** Where the first item is a literal that the input does not start
    with, the search moves on. *)
Lemma search_skips (a : atom) (r : list item) (l s : list ascii) :
  Forall (fun ch => accepts i a ch = false) l ->
  search i (One a :: r) (l ++ s) = search i (One a :: r) s.
Proof.
  intros Hl. induction Hl as [|ch l Hch Hl IH]; [reflexivity|].
  cbn [app search match_here]. rewrite Hch. exact IH.
Qed.
End Greedy.

Lemma free_of_weaken (cs cs' s : string) :
  (forall c, RegExp.mem c cs' = false -> RegExp.mem c cs = false) ->
  free_of cs' s -> free_of cs s.
Proof. intros H. unfold free_of. apply Forall_impl. exact H. Qed.

Lemma mem_app_false (c : ascii) (a b : string) :
  RegExp.mem c (a ++ b) = false <-> RegExp.mem c a = false /\ RegExp.mem c b = false.
Proof.
  unfold RegExp.mem. rewrite list_ascii_app, existsb_app. apply orb_false_iff.
Qed.

(** What follows the token in an entry for the next page. *)
Lemma entry_tail_matches (rest opened captured : list ascii) :
  RegExp.match_here true
    ([RegExp.Star (RegExp.NotIn ">")] ++ RegExp.lits ">;"
     ++ [RegExp.Star RegExp.Space] ++ RegExp.lits "rel="
     ++ [RegExp.One (RegExp.Lit dquote)] ++ RegExp.lits "next"
     ++ [RegExp.One (RegExp.Lit dquote)])
    (list_ascii_of_string (">; " ++ rel_next) ++ rest) opened captured
  = Some captured.
Proof. reflexivity. Qed.

Lemma match_one (a : RegExp.atom) (r : list RegExp.item) (c : ascii)
  (s opened captured : list ascii) :
  RegExp.accepts true a c = true ->
  RegExp.match_here true (RegExp.One a :: r) (c :: s) opened captured
  = RegExp.match_here true r s opened captured.
Proof. intros H. cbn [RegExp.match_here]. now rewrite H. Qed.

Lemma match_open (r : list RegExp.item) (s opened captured : list ascii) :
  RegExp.match_here true (RegExp.Open :: r) s opened captured
  = RegExp.match_here true r s s captured.
Proof. reflexivity. Qed.

Lemma match_close (r : list RegExp.item) (s opened captured : list ascii) :
  RegExp.match_here true (RegExp.Close :: r) s opened captured
  = RegExp.match_here true r s opened
      (firstn (List.length opened - List.length s) opened).
Proof. reflexivity. Qed.

Lemma three_sets (c : ascii) :
  RegExp.mem c "?&>" = false ->
  RegExp.mem c "?&" = false /\ RegExp.mem c "&>" = false /\ RegExp.mem c ">" = false.
Proof.
  unfold RegExp.mem. cbn [list_ascii_of_string existsb].
  destruct (Ascii.eqb c "?"), (Ascii.eqb c "&"), (Ascii.eqb c ">");
    cbn; intros H; try discriminate H; repeat split.
Qed.

(** The pattern matches an entry for the next page where it starts, and
    captures its token. *)
Lemma entry_matches (address tok : string) (sep : ascii) (rest : list ascii) :
  free_of ">" address ->
  sep = "?"%char \/ sep = "&"%char ->
  tok <> "" ->
  free_of "?&>" tok ->
  RegExp.match_here true next_link_pattern
    (list_ascii_of_string (link_entry address sep tok rel_next) ++ rest) [] []
  = Some (list_ascii_of_string tok).
Proof.
  intros Ha Hsep Hne Htok.
  destruct tok as [|t0 tok]; [contradiction|]. clear Hne.
  unfold free_of in Ha, Htok. cbn [list_ascii_of_string] in Htok.
  inversion Htok as [|? ? Ht0 Htok']; subst.
  apply three_sets in Ht0 as (Ht1 & Ht2 & Ht3).
  assert (Hsep' : RegExp.accepts true (RegExp.NotIn ">") sep = true
                  /\ RegExp.accepts true (RegExp.In "?&") sep = true)
    by (destruct Hsep as [-> | ->]; split; reflexivity).
  destruct Hsep' as [Hs1 Hs2].
  set (tailpat := ([RegExp.Star (RegExp.NotIn ">")] ++ RegExp.lits ">;"
                   ++ [RegExp.Star RegExp.Space] ++ RegExp.lits "rel="
                   ++ [RegExp.One (RegExp.Lit dquote)] ++ RegExp.lits "next"
                   ++ [RegExp.One (RegExp.Lit dquote)])%list).
  set (tail := (list_ascii_of_string (">; " ++ rel_next) ++ rest)%list).
  assert (Htail : forall o c, RegExp.match_here true tailpat tail o c = Some c)
    by (intros; apply entry_tail_matches).
  assert (Htl : match tail with
                | [] => True
                | ch :: _ => RegExp.accepts true (RegExp.NotIn ">") ch = false
                             /\ RegExp.accepts true (RegExp.In "?&") ch = false
                             /\ RegExp.accepts true (RegExp.NotIn "&>") ch = false
                end) by (subst tail; repeat split).
  change next_link_pattern with
    (RegExp.One (RegExp.Lit "<") :: RegExp.Star (RegExp.NotIn ">")
     :: RegExp.One (RegExp.In "?&")
     :: (RegExp.lits "page_info="
         ++ RegExp.Open :: RegExp.One (RegExp.NotIn "&>")
         :: RegExp.Star (RegExp.NotIn "&>") :: RegExp.Close :: tailpat))%list.
  replace (list_ascii_of_string (link_entry address sep (String t0 tok) rel_next)
           ++ rest)%list
    with ("<"%char
          :: list_ascii_of_string address
             ++ sep :: (list_ascii_of_string "page_info="
                        ++ t0 :: list_ascii_of_string tok) ++ tail)%list.
  2:{ unfold link_entry, tail.
      repeat (rewrite ?list_ascii_app; cbn [list_ascii_of_string append]).
      repeat (rewrite <- ?app_assoc; cbn [app]). reflexivity. }
  clearbody tail tailpat.
  rewrite match_one by reflexivity.
  apply star_backs_up.
  - revert Ha. apply Forall_impl. intros c Hc. unfold RegExp.accepts. now rewrite Hc.
  - exact Hs1.
  - apply Forall_app. split.
    + repeat constructor.
    + constructor.
      * unfold RegExp.accepts. now rewrite Ht1, Ht3.
      * revert Htok'. apply Forall_impl. intros c Hc.
        apply three_sets in Hc as (H1 & _ & H3). unfold RegExp.accepts.
        now rewrite H1, H3.
  - destruct tail as [|ch tail]; [exact I | tauto].
  - rewrite match_one by exact Hs2.
    cbn [RegExp.lits map list_ascii_of_string app].
    rewrite !match_one by reflexivity.
    rewrite match_open.
    rewrite match_one by (unfold RegExp.accepts; now rewrite Ht2).
    apply star_takes_all.
    + revert Htok'. apply Forall_impl. intros c Hc.
      apply three_sets in Hc as (_ & H2 & _). unfold RegExp.accepts. now rewrite H2.
    + destruct tail as [|ch tail]; [exact I | tauto].
    + rewrite match_close.
      replace (List.length (t0 :: list_ascii_of_string tok ++ tail) - List.length tail)
        with (List.length (t0 :: list_ascii_of_string tok))
        by (cbn [List.length]; rewrite length_app; lia).
      change (t0 :: list_ascii_of_string tok ++ tail)%list
        with ((t0 :: list_ascii_of_string tok) ++ tail)%list.
      rewrite firstn_app, firstn_all, Nat.sub_diag, firstn_0, app_nil_r.
      apply Htail.
Qed.

Lemma search_here (r : list RegExp.item) (s res : list ascii) :
  RegExp.match_here true r s [] [] = Some res -> RegExp.search true r s = Some res.
Proof. intros H. destruct s; cbn [RegExp.search]; now rewrite H. Qed.

(** X11: from a header that starts with an entry for the next page as the
    remote API writes it (the address in angle brackets with the page token
    as its last parameter, then [; rel="next"]), [extractNextPageInfo]
    returns exactly that token, whatever follows the entry. The address
    must not contain [>], and the token none of [?], [&] and [>]. *)
Theorem extractNextPageInfo_finds_token
  (address tok rest : string) (sep : ascii) :
  free_of ">" address ->
  sep = "?"%char \/ sep = "&"%char ->
  tok <> "" ->
  free_of "?&>" tok ->
  extractNextPageInfo (Some (link_entry address sep tok rel_next ++ rest)%string)
  = Some tok.
Proof.
  intros Ha Hsep Hne Htok. unfold extractNextPageInfo.
  replace (String.eqb _ "") with false by reflexivity.
  rewrite list_ascii_app.
  rewrite (search_here _ _ _ (entry_matches address tok sep _ Ha Hsep Hne Htok)).
  now rewrite string_of_list_ascii_of_string.
Qed.

Lemma first_bracket (l1 l2 r1 r2 : list ascii) :
  Forall (fun c => RegExp.mem c ">" = false) l1 ->
  Forall (fun c => RegExp.mem c ">" = false) l2 ->
  (l1 ++ ">"%char :: r1 = l2 ++ ">"%char :: r2)%list ->
  l1 = l2 /\ r1 = r2.
Proof.
  intros H1. revert l2. induction H1 as [|c l1 Hc H1 IH]; intros l2 H2 E.
  - destruct H2 as [|d l2 Hd H2]; cbn in E.
    + injection E as <-. split; reflexivity.
    + injection E as <- _. discriminate Hd.
  - destruct H2 as [|d l2 Hd H2]; cbn in E.
    + injection E as -> _. discriminate Hc.
    + injection E as <- E. destruct (IH l2 H2 E) as [-> ->]. split; reflexivity.
Qed.

Lemma upper_not_bracket (x c : ascii) :
  RegExp.upper c = RegExp.upper x -> RegExp.mem (RegExp.upper x) ">" = false ->
  RegExp.upper ">" = ">"%char -> RegExp.mem c ">" = false.
Proof.
  intros E Hx _. unfold RegExp.mem in *. cbn [list_ascii_of_string existsb] in *.
  rewrite orb_false_r in *. destruct (Ascii.eqb_spec c ">") as [->|]; [|reflexivity].
  rewrite <- E in Hx. exact Hx.
Qed.

(** An entry for the previous page is not taken for one for the next. *)
Lemma previous_entry_rejected (body rest : list ascii) :
  Forall (fun c => RegExp.mem c ">" = false) body ->
  RegExp.match_here true next_link_pattern
    ("<"%char :: body ++ list_ascii_of_string (">; " ++ rel_previous) ++ rest) [] []
  = None.
Proof.
  intros Hb.
  destruct (RegExp.match_here _ _ _ _ _) as [res|] eqn:E; [exfalso | reflexivity].
  apply match_shape in E
    as (head & sep & key & tail & sp & rel & rest' & Hs & Hh & Hsep & Hk & Hne & Hc
        & Ht & Hsp & Hrel).
  injection Hs as Hs.
  assert (Hmid : Forall (fun c => RegExp.mem c ">" = false)
                   (head ++ sep :: key ++ res ++ tail)).
  { apply Forall_app. split; [assumption|]. constructor.
    { destruct Hsep as [-> | ->]; reflexivity. }
    apply Forall_app. split.
    { do 11 (destruct key as [|? key]; try discriminate Hk).
      cbn in Hk. injection Hk as K0 K1 K2 K3 K4 K5 K6 K7 K8 K9.
      repeat constructor;
        match goal with
        | |- RegExp.mem ?c _ = false =>
            match goal with
            | K : RegExp.upper c = _ |- _ =>
                apply (upper_not_bracket _ c K); reflexivity
            end
        end. }
    apply Forall_app. split; [|assumption].
    revert Hc. apply Forall_impl. intros c. unfold RegExp.mem.
    cbn [list_ascii_of_string existsb]. now destruct (Ascii.eqb c "&"), (Ascii.eqb c ">"). }
  replace (head ++ sep :: key ++ res ++ tail ++ ">"%char :: ";"%char :: sp ++ rel ++ rest')%list
    with ((head ++ sep :: key ++ res ++ tail) ++ ">"%char :: ";"%char :: sp ++ rel ++ rest')%list
    in Hs
    by (repeat (rewrite <- ?app_assoc; cbn [app]); reflexivity).
  cbn [list_ascii_of_string append app] in Hs.
  change (body ++ ">"%char :: ?x)%list with (body ++ ">"%char :: x)%list in Hs.
  apply first_bracket in Hs as [_ Hs]; try assumption.
  injection Hs as Hs.
  unfold rel_next in Hrel. cbn in Hrel.
  do 11 (destruct rel as [|? rel]; try discriminate Hrel).
  injection Hrel as R0 R1 R2 R3 R4 R5 R6 R7 R8 R9.
  destruct Hsp as [|x sp Hx Hsp]; cbn [app] in Hs.
  { unfold rel_previous in Hs. cbn in Hs. injection Hs as <-. discriminate R0. }
  injection Hs as _ Hs.
  destruct Hsp as [|y sp Hy Hsp]; cbn [app] in Hs.
  { unfold rel_previous in Hs. cbn in Hs.
    injection Hs as _ _ _ _ _ E5. subst. discriminate R5. }
  unfold rel_previous in Hs. cbn in Hs. injection Hs as <-. discriminate Hy.
Qed.

(** The leftmost match of the pattern passes over the entry of the previous
    page and is the entry of the next page behind it. *)
Lemma search_behind_previous
  (address1 tok1 address2 tok2 rest : string) (sep1 sep2 : ascii) :
  free_of "<>" address1 -> free_of "<>" tok1 ->
  sep1 = "?"%char \/ sep1 = "&"%char ->
  free_of ">" address2 ->
  sep2 = "?"%char \/ sep2 = "&"%char ->
  tok2 <> "" ->
  free_of "?&>" tok2 ->
  RegExp.search true next_link_pattern
    (list_ascii_of_string
       (link_entry address1 sep1 tok1 rel_previous ++ ", "
        ++ link_entry address2 sep2 tok2 rel_next ++ rest)%string)
  = Some (list_ascii_of_string tok2).
Proof.
  intros Ha1 Ht1 Hs1 Ha2 Hs2 Hne Ht2.
  set (body := (list_ascii_of_string address1
                ++ sep1 :: list_ascii_of_string "page_info="
                ++ list_ascii_of_string tok1)%list).
  set (entry2 := (list_ascii_of_string (link_entry address2 sep2 tok2 rel_next)
                  ++ list_ascii_of_string rest)%list).
  replace (list_ascii_of_string
             (link_entry address1 sep1 tok1 rel_previous ++ ", "
              ++ link_entry address2 sep2 tok2 rel_next ++ rest)%string)
    with ("<"%char :: body ++ list_ascii_of_string (">; " ++ rel_previous)
                 ++ (list_ascii_of_string ", " ++ entry2))%list.
  2:{ unfold link_entry at 1, body, entry2.
      repeat (rewrite ?list_ascii_app; cbn [list_ascii_of_string append]).
      repeat (rewrite <- ?app_assoc; cbn [app]). reflexivity. }
  assert (Hsplit : forall c, RegExp.mem c "<>" = false ->
            RegExp.mem c "<" = false /\ RegExp.mem c ">" = false).
  { intros c. unfold RegExp.mem. cbn [list_ascii_of_string existsb].
    destruct (Ascii.eqb c "<"), (Ascii.eqb c ">"); cbn; intros H;
      try discriminate H; split; reflexivity. }
  assert (Hbody : Forall (fun c => RegExp.mem c "<>" = false) body).
  { subst body. apply Forall_app. split; [exact Ha1|]. constructor.
    { destruct Hs1 as [-> | ->]; reflexivity. }
    apply Forall_app. split; [repeat constructor | exact Ht1]. }
  cbn [RegExp.search].
  rewrite previous_entry_rejected
    by (revert Hbody; apply Forall_impl; intros c Hc; now apply Hsplit in Hc).
  change next_link_pattern with
    (RegExp.One (RegExp.Lit "<") :: tl next_link_pattern).
  clearbody body.
  replace (body ++ list_ascii_of_string (">; " ++ rel_previous)
           ++ list_ascii_of_string ", " ++ entry2)%list
    with ((body ++ list_ascii_of_string (">; " ++ rel_previous)
           ++ list_ascii_of_string ", ") ++ entry2)%list
    by (now rewrite <- !app_assoc).
  rewrite search_skips.
  - change (RegExp.One (RegExp.Lit "<") :: tl next_link_pattern) with next_link_pattern.
    subst entry2.
    exact (search_here _ _ _ (entry_matches address2 tok2 sep2 _ Ha2 Hs2 Hne Ht2)).
  - assert (Hlit : forall c, RegExp.mem c "<" = false ->
              RegExp.accepts true (RegExp.Lit "<") c = false).
    { intros c Hc. destruct (RegExp.accepts true (RegExp.Lit "<") c) eqn:E;
        [|reflexivity]. apply lit_lt in E. subst c. discriminate Hc. }
    repeat (apply Forall_app; split).
    + revert Hbody. apply Forall_impl. intros c Hc. apply Hlit. now apply Hsplit in Hc.
    + unfold rel_previous. repeat constructor.
    + repeat constructor.
Qed.

(** X12: from a header that lists the previous page first and the next page
    second, as the remote API writes it for a page in the middle,
    [extractNextPageInfo] returns the token of the next page, not that of
    the previous one. *)
Theorem extractNextPageInfo_skips_previous_entry
  (address1 tok1 address2 tok2 rest : string) (sep1 sep2 : ascii) :
  free_of "<>" address1 -> free_of "<>" tok1 ->
  sep1 = "?"%char \/ sep1 = "&"%char ->
  free_of ">" address2 ->
  sep2 = "?"%char \/ sep2 = "&"%char ->
  tok2 <> "" ->
  free_of "?&>" tok2 ->
  extractNextPageInfo
    (Some (link_entry address1 sep1 tok1 rel_previous ++ ", "
           ++ link_entry address2 sep2 tok2 rel_next ++ rest)%string)
  = Some tok2.
Proof.
  intros Ha1 Ht1 Hs1 Ha2 Hs2 Hne Ht2. unfold extractNextPageInfo.
  replace (String.eqb _ "") with false by reflexivity.
  rewrite (search_behind_previous address1 tok1 address2 tok2 rest sep1 sep2)
    by assumption.
  now rewrite string_of_list_ascii_of_string.
Qed.

Lemma extractNextPageInfo_finds_token_witness :
  extractNextPageInfo
    (Some (link_entry Samples.products_address "&" "tokA" rel_next ++ "")%string)
  = Some "tokA".
Proof.
  apply (extractNextPageInfo_finds_token Samples.products_address "tokA" "" "&"%char).
  - unfold free_of. vm_compute. repeat constructor.
  - now right.
  - discriminate.
  - unfold free_of. vm_compute. repeat constructor.
Defined.

Lemma extractNextPageInfo_skips_previous_entry_witness :
  extractNextPageInfo
    (Some (link_entry Samples.products_address "&" "tok0" rel_previous ++ ", "
           ++ link_entry Samples.products_address "&" "tokB" rel_next ++ "")%string)
  = Some "tokB".
Proof.
  apply (extractNextPageInfo_skips_previous_entry Samples.products_address "tok0"
           Samples.products_address "tokB" "" "&"%char "&"%char).
  - unfold free_of. vm_compute. repeat constructor.
  - unfold free_of. vm_compute. repeat constructor.
  - now right.
  - unfold free_of. vm_compute. repeat constructor.
  - now right.
  - discriminate.
  - unfold free_of. vm_compute. repeat constructor.
Defined.

(* ====================================================================== *)
(** ** Pagination over the link headers of the remote API *)











(* ====================================================================== *)
(** ** Nothing is ever removed *)

Lemma kept_refl (db : Store) : kept db db.
Proof. split; [apply extends_refl | reflexivity]. Qed.

Lemma kept_trans (a b c : Store) : kept a b -> kept b c -> kept a c.
Proof.
  intros [H1 H2] [K1 K2]. split; [eapply extends_trans; eassumption | congruence].
Qed.

Lemma advances_refl (w : World) : advances w w.
Proof. split; [apply kept_refl | exists []; now rewrite app_nil_r]. Qed.

Lemma advances_trans (a b c : World) : advances a b -> advances b c -> advances a c.
Proof.
  intros [H1 [l1 H2]] [K1 [l2 K2]]. split; [eapply kept_trans; eassumption|].
  exists (l1 ++ l2)%list. now rewrite K2, H2, app_assoc.
Qed.

Lemma advances_same (w w' : World) :
  w_db w' = w_db w -> w_console w' = w_console w -> advances w w'.
Proof.
  intros Hd Hc. split; [rewrite Hd; apply kept_refl|].
  exists []. now rewrite app_nil_r.
Qed.

Section AppendOnly.

Lemma append_only_ret {A} (a : A) : append_only (ret a).
Proof. intros w. apply advances_refl. Qed.

Lemma append_only_throw {A} (e : Error) : append_only (throw (A := A) e).
Proof. intros w. apply advances_refl. Qed.

Lemma append_only_lift {A} (o : outcome A) : append_only (lift o).
Proof. intros w. apply advances_refl. Qed.

Lemma append_only_console (l : level) (msg : string) : append_only (console l msg).
Proof. intros w. split; [apply kept_refl | exists [(l, msg)]; reflexivity]. Qed.

Lemma append_only_get_prop (k : string) (v : value) : append_only (get_prop k v).
Proof. intros w. unfold get_prop. destruct (nullish v); apply advances_refl. Qed.

Lemma append_only_bind {A B} (m : M A) (k : A -> M B) :
  append_only m -> (forall a, append_only (k a)) -> append_only (bind m k).
Proof.
  intros Hm Hk w. specialize (Hm w). unfold exec, bind in *.
  destruct (m w) as [[a|e] w1]; cbn [snd] in *; [|exact Hm].
  eapply advances_trans; [exact Hm | apply Hk].
Qed.

Lemma append_only_try {A} (m : M A) (h : Error -> M A) :
  append_only m -> (forall e, append_only (h e)) -> append_only (try_catch m h).
Proof.
  intros Hm Hh w. specialize (Hm w). unfold exec, try_catch in *.
  destruct (m w) as [[a|e] w1]; cbn [snd] in *; [exact Hm|].
  eapply advances_trans; [exact Hm | apply Hh].
Qed.

Lemma append_only_for_of {A S} (xs : list A) (body : S -> A -> M S) :
  (forall acc x, append_only (body acc x)) -> forall acc, append_only (for_of xs body acc).
Proof.
  intros Hb. induction xs as [|x xs IH]; intros acc; cbn [for_of].
  - apply append_only_ret.
  - apply append_only_bind; [apply Hb | exact IH].
Qed.

Lemma append_only_storage {A} (tx : Store -> outcome (A * Store)) :
  (forall db a db', tx db = Ok (a, db') -> kept db db') ->
  append_only (prisma.storage_call tx).
Proof.
  intros H w. unfold exec, prisma.storage_call.
  assert (Hc : exists lines, w_console w = (w_console w ++ lines)%list)
    by (exists []; now rewrite app_nil_r).
  destruct (w_faults w) as [|[|] fs]; cbn [snd];
    try (split; [apply kept_refl | exact Hc]);
    (destruct (tx (w_db w)) as [[a db']|e] eqn:E; cbn [snd];
     (split; [cbn [w_db]; first [eapply H; exact E | apply kept_refl] | exact Hc])).
Qed.

Lemma append_only_query {A} (f : Store -> A) :
  append_only (prisma.storage_call (fun db => Ok (f db, db))).
Proof. apply append_only_storage. intros db a db' [= _ <-]. apply kept_refl. Qed.

Lemma append_only_customer_upsert k u c :
  append_only (prisma.customer.upsert k u (k, c)).
Proof.
  apply append_only_storage. intros db a db' H. split.
  - eapply customer_upsert_extends; exact H.
  - exact (upsert_tx_tenants (model := prisma.customer.model) _ _ _ _ _ _ H).
Qed.

Lemma append_only_product_upsert k u c :
  append_only (prisma.product.upsert k u (k, c)).
Proof.
  apply append_only_storage. intros db a db' H. split.
  - eapply product_upsert_extends; exact H.
  - exact (upsert_tx_tenants (model := prisma.product.model) _ _ _ _ _ _ H).
Qed.

Lemma append_only_order_upsert k u c :
  append_only (prisma.order.upsert k u (k, c)).
Proof.
  apply append_only_storage. intros db a db' H. split.
  - eapply order_upsert_extends; exact H.
  - exact (upsert_tx_tenants (model := prisma.order.model) _ _ _ _ _ _ H).
Qed.

Lemma append_only_customer_findFirst k : append_only (prisma.customer.findFirst k).
Proof. apply append_only_query. Qed.

Lemma append_only_customer_findMany f n : append_only (prisma.customer.findMany f n).
Proof. apply append_only_query. Qed.

Lemma append_only_customer_update id data : append_only (prisma.customer.update id data).
Proof.
  apply append_only_storage. intros db a db'.
  destruct (prisma.validate data) as [p|e]; [|discriminate].
  intros H. apply update_tx_inv in H as (old & _ & _ & _ & ->). split.
  - apply extends_customers. exists []. rewrite app_nil_r.
    apply map_update_first, apply_ident.
  - reflexivity.
Qed.

Lemma append_only_customer_create k data :
  append_only (prisma.customer.create (k, data)).
Proof.
  apply append_only_storage. intros db a db'. cbn [fst snd].
  destruct (prisma.validate data) as [p|e]; [|discriminate].
  intros H. apply insert_tx_inv in H as (_ & _ & _ & ->). split.
  - apply extends_customers. exists [ident a]. now rewrite map_app.
  - reflexivity.
Qed.

Lemma append_only_tenant_by_id id : append_only (prisma.tenant.findUnique_id id).
Proof. apply append_only_query. Qed.

Lemma append_only_tenant_by_shop s : append_only (prisma.tenant.findUnique_shop s).
Proof. apply append_only_query. Qed.

Lemma append_only_paginateAll client path rootKey extraQuery :
  append_only (paginateAll client path rootKey extraQuery).
Proof.
  intros w.
  destruct (paginateAll_accounting client path rootKey extraQuery w)
    as (tokens & consumed & _ & _ & _ & Hd & _ & Hc & _).
  now apply advances_same.
Qed.

Lemma append_only_verifyHmac rawBody hmacHeader secret :
  append_only (verifyHmac rawBody hmacHeader secret).
Proof.
  intros w.
  destruct (verifyHmac_outcome rawBody hmacHeader secret w)
    as (b & _ & (Hd & _ & _ & _ & Hc) & _).
  split; [rewrite Hd; apply kept_refl | exact Hc].
Qed.
End AppendOnly.

Create HintDb append_only.

#[local] Hint Resolve append_only_ret append_only_throw append_only_lift
  append_only_console append_only_get_prop append_only_customer_upsert
  append_only_product_upsert append_only_order_upsert append_only_customer_findFirst
  append_only_customer_findMany append_only_customer_update
  append_only_customer_create append_only_tenant_by_id append_only_tenant_by_shop
  append_only_paginateAll append_only_verifyHmac append_only_query
  : append_only.

(** Walk down a program built from the monad's combinators. *)
Ltac only_appends :=
  repeat first
    [ progress cbv zeta
    | apply append_only_bind; [|intros ?]
    | apply append_only_try; [|intros ?]
    | apply append_only_for_of; intros ? ?
    | solve [auto with append_only]
    | match goal with
      | |- append_only (match ?x with _ => _ end) => destruct x
      | |- append_only (if ?b then _ else _) => destruct b
      end ].

Lemma append_only_sync_product T n p : append_only (sync_product T n p).
Proof. unfold sync_product. only_appends. Qed.

Lemma append_only_sync_customer T n c : append_only (sync_customer T n c).
Proof. unfold sync_customer. only_appends. Qed.

Lemma append_only_sync_order T n o : append_only (sync_order T n o).
Proof. unfold sync_order. only_appends. Qed.

Lemma append_only_backfill_row client n row : append_only (backfill_row client n row).
Proof.
  unfold backfill_row, backfill_apply, fetchShopifyCustomerById. only_appends.
Qed.

Lemma append_only_fullSync (tenantId : string) : append_only (fullSync tenantId).
Proof.
  unfold fullSync, fetchAllProducts, fetchAllCustomers, fetchAllOrders.
  pose proof append_only_sync_product. pose proof append_only_sync_customer.
  pose proof append_only_sync_order. pose proof append_only_backfill_row.
  only_appends.
Qed.

Lemma append_only_processWebhookPayload topic shop_ payload :
  append_only (processWebhookPayload topic shop_ payload).
Proof. unfold processWebhookPayload. only_appends. Qed.

Lemma append_only_webhook_route secret req : append_only (webhook_route secret req).
Proof.
  unfold webhook_route. pose proof append_only_processWebhookPayload.
  only_appends.
Qed.

(** X13: neither a full sync, nor the dispatch of a webhook, nor the webhook
    route removes anything, whatever the remote API and the storage layer
    do: afterwards every customer, product and order row that was there
    still is, at the same place and with the same id, tenant id and remote
    id, and the tenant table is unchanged. *)
Theorem reconciliation_removes_nothing
  (tenantId topic shop_ secret : string) (payload : value) (req : WebhookRequest)
  (w : World) :
  kept (w_db w) (w_db (exec (fullSync tenantId) w))
  /\ kept (w_db w) (w_db (exec (processWebhookPayload topic shop_ payload) w))
  /\ kept (w_db w) (w_db (exec (webhook_route secret req) w)).
Proof.
  split; [apply append_only_fullSync|].
  split; [apply append_only_processWebhookPayload | apply append_only_webhook_route].
Qed.

(* ====================================================================== *)
(** ** What a write does to the columns of an existing row *)

Lemma text_opt_textual (column : string) (v : value) :
  textual v = true ->
  prisma.text_opt column v
  = Ok match v with
       | VStr s => Put (Some s)
       | VNull => Put None
       | _ => Keep
       end.
Proof. destruct v; try discriminate; reflexivity. Qed.

Section Found.
Context {R D P : Type} {model : prisma.Model R D P} {laws : ModelLaws model}.

(** An upsert that finds its row writes the update patch to it. *)
Lemma upsert_tx_found (k : prisma.key) (u c : D) (pu pc : P) (db : Store) (old r0 : R) :
  prisma.validate u = Ok pu ->
  prisma.validate c = Ok pc ->
  prisma.fresh (next_id db) k pc = Ok r0 ->
  prisma.references_ok pu db = true ->
  prisma.references_ok pc db = true ->
  find (prisma.has_key k) (prisma.rows db) = Some old ->
  exists db',
    prisma.upsert_tx k u (k, c) db = Ok (prisma.apply pu old, db')
    /\ find (prisma.has_key k) (prisma.rows db') = Some (prisma.apply pu old).
Proof.
  intros Hu Hc Hf Hru Hrc Hold.
  pose proof (upsert_tx_succeeds k u c pu pc db r0 Hu Hc Hf Hru Hrc) as H.
  rewrite Hold in H. eexists. split; [exact H|].
  rewrite rows_set_rows, find_update_first by (intros; apply apply_has_key).
  now rewrite Hold.
Qed.
End Found.

Lemma customer_upsert_found (k : prisma.key) (u c : prisma.customer.Data)
  (pu pc : prisma.customer.Patch) (db : Store) (old : Customer) :
  prisma.customer.check u = Ok pu ->
  prisma.customer.check c = Ok pc ->
  find (prisma.has_key (model := prisma.customer.model) k) (customers db) = Some old ->
  exists db',
    prisma.upsert_tx (model := prisma.customer.model) k u (k, c) db
    = Ok (prisma.customer.write pu old, db')
    /\ find (prisma.has_key (model := prisma.customer.model) k) (customers db')
       = Some (prisma.customer.write pu old).
Proof.
  intros Hu Hc Hold.
  exact (upsert_tx_found (model := prisma.customer.model) k u c pu pc db old _
           Hu Hc eq_refl eq_refl eq_refl Hold).
Qed.

Lemma webhook_update_patch (c : value) :
  textual (prop "email" c) = true ->
  textual (prop "first_name" c) = true ->
  textual (prop "last_name" c) = true ->
  (exists pc, prisma.customer.check (webhook_customer_create c) = Ok pc)
  /\ exists pu,
       prisma.customer.check (webhook_customer_update c) = Ok pu
       /\ forall old,
            let r := prisma.customer.write pu old in
            c_id r = c_id old
            /\ c_email r = text_or (prop "email" c) (c_email old)
            /\ c_firstName r = text_or (prop "first_name" c) (c_firstName old)
            /\ c_lastName r = text_or (prop "last_name" c) (c_lastName old)
            /\ c_createdAt r = c_createdAt old
            /\ c_updatedAt r = date_or (prop "updated_at" c) (c_updatedAt old).
Proof.
  intros He Hf Hl.
  unfold prisma.customer.check, webhook_customer_update, webhook_customer_create,
    date_or, date_of.
  cbn [prisma.customer.email prisma.customer.firstName prisma.customer.lastName
       prisma.customer.createdAt prisma.customer.updatedAt].
  destruct (prop "email" c); try discriminate He;
    destruct (prop "first_name" c); try discriminate Hf;
    destruct (prop "last_name" c); try discriminate Hl;
    (split; [eexists; reflexivity|]); eexists; (split; [reflexivity|]);
    intros old; cbv zeta; repeat split;
    destruct (truthy (prop "updated_at" c)); reflexivity.
Qed.

(** X14: a [customers/create] or [customers/update] webhook for a customer
    that is already stored never erases anything: a text column the
    payload has no string for keeps its value, the creation date is left
    alone, and the row keeps its id. *)
Theorem webhook_keeps_absent_customer_columns
  (topic shop_ : string) (payload : value) (w : World) (t : Tenant) (old : Customer) :
  quiet w ->
  find (fun t => String.eqb (t_shop t) shop_) (tenants (w_db w)) = Some t ->
  topic = "customers/create" \/ topic = "customers/update" ->
  nullish payload = false ->
  textual (prop "email" payload) = true ->
  textual (prop "first_name" payload) = true ->
  textual (prop "last_name" payload) = true ->
  let k := (t_id t, to_String (prop "id" payload)) in
  find (prisma.has_key (model := prisma.customer.model) k) (customers (w_db w))
  = Some old ->
  exists r,
    find (prisma.has_key (model := prisma.customer.model) k)
      (customers (w_db (exec (processWebhookPayload topic shop_ payload) w)))
    = Some r
    /\ c_id r = c_id old
    /\ c_email r = text_or (prop "email" payload) (c_email old)
    /\ c_firstName r = text_or (prop "first_name" payload) (c_firstName old)
    /\ c_lastName r = text_or (prop "last_name" payload) (c_lastName old)
    /\ c_createdAt r = c_createdAt old
    /\ c_updatedAt r = date_or (prop "updated_at" payload) (c_updatedAt old).
Proof.
  intros Hq Et Htopic Hn He Hf Hl k Hold. subst k.
  revert Et Hold. open_quiet w Hq. intros Et Hold. cbn [w_db] in Et, Hold.
  assert (Hdisp : String.prefix "orders/" topic = false
                  /\ (String.eqb topic "customers/create"
                      || String.eqb topic "customers/update") = true)
    by (destruct Htopic as [-> | ->]; split; reflexivity).
  destruct Hdisp as [Hp Hc].
  destruct (webhook_update_patch payload He Hf Hl) as ((pc & Hpc) & pu & Hpu & Hcols).
  destruct (customer_upsert_found (t_id t, to_String (prop "id" payload)) _ _ pu pc db
              old Hpu Hpc Hold) as (db' & Hup & Hfind).
  unfold processWebhookPayload. run_monad. rewrite Et. step. rewrite Hp, Hc. step.
  rewrite Hn. step. rewrite Hup. step.
  exists (prisma.customer.write pu old). split; [exact Hfind | apply Hcols].
Qed.

Lemma webhook_keeps_absent_customer_columns_witness :
  exists r,
    find (prisma.has_key (model := prisma.customer.model) ("t1", "77"))
      (customers (w_db (exec (processWebhookPayload "customers/update"
                                "one.myshopify.com" Samples.partial_customer)
                          (Fixtures.world_of Samples.synced_store))))
    = Some r
    /\ c_id r = 0
    /\ c_email r = Some "ada@example.com"
    /\ c_firstName r = Some "Ada"
    /\ c_lastName r = Some "Lovelace"
    /\ c_createdAt r = None
    /\ c_updatedAt r = Some (new_Date (VStr "2025-09-09T06:08:26Z")).
Proof.
  apply (webhook_keeps_absent_customer_columns "customers/update" "one.myshopify.com"
           Samples.partial_customer (Fixtures.world_of Samples.synced_store)
           Fixtures.tenant1 Fixtures.synced_customer);
    try reflexivity.
  now right.
Defined.

Lemma sync_customer_patch (c : value) :
  textual (prop "email" c) = true ->
  textual (prop "first_name" c) = true ->
  textual (prop "last_name" c) = true ->
  exists p,
    prisma.customer.check (customer_data c) = Ok p
    /\ forall old,
         let r := prisma.customer.write p old in
         c_id r = c_id old
         /\ c_email r = text_or (prop "email" c) None
         /\ c_firstName r = text_or (prop "first_name" c) None
         /\ c_lastName r = text_or (prop "last_name" c) None
         /\ c_createdAt r = date_or (prop "created_at" c) (c_createdAt old)
         /\ c_updatedAt r = date_or (prop "updated_at" c) (c_updatedAt old).
Proof.
  intros He Hf Hl.
  unfold prisma.customer.check, customer_data, date_or, date_of.
  cbn [prisma.customer.email prisma.customer.firstName prisma.customer.lastName
       prisma.customer.createdAt prisma.customer.updatedAt].
  destruct (prop "email" c); try discriminate He;
    destruct (prop "first_name" c); try discriminate Hf;
    destruct (prop "last_name" c); try discriminate Hl;
    eexists; (split; [reflexivity|]);
    intros old; cbv zeta; repeat split;
    destruct (truthy (prop "created_at" c)), (truthy (prop "updated_at" c));
    reflexivity.
Qed.

(** X15: the customer loop of [fullSync] writes every text column of a
    customer that is already stored: where the remote record has no string
    for a column, the stored value is replaced by [null]. The two dates are
    replaced only when the record has them; the row keeps its id. *)
Theorem sync_erases_absent_customer_columns
  (tenantId : string) (n : nat) (c : value) (w : World) (old : Customer) :
  quiet w ->
  nullish c = false ->
  textual (prop "email" c) = true ->
  textual (prop "first_name" c) = true ->
  textual (prop "last_name" c) = true ->
  let k := (tenantId, to_String (prop "id" c)) in
  find (prisma.has_key (model := prisma.customer.model) k) (customers (w_db w))
  = Some old ->
  result (sync_customer tenantId n c) w = Ok (S n)
  /\ exists r,
       find (prisma.has_key (model := prisma.customer.model) k)
         (customers (w_db (exec (sync_customer tenantId n c) w)))
       = Some r
       /\ c_id r = c_id old
       /\ c_email r = text_or (prop "email" c) None
       /\ c_firstName r = text_or (prop "first_name" c) None
       /\ c_lastName r = text_or (prop "last_name" c) None
       /\ c_createdAt r = date_or (prop "created_at" c) (c_createdAt old)
       /\ c_updatedAt r = date_or (prop "updated_at" c) (c_updatedAt old).
Proof.
  intros Hq Hn He Hf Hl k Hold. subst k.
  revert Hold. open_quiet w Hq. intros Hold. cbn [w_db] in Hold.
  destruct (sync_customer_patch c He Hf Hl) as (p & Hp & Hcols).
  destruct (customer_upsert_found (tenantId, to_String (prop "id" c)) _ _ p p db
              old Hp Hp Hold) as (db' & Hup & Hfind).
  unfold sync_customer. run_monad. rewrite Hn. step. rewrite Hup. step.
  split; [reflexivity|].
  exists (prisma.customer.write p old). split; [exact Hfind | apply Hcols].
Qed.

Lemma sync_erases_absent_customer_columns_witness :
  result (sync_customer "t1" 0 Samples.partial_customer)
    (Fixtures.world_of Samples.synced_store) = Ok 1
  /\ exists r,
       find (prisma.has_key (model := prisma.customer.model) ("t1", "77"))
         (customers (w_db (exec (sync_customer "t1" 0 Samples.partial_customer)
                             (Fixtures.world_of Samples.synced_store))))
       = Some r
       /\ c_id r = 0
       /\ c_email r = None
       /\ c_firstName r = None
       /\ c_lastName r = Some "Lovelace"
       /\ c_createdAt r = None
       /\ c_updatedAt r = Some (new_Date (VStr "2025-09-09T06:08:26Z")).
Proof.
  apply (sync_erases_absent_customer_columns "t1" 0 Samples.partial_customer
           (Fixtures.world_of Samples.synced_store) Fixtures.synced_customer);
    reflexivity.
Defined.

Lemma product_upsert_found (k : prisma.key) (u c : prisma.product.Data)
  (pu pc : prisma.product.Patch) (db : Store) (old r0 : Product) :
  prisma.product.check u = Ok pu ->
  prisma.product.check c = Ok pc ->
  prisma.product.new_row (next_id db) k pc = Ok r0 ->
  find (prisma.has_key (model := prisma.product.model) k) (products db) = Some old ->
  exists db',
    prisma.upsert_tx (model := prisma.product.model) k u (k, c) db
    = Ok (prisma.product.write pu old, db')
    /\ find (prisma.has_key (model := prisma.product.model) k) (products db')
       = Some (prisma.product.write pu old).
Proof.
  intros Hu Hc Hf Hold.
  exact (upsert_tx_found (model := prisma.product.model) k u c pu pc db old r0
           Hu Hc Hf eq_refl eq_refl Hold).
Qed.

(** X16: a product record without variants, applied to a product that is
    already stored, resets the stored price to ["0.00"] and the stored sku to
    [null], in the dispatcher and in the product loop of [fullSync] alike.
    Without a title in the record the dispatcher keeps the stored title and
    the loop replaces it by ["Untitled"]. *)
Theorem product_without_variants_resets_price
  (topic shop_ : string) (n : nat) (p : value) (w : World) (t : Tenant)
  (old : Product) :
  quiet w ->
  find (fun t => String.eqb (t_shop t) shop_) (tenants (w_db w)) = Some t ->
  topic = "products/create" \/ topic = "products/update" ->
  nullish p = false ->
  truthy (prop "variants" p) = false ->
  textual (prop "title" p) = true ->
  let k := (t_id t, to_String (prop "id" p)) in
  find (prisma.has_key (model := prisma.product.model) k) (products (w_db w))
  = Some old ->
  (exists r,
     find (prisma.has_key (model := prisma.product.model) k)
       (products (w_db (exec (processWebhookPayload topic shop_ p) w)))
     = Some r
     /\ p_id r = p_id old /\ p_price r = "0.00" /\ p_sku r = None
     /\ Some (p_title r) = text_or (prop "title" p) (Some (p_title old)))
  /\ (exists r,
        find (prisma.has_key (model := prisma.product.model) k)
          (products (w_db (exec (sync_product (t_id t) n p) w)))
        = Some r
        /\ p_id r = p_id old /\ p_price r = "0.00" /\ p_sku r = None
        /\ Some (p_title r) = text_or (prop "title" p) (Some "Untitled")).
Proof.
  intros Hq Et Htopic Hn Hv Ht k Hold. subst k.
  revert Et Hold. open_quiet w Hq. intros Et Hold. cbn [w_db] in Et, Hold.
  assert (Hdisp : String.prefix "orders/" topic = false
                  /\ (String.eqb topic "customers/create"
                      || String.eqb topic "customers/update") = false
                  /\ (String.eqb topic "products/create"
                      || String.eqb topic "products/update") = true)
    by (destruct Htopic as [-> | ->]; repeat split).
  destruct Hdisp as (Hp & Hc & Hpr).
  assert (Hpatch :
    forall dflt : value,
      dflt = VUndefined \/ dflt = VStr "Untitled" ->
      exists pu,
        prisma.product.check (product_data p dflt) = Ok pu
        /\ (dflt = VStr "Untitled" ->
            exists r0, forall id kk, prisma.product.new_row id kk pu = Ok (r0 id kk))
        /\ let r := prisma.product.write pu old in
           p_id r = p_id old /\ p_price r = "0.00" /\ p_sku r = None
           /\ Some (p_title r)
              = text_or (prop "title" p)
                  (match dflt with VStr s => Some s | _ => Some (p_title old) end)).
  { intros dflt Hd.
    unfold prisma.product.check, product_data, first_variant.
    cbn [prisma.product.title prisma.product.sku prisma.product.price
         prisma.product.createdAt].
    rewrite Hv. cbn [andb]. unfold coalesce.
    destruct (prop "title" p); try discriminate Ht;
      destruct Hd as [-> | ->]; cbn [nullish prisma.text_req prisma.text_opt
                                      prisma.decimal_req];
      eexists; (split; [reflexivity|]);
      (split; [intros Hd; try discriminate Hd;
               unfold prisma.product.new_row; cbn;
               eexists (fun id kk => _); intros; reflexivity|]);
      cbv zeta; repeat split. }
  destruct (Hpatch VUndefined (or_introl eq_refl)) as (pu & Hpu & _ & Hcu).
  destruct (Hpatch (VStr "Untitled") (or_intror eq_refl)) as (pc & Hpc & Hnew & Hcc).
  destruct (Hnew eq_refl) as (r0 & Hr0).
  destruct (product_upsert_found (t_id t, to_String (prop "id" p)) _ _ pu pc db
              old _ Hpu Hpc (Hr0 _ _) Hold) as (db1 & Hup1 & Hfind1).
  destruct (product_upsert_found (t_id t, to_String (prop "id" p)) _ _ pc pc db
              old _ Hpc Hpc (Hr0 _ _) Hold) as (db2 & Hup2 & Hfind2).
  split.
  - unfold processWebhookPayload. run_monad. rewrite Et. step.
    rewrite Hp, Hc, Hpr. step. rewrite Hn. step. rewrite Hup1. step.
    exists (prisma.product.write pu old). split; [exact Hfind1 | exact Hcu].
  - unfold sync_product. run_monad. rewrite Hn. step. rewrite Hup2. step.
    exists (prisma.product.write pc old). split; [exact Hfind2 | exact Hcc].
Qed.

Lemma product_without_variants_resets_price_witness :
  (exists r,
     find (prisma.has_key (model := prisma.product.model) ("t1", "5"))
       (products (w_db (exec (processWebhookPayload "products/update"
                                "one.myshopify.com" Samples.partial_product)
                          (Fixtures.world_of Samples.lamp_store))))
     = Some r
     /\ p_id r = 0 /\ p_price r = "0.00" /\ p_sku r = None
     /\ Some (p_title r) = Some "Lamp")
  /\ (exists r,
        find (prisma.has_key (model := prisma.product.model) ("t1", "5"))
          (products (w_db (exec (sync_product "t1" 0 Samples.partial_product)
                             (Fixtures.world_of Samples.lamp_store))))
        = Some r
        /\ p_id r = 0 /\ p_price r = "0.00" /\ p_sku r = None
        /\ Some (p_title r) = Some "Untitled").
Proof.
  apply (product_without_variants_resets_price "products/update" "one.myshopify.com"
           0 Samples.partial_product (Fixtures.world_of Samples.lamp_store)
           Fixtures.tenant1 Samples.lamp);
    try reflexivity.
  now right.
Defined.

(* ====================================================================== *)
(** ** What the loops of the full sync do with each record *)

Lemma warnings_app (msg : string) (a b : list (level * string)) :
  warnings msg (a ++ b) = warnings msg a + warnings msg b.
Proof. unfold warnings. now rewrite filter_app, length_app. Qed.

Lemma warnings_one (msg : string) : warnings msg [(LWarn, msg)] = 1.
Proof. unfold warnings. cbn. now rewrite String.eqb_refl. Qed.

(** What a storage call leaves behind, answered or rejected. *)
Lemma storage_call_ok {A} (tx : Store -> outcome (A * Store)) (w w' : World) (a : A) :
  prisma.storage_call tx w = (Ok a, w') ->
  tx (w_db w) = Ok (a, w_db w') /\ w_console w' = w_console w.
Proof.
  unfold prisma.storage_call.
  destruct (w_faults w) as [|[|] fs]; try discriminate;
    (destruct (tx (w_db w)) as [[a0 db']|e]; [|discriminate]);
    intros [= <- <-]; split; reflexivity.
Qed.

Lemma storage_call_throw {A} (tx : Store -> outcome (A * Store)) (w w' : World)
  (e : Error) :
  prisma.storage_call tx w = (Throw e, w') ->
  w_db w' = w_db w /\ w_console w' = w_console w.
Proof.
  unfold prisma.storage_call.
  destruct (w_faults w) as [|[|] fs];
    try (intros [= _ <-]; split; reflexivity);
    (destruct (tx (w_db w)) as [[a0 db']|e0]; [discriminate|]);
    intros [= _ <-]; split; reflexivity.
Qed.

Section Stored.
Context {R D P : Type} {model : prisma.Model R D P} {laws : ModelLaws model}.

Lemma has_key_natural (k : prisma.key) (r : R) :
  prisma.has_key k r = true -> natural_key r = k.
Proof.
  unfold prisma.has_key, prisma.key_eqb, natural_key. intros H.
  apply andb_true_iff in H as [Ht Hr].
  apply String.eqb_eq in Ht, Hr. rewrite Ht, Hr. now destruct k.
Qed.

Lemma found_key (k : prisma.key) (l : list R) (r : R) :
  find (prisma.has_key k) l = Some r -> In k (map natural_key l).
Proof.
  intros H. apply find_some in H as [Hin Hk].
  apply has_key_natural in Hk. rewrite <- Hk. now apply in_map.
Qed.

Lemma natural_key_ident (l l' : list R) :
  map ident l = map ident l' -> map natural_key l = map natural_key l'.
Proof.
  intros H.
  assert (Hmap : forall x : list R,
            map natural_key x = map (fun i => (snd (fst i), snd i)) (map ident x)).
  { intros x. rewrite map_map. reflexivity. }
  now rewrite !Hmap, H.
Qed.

(** A key that is in the table stays there when rows are only updated in
    place or appended. *)
Lemma key_stays (k : prisma.key) (db db' : Store) :
  extends_table model db db' ->
  In k (map natural_key (prisma.rows db)) -> In k (map natural_key (prisma.rows db')).
Proof.
  intros [extra He] Hin.
  assert (Hmap : forall x : list R,
            map natural_key x = map (fun i => (snd (fst i), snd i)) (map ident x)).
  { intros x. rewrite map_map. reflexivity. }
  rewrite Hmap, He, map_app, in_app_iff. left. now rewrite <- Hmap.
Qed.

(** After a successful upsert the key is in the table. *)
Lemma upsert_tx_stores (k : prisma.key) (u c : D) (db db' : Store) (r : R) :
  prisma.upsert_tx k u (k, c) db = Ok (r, db') ->
  In k (map natural_key (prisma.rows db')).
Proof.
  intros H. apply upsert_tx_inv in H as (pu & pc & r0 & _ & _ & Hf & Hcase).
  destruct Hcase as [(old & Hfind & _ & _ & ->) | (_ & _ & _ & ->)];
    rewrite rows_set_rows.
  - rewrite (natural_key_ident _ (prisma.rows db)).
    + eapply found_key; exact Hfind.
    + apply map_update_first. apply apply_ident.
  - rewrite map_app, in_app_iff. right. left.
    apply fresh_has_key in Hf. now apply has_key_natural.
Qed.

(** After a successful update in place the keys are the ones before. *)
Lemma update_tx_keys (f : R -> bool) (p : P) (db db' : Store) (r : R) :
  prisma.update_tx f p db = Ok (r, db') ->
  map natural_key (prisma.rows db') = map natural_key (prisma.rows db).
Proof.
  intros H. apply update_tx_inv in H as (old & _ & _ & _ & ->).
  rewrite rows_set_rows. apply natural_key_ident, map_update_first, apply_ident.
Qed.

(** After a successful insert the key is in the table. *)
Lemma insert_tx_stores (k : prisma.key) (p : P) (db db' : Store) (r : R) :
  prisma.insert_tx k p db = Ok (r, db') ->
  In k (map natural_key (prisma.rows db')).
Proof.
  intros H. apply insert_tx_inv in H as (Hf & _ & _ & ->).
  rewrite rows_set_rows, map_app, in_app_iff. right. left.
  apply fresh_has_key in Hf. now apply has_key_natural.
Qed.
End Stored.

Ltac open_turn :=
  unfold result, exec, try_catch, bind, get_prop, throw, ret, console,
    prisma.product.upsert, prisma.customer.upsert, prisma.order.upsert,
    prisma.customer.findFirst, prisma.customer.update, prisma.customer.create,
    prisma.upsert, prisma.findFirst, prisma.update, prisma.create;
  step.

(** A turn that was not counted. *)
Ltac skipped notes :=
  exists false, notes; cbn [fst snd w_console w_db];
  repeat match goal with
         | H : w_console _ = _ |- _ => rewrite H
         | H : w_db _ = _ |- _ => rewrite H
         end;
  cbn [w_console w_db];
  split; [reflexivity|];
  split; [now rewrite <- ?app_assoc|];
  split; [reflexivity|];
  split; [discriminate | reflexivity].

(** A turn that was counted. *)
Ltac counted notes :=
  exists true, notes; cbn [fst snd w_console w_db];
  repeat match goal with
         | H : w_console _ = _ |- _ => rewrite H
         end;
  cbn [w_console w_db];
  split; [reflexivity|];
  split; [now rewrite ?app_nil_r|];
  split; [reflexivity|];
  split; [intros _ | discriminate].

Lemma sync_product_turn (T : string) (n : nat) (p : value) (w : World) :
  turned prisma.product.model T "product upsert failed for item:" p n
    (result (sync_product T n p) w) w (exec (sync_product T n p) w).
Proof.
  unfold sync_product. open_turn.
  destruct (nullish p); step; [skipped (@nil (level * string))|].
  destruct (prisma.storage_call _ w) as [[r|e] w1] eqn:E; step.
  - apply storage_call_ok in E as [Htx Hc]. counted (@nil (level * string)).
    eapply upsert_tx_stores; exact Htx.
  - apply storage_call_throw in E as [Hd Hc]. skipped (@nil (level * string)).
Qed.

Lemma sync_customer_turn (T : string) (n : nat) (c : value) (w : World) :
  turned prisma.customer.model T "customer upsert failed for item:" c n
    (result (sync_customer T n c) w) w (exec (sync_customer T n c) w).
Proof.
  unfold sync_customer. open_turn.
  destruct (nullish c); step; [skipped (@nil (level * string))|].
  match goal with
  | |- context [prisma.storage_call _ ?w0] => set (logged := w0)
  end.
  assert (Hc0 : w_console logged = (w_console w ++ [(LLog, "Shopify raw customer:")])%list)
    by reflexivity.
  assert (Hd0 : w_db logged = w_db w) by reflexivity.
  clearbody logged.
  destruct (prisma.storage_call _ logged) as [[r|e] w1] eqn:E; step.
  { apply storage_call_ok in E as [Htx Hc1]. rewrite Hc0 in Hc1.
    counted [(LLog, "Shopify raw customer:")].
    eapply upsert_tx_stores; exact Htx. }
  apply storage_call_throw in E as [Hd1 Hc1]. rewrite Hc0 in Hc1. rewrite Hd0 in Hd1.
  destruct (prisma.storage_call _ w1) as [[existing|e2] w2] eqn:E2; step.
  2:{ apply storage_call_throw in E2 as [Hd2 Hc2]. rewrite Hc1 in Hc2.
      rewrite Hd1 in Hd2. skipped [(LLog, "Shopify raw customer:")]. }
  apply storage_call_ok in E2 as [Htx2 Hc2]. rewrite Hc1 in Hc2.
  injection Htx2 as Hfind Hd2. rewrite Hd1 in Hd2.
  destruct existing as [existing|]; step.
  - destruct (prisma.storage_call _ w2) as [[r|e3] w3] eqn:E3; step.
    + apply storage_call_ok in E3 as [Htx3 Hc3]. rewrite Hc2 in Hc3.
      counted [(LLog, "Shopify raw customer:")].
      destruct (prisma.validate (customer_data c)) as [pc|]; [|discriminate].
      unfold stored. rewrite (update_tx_keys _ _ _ _ _ Htx3), <- Hd2, <- Hd1.
      eapply found_key. exact Hfind.
    + apply storage_call_throw in E3 as [Hd3 Hc3]. rewrite Hc2 in Hc3.
      rewrite <- Hd2 in Hd3. skipped [(LLog, "Shopify raw customer:")].
  - destruct (prisma.storage_call _ w2) as [[r|e3] w3] eqn:E3; step.
    + apply storage_call_ok in E3 as [Htx3 Hc3]. rewrite Hc2 in Hc3.
      counted [(LLog, "Shopify raw customer:")].
      cbn [fst snd] in Htx3.
      destruct (prisma.validate (customer_data c)) as [pc|]; [|discriminate].
      eapply insert_tx_stores; exact Htx3.
    + apply storage_call_throw in E3 as [Hd3 Hc3]. rewrite Hc2 in Hc3.
      rewrite <- Hd2 in Hd3. skipped [(LLog, "Shopify raw customer:")].
Qed.

Lemma sync_order_turn (T : string) (n : nat) (o : value) (w : World) :
  turned prisma.order.model T "order upsert failed for item:" o n
    (result (sync_order T n o) w) w (exec (sync_order T n o) w).
Proof.
  unfold sync_order. open_turn.
  destruct (nullish o); step; [skipped (@nil (level * string))|].
  destruct (truthy (opt_prop "id" (prop "customer" o))); step.
  - destruct (prisma.storage_call _ w) as [[existing|e] w1] eqn:E; step.
    2:{ apply storage_call_throw in E as [Hd Hc]. skipped (@nil (level * string)). }
    apply storage_call_ok in E as [Htx Hc]. injection Htx as _ Hd.
    destruct (prisma.storage_call _ w1) as [[r|e] w2] eqn:E2; step.
    + apply storage_call_ok in E2 as [Htx2 Hc2]. rewrite Hc in Hc2.
      counted (@nil (level * string)).
      eapply upsert_tx_stores; exact Htx2.
    + apply storage_call_throw in E2 as [Hd2 Hc2]. rewrite Hc in Hc2.
      rewrite <- Hd in Hd2. skipped (@nil (level * string)).
  - destruct (prisma.storage_call _ w) as [[r|e] w1] eqn:E; step.
    + apply storage_call_ok in E as [Htx Hc]. counted (@nil (level * string)).
      eapply upsert_tx_stores; exact Htx.
    + apply storage_call_throw in E as [Hd Hc]. skipped (@nil (level * string)).
Qed.

Section Loop.
Context {R D P : Type} (model : prisma.Model R D P).
Variables (T msg : string) (body : nat -> value -> M nat).
Hypothesis body_turn :
  forall n x w, turned model T msg x n (result (body n x) w) w (exec (body n x) w).
Hypothesis body_keeps :
  forall n x w, extends_table model (w_db w) (w_db (exec (body n x) w)).

(** Turn by turn, a loop adds up to a tally. *)
Lemma for_of_tallied (items : list value) :
  forall n w,
    exists k,
      result (for_of items body n) w = Ok k
      /\ tallied model T msg items n k w (exec (for_of items body n) w)
      /\ extends_table model (w_db w) (w_db (exec (for_of items body n) w)).
Proof.
  induction items as [|x items IH]; intros n w.
  - exists n. split; [reflexivity|]. split.
    + exists [], []. cbn. rewrite Nat.add_0_r, app_nil_r. repeat split. constructor.
    + exists []. now rewrite app_nil_r.
  - destruct (body_turn n x w) as (b & notes & Hr & Hc & Hw & Hs & Hd).
    pose proof (body_keeps n x w) as Hk1.
    unfold result, exec in *. cbn [for_of]. unfold bind.
    destruct (body n x w) as [r w1]. cbn [fst snd] in *. subst r.
    destruct (IH (if b then S n else n) w1)
      as (k & Hk & (flags & lines & HF & Hcount & Hcons & Hwarn & Hsame) & Hk2).
    destruct (for_of items body (if b then S n else n) w1) as [r2 w2].
    cbn [fst snd] in *. subst r2.
    exists k. split; [reflexivity|]. split.
    + exists (b :: flags), (notes ++ (if b then [] else [(LWarn, msg)]) ++ lines)%list.
      split.
      { constructor; [|exact HF]. intros Hb. unfold stored in *.
        eapply key_stays; [exact Hk2 | now apply Hs]. }
      split.
      { rewrite Hcount. destruct b; cbn [filter List.length]; lia. }
      split.
      { rewrite Hcons, Hc, <- !app_assoc. reflexivity. }
      split.
      { rewrite !warnings_app, Hw, Hwarn.
        destruct b; cbn [filter negb List.length];
          [reflexivity | now rewrite warnings_one]. }
      intros Hkn. destruct b.
      * exfalso. lia.
      * rewrite Hsame by lia. now apply Hd.
    + destruct Hk1 as [e1 He1], Hk2 as [e2 He2].
      exists (e1 ++ e2)%list. now rewrite He2, He1, app_assoc.
Qed.
End Loop.

Lemma tallied_bound {R D P} (model : prisma.Model R D P) (T msg : string)
  (items : list value) (n k : nat) (w w' : World) :
  tallied model T msg items n k w w' -> n <= k <= n + List.length items.
Proof.
  intros (flags & lines & HF & -> & _).
  apply Forall2_length in HF. rewrite HF.
  pose proof (filter_length_le (fun b : bool => b) flags). lia.
Qed.

Lemma all_flags (flags : list bool) :
  List.length (filter (fun b => b) flags) = List.length flags ->
  Forall (fun b => b = true) flags /\ filter negb flags = [].
Proof.
  induction flags as [|b flags IH]; [split; [constructor | reflexivity]|].
  pose proof (filter_length_le (fun b : bool => b) flags) as Hle.
  destruct b; cbn [filter negb List.length]; intros Hlen.
  - destruct IH as [IH1 IH2]; [lia|]. split; [now constructor | exact IH2].
  - exfalso. lia.
Qed.

(** A tally in which every record was counted. *)
Lemma tallied_all {R D P} (model : prisma.Model R D P) (T msg : string)
  (items : list value) (n : nat) (w w' : World) :
  tallied model T msg items n (n + List.length items) w w' ->
  all_stored model T msg items w w'.
Proof.
  intros (flags & lines & HF & Hcount & Hcons & Hwarn & _).
  pose proof (Forall2_length HF) as Hlen.
  destruct (all_flags flags) as [Htrue Hnone]; [lia|].
  split.
  - clear - HF Htrue. induction HF as [|x b items flags Hx HF IH]; constructor.
    + apply Hx. now inversion Htrue.
    + apply IH. now inversion Htrue.
  - exists lines. split; [exact Hcons|]. now rewrite Hwarn, Hnone.
Qed.

Lemma sync_product_keeps (T : string) (n : nat) (p : value) (w : World) :
  extends_table prisma.product.model (w_db w) (w_db (exec (sync_product T n p) w)).
Proof. apply (append_only_sync_product T n p w). Qed.

Lemma sync_customer_keeps (T : string) (n : nat) (c : value) (w : World) :
  extends_table prisma.customer.model (w_db w) (w_db (exec (sync_customer T n c) w)).
Proof. apply (append_only_sync_customer T n c w). Qed.

Lemma sync_order_keeps (T : string) (n : nat) (o : value) (w : World) :
  extends_table prisma.order.model (w_db w) (w_db (exec (sync_order T n o) w)).
Proof. apply (append_only_sync_order T n o w). Qed.

(** X5: none of the three loops of [fullSync] is left by an exception,
    whatever the records are and whichever storage calls are rejected.
    Each record is either counted, and then its row is in the table when
    the loop ends, or not counted, and then the loop has written its
    warning for it; so the count a loop reports lies between its start
    value and that plus the number of records, and a loop that counted
    nothing has left the tables as they were. *)
Theorem sync_loops_skip_failing_records
  (tenantId : string) (items : list value) (n : nat) (w : World) :
  (exists k,
     result (for_of items (sync_product tenantId) n) w = Ok k
     /\ n <= k <= n + List.length items
     /\ tallied prisma.product.model tenantId "product upsert failed for item:"
          items n k w (exec (for_of items (sync_product tenantId) n) w))
  /\ (exists k,
        result (for_of items (sync_customer tenantId) n) w = Ok k
        /\ n <= k <= n + List.length items
        /\ tallied prisma.customer.model tenantId "customer upsert failed for item:"
             items n k w (exec (for_of items (sync_customer tenantId) n) w))
  /\ (exists k,
        result (for_of items (sync_order tenantId) n) w = Ok k
        /\ n <= k <= n + List.length items
        /\ tallied prisma.order.model tenantId "order upsert failed for item:"
             items n k w (exec (for_of items (sync_order tenantId) n) w)).
Proof.
  split; [|split].
  - destruct (for_of_tallied prisma.product.model tenantId _ (sync_product tenantId)
                (sync_product_turn tenantId) (sync_product_keeps tenantId) items n w)
      as (k & Hk & Ht & _).
    exists k. split; [exact Hk|]. split; [exact (tallied_bound _ _ _ _ _ _ _ _ Ht) | exact Ht].
  - destruct (for_of_tallied prisma.customer.model tenantId _ (sync_customer tenantId)
                (sync_customer_turn tenantId) (sync_customer_keeps tenantId) items n w)
      as (k & Hk & Ht & _).
    exists k. split; [exact Hk|]. split; [exact (tallied_bound _ _ _ _ _ _ _ _ Ht) | exact Ht].
  - destruct (for_of_tallied prisma.order.model tenantId _ (sync_order tenantId)
                (sync_order_turn tenantId) (sync_order_keeps tenantId) items n w)
      as (k & Hk & Ht & _).
    exists k. split; [exact Hk|]. split; [exact (tallied_bound _ _ _ _ _ _ _ _ Ht) | exact Ht].
Qed.

(* ====================================================================== *)
(** ** What the loops of the full sync count *)

Lemma for_of_counts_all {A} (good : A -> bool) (body : nat -> A -> M nat) :
  (forall n x w, quiet w -> good x = true ->
                 exists w', body n x w = (Ok (S n), w') /\ quiet w') ->
  forall items n w,
    quiet w -> forallb good items = true ->
    exists w', for_of items body n w = (Ok (n + List.length items), w') /\ quiet w'.
Proof.
  intros Hb. induction items as [|x items IH]; intros n w Hq Hall.
  - exists w. split; [cbn; now rewrite Nat.add_0_r | exact Hq].
  - cbn [forallb] in Hall. apply andb_true_iff in Hall as [Hx Hall].
    destruct (Hb n x w Hq Hx) as (w1 & E1 & Hq1).
    destruct (IH (S n) w1 Hq1 Hall) as (w2 & E2 & Hq2).
    exists w2. cbn [for_of]. unfold bind. rewrite E1, E2.
    split; [|exact Hq2]. cbn [List.length]. now rewrite Nat.add_succ_r.
Qed.

Lemma accepted_inv {P} (checked : outcome P) :
  accepted checked = true -> exists p, checked = Ok p.
Proof. destruct checked; [eauto | discriminate]. Qed.

Lemma product_patch_complete (p : value) (pc : prisma.product.Patch) (id : nat)
  (k : prisma.key) :
  prisma.product.check (product_data p (VStr "Untitled")) = Ok pc ->
  exists r0, prisma.product.new_row id k pc = Ok r0.
Proof.
  unfold prisma.product.check, product_data, prisma.product.new_row.
  cbn [prisma.product.title prisma.product.sku prisma.product.price
       prisma.product.createdAt].
  destruct (prisma.text_req "title" _) as [t|] eqn:Et; [|discriminate].
  destruct (prisma.text_opt "sku" _) as [s|]; [|discriminate].
  destruct (prisma.decimal_req "price" _) as [pr|] eqn:Ep; [|discriminate].
  intros [= <-]. cbn [prisma.product.pt_title prisma.product.pt_price].
  assert (Ht : exists x, t = Put x).
  { unfold coalesce in Et. destruct (prop "title" p); cbn in Et;
      try discriminate Et; injection Et as <-; eauto. }
  assert (Hp : exists x, pr = Put x).
  { unfold first_variant in Ep.
    destruct (truthy (prop "variants" p) && _) eqn:Ev.
    - apply andb_true_iff in Ev as [_ Ev]. unfold opt_prop in Ev.
      destruct (nullish (index0 (prop "variants" p))); [discriminate Ev|].
      destruct (prop "price" (index0 (prop "variants" p))); cbn in Ev, Ep;
        try discriminate; injection Ep as <-; eauto.
    - cbn in Ep. injection Ep as <-. eauto. }
  destruct Ht as [x ->], Hp as [y ->]. cbn. eauto.
Qed.

Lemma sync_product_stores (tenantId : string) (n : nat) (p : value) (w : World) :
  quiet w -> storable_product p = true ->
  exists w', sync_product tenantId n p w = (Ok (S n), w') /\ quiet w'.
Proof.
  intros Hq Hs. apply andb_true_iff in Hs as [Hn Hc].
  apply negb_true_iff in Hn. apply accepted_inv in Hc as [pc Hc].
  open_quiet w Hq.
  destruct (product_patch_complete p pc (next_id db)
              (tenantId, to_String (prop "id" p)) Hc) as [r0 Hr0].
  pose proof (upsert_tx_succeeds (model := prisma.product.model)
                (tenantId, to_String (prop "id" p)) _ _ pc pc db r0 Hc Hc Hr0
                eq_refl eq_refl) as Hup.
  unfold sync_product. run_monad. rewrite Hn. step. rewrite Hup.
  destruct (find _ (prisma.rows db)); step; eexists; split; reflexivity.
Qed.

Lemma sync_customer_stores (tenantId : string) (n : nat) (c : value) (w : World) :
  quiet w -> storable_customer c = true ->
  exists w', sync_customer tenantId n c w = (Ok (S n), w') /\ quiet w'.
Proof.
  intros Hq Hs. apply andb_true_iff in Hs as [Hn Hc].
  apply negb_true_iff in Hn. apply accepted_inv in Hc as [pc Hc].
  open_quiet w Hq.
  pose proof (upsert_tx_succeeds (model := prisma.customer.model)
                (tenantId, to_String (prop "id" c)) _ _ pc pc db _ Hc Hc eq_refl
                eq_refl eq_refl) as Hup.
  unfold sync_customer. run_monad. rewrite Hn. step. rewrite Hup.
  destruct (find _ (prisma.rows db)); step; eexists; split; reflexivity.
Qed.

Lemma sync_order_stores (tenantId : string) (n : nat) (o : value) (w : World) :
  quiet w -> storable_order o = true ->
  exists w', sync_order tenantId n o w = (Ok (S n), w') /\ quiet w'.
Proof.
  intros Hq Hs. apply andb_true_iff in Hs as [Hn Hc].
  apply negb_true_iff in Hn. apply accepted_inv in Hc as [p Hp].
  open_quiet w Hq.
  unfold sync_order. run_monad. rewrite Hn. step.
  destruct (truthy (opt_prop "id" (prop "customer" o))); step.
  - destruct (order_check_any_reference o None
                (option_map c_id
                   (find (prisma.has_key (model := prisma.customer.model)
                            (tenantId, to_String (prop "id" (prop "customer" o))))
                         (customers db))) p Hp) as [p' Hp'].
    destruct (order_upsert_reference (tenantId, to_String (prop "id" o)) o _ p' db Hp'
                (found_customer_exists _ db)) as (r & db' & Hup & _).
    change (@prisma.rows _ _ _ prisma.customer.model db) with (customers db).
    rewrite Hup. step. eexists. split; reflexivity.
  - destruct (order_upsert_reference (tenantId, to_String (prop "id" o)) o None p db Hp)
      as (r & db' & Hup & _); [discriminate|].
    rewrite Hup. step. eexists. split; reflexivity.
Qed.

(** A loop that counted every record stored every record. *)
Lemma counted_all_stored {R D P} (model : prisma.Model R D P) (T msg : string)
  (body : nat -> value -> M nat) (items : list value) (n : nat) (w w' : World) :
  (forall n x w, turned model T msg x n (result (body n x) w) w (exec (body n x) w)) ->
  (forall n x w, extends_table model (w_db w) (w_db (exec (body n x) w))) ->
  for_of items body n w = (Ok (n + List.length items), w') ->
  result (for_of items body n) w = Ok (n + List.length items)
  /\ all_stored model T msg items w (exec (for_of items body n) w).
Proof.
  intros Hturn Hkeep E.
  destruct (for_of_tallied model T msg body Hturn Hkeep items n w) as (k & Hk & Ht & _).
  unfold result, exec in *. rewrite E in *. cbn [fst snd] in *.
  injection Hk as <-. split; [reflexivity | exact (tallied_all _ _ _ _ _ _ _ Ht)].
Qed.

(** X6: on a store that rejects nothing, each loop of [fullSync] stores and
    counts every record that is not [null] and whose data the storage
    client accepts: given only such records, the count it reports is the
    number of records, every record has its row in the table when the loop
    ends, and the loop has written no warning. *)
Theorem sync_loops_count_storable_records
  (tenantId : string) (ps cs os : list value) (n : nat) (w : World) :
  quiet w ->
  forallb storable_product ps = true ->
  forallb storable_customer cs = true ->
  forallb storable_order os = true ->
  (result (for_of ps (sync_product tenantId) n) w = Ok (n + List.length ps)
   /\ all_stored prisma.product.model tenantId "product upsert failed for item:"
        ps w (exec (for_of ps (sync_product tenantId) n) w))
  /\ (result (for_of cs (sync_customer tenantId) n) w = Ok (n + List.length cs)
      /\ all_stored prisma.customer.model tenantId "customer upsert failed for item:"
           cs w (exec (for_of cs (sync_customer tenantId) n) w))
  /\ (result (for_of os (sync_order tenantId) n) w = Ok (n + List.length os)
      /\ all_stored prisma.order.model tenantId "order upsert failed for item:"
           os w (exec (for_of os (sync_order tenantId) n) w)).
Proof.
  intros Hq Hps Hcs Hos. split; [|split].
  - destruct (for_of_counts_all storable_product (sync_product tenantId)
                (sync_product_stores tenantId) ps n w Hq Hps) as (w' & E & _).
    exact (counted_all_stored _ _ _ _ _ _ _ _ (sync_product_turn tenantId)
             (sync_product_keeps tenantId) E).
  - destruct (for_of_counts_all storable_customer (sync_customer tenantId)
                (sync_customer_stores tenantId) cs n w Hq Hcs) as (w' & E & _).
    exact (counted_all_stored _ _ _ _ _ _ _ _ (sync_customer_turn tenantId)
             (sync_customer_keeps tenantId) E).
  - destruct (for_of_counts_all storable_order (sync_order tenantId)
                (sync_order_stores tenantId) os n w Hq Hos) as (w' & E & _).
    exact (counted_all_stored _ _ _ _ _ _ _ _ (sync_order_turn tenantId)
             (sync_order_keeps tenantId) E).
Qed.

Lemma sync_loops_count_storable_records_witness :
  (result (for_of [Fixtures.remote_product; Samples.shade]
             (sync_product "t1") 0) Fixtures.two_tenants_world
   = Ok (0 + 2)
   /\ all_stored prisma.product.model "t1" "product upsert failed for item:"
        [Fixtures.remote_product; Samples.shade] Fixtures.two_tenants_world
        (exec (for_of [Fixtures.remote_product; Samples.shade]
                 (sync_product "t1") 0) Fixtures.two_tenants_world))
  /\ (result (for_of [Fixtures.remote_customer] (sync_customer "t1") 0)
        Fixtures.two_tenants_world
      = Ok (0 + 1)
      /\ all_stored prisma.customer.model "t1" "customer upsert failed for item:"
           [Fixtures.remote_customer] Fixtures.two_tenants_world
           (exec (for_of [Fixtures.remote_customer] (sync_customer "t1") 0)
              Fixtures.two_tenants_world))
  /\ (result (for_of [Fixtures.remote_order; Samples.counter_sale]
                (sync_order "t1") 0) Fixtures.two_tenants_world
      = Ok (0 + 2)
      /\ all_stored prisma.order.model "t1" "order upsert failed for item:"
           [Fixtures.remote_order; Samples.counter_sale]
           Fixtures.two_tenants_world
           (exec (for_of [Fixtures.remote_order; Samples.counter_sale]
                    (sync_order "t1") 0) Fixtures.two_tenants_world)).
Proof.
  apply (sync_loops_count_storable_records "t1"
           [Fixtures.remote_product; Samples.shade]
           [Fixtures.remote_customer]
           [Fixtures.remote_order; Samples.counter_sale] 0
           Fixtures.two_tenants_world); reflexivity.
Defined.
(* ====================================================================== *)
(** ** The routes and the scheduler *)

Lemma tenant_lookup_by_id (tenantId : string) (w : World) :
  hd false (w_faults w) = false ->
  prisma.tenant.findUnique_id tenantId w
  = (Ok (find (fun t => String.eqb (t_id t) tenantId) (tenants (w_db w))),
     mkWorld (w_db w) (tl (w_faults w)) (w_replies w) (w_requests w) (w_console w)).
Proof.
  unfold prisma.tenant.findUnique_id, prisma.storage_call.
  destruct (w_faults w) as [|[|] fs]; cbn; intros H; try discriminate H; reflexivity.
Qed.

(** X17: for a tenant id that has no row the two sync routes answer
    differently: the full sync route with status 500, the customers-only
    route with status 404, both with the error text ["tenant not found"].
    Neither sends a request nor changes a table. *)
Theorem sync_routes_on_unknown_tenant
  (order_by_createdAt : list Customer -> list Customer) (tenantId : string) (w : World) :
  hd false (w_faults w) = false ->
  find (fun t => String.eqb (t_id t) tenantId) (tenants (w_db w)) = None ->
  let full := sync_route tenantId in
  let customers_only := sync_customers_route order_by_createdAt tenantId in
  result full w = Ok (mkJson 500 (ErrorBody "tenant not found"))
  /\ result customers_only w = Ok (mkJson 404 (ErrorBody "tenant not found"))
  /\ w_db (exec full w) = w_db w /\ w_requests (exec full w) = w_requests w
  /\ w_db (exec customers_only w) = w_db w
  /\ w_requests (exec customers_only w) = w_requests w.
Proof.
  intros Hf Hnone. cbv zeta.
  unfold result, exec, sync_route, sync_customers_route, fullSync, try_catch, bind.
  rewrite (tenant_lookup_by_id tenantId w Hf), Hnone.
  repeat split.
Qed.

Lemma sync_routes_on_unknown_tenant_witness :
  let full := sync_route "t9" in
  let customers_only := sync_customers_route (fun l => l) "t9" in
  result full Fixtures.two_tenants_world = Ok (mkJson 500 (ErrorBody "tenant not found"))
  /\ result customers_only Fixtures.two_tenants_world
     = Ok (mkJson 404 (ErrorBody "tenant not found"))
  /\ w_db (exec full Fixtures.two_tenants_world) = w_db Fixtures.two_tenants_world
  /\ w_requests (exec full Fixtures.two_tenants_world)
     = w_requests Fixtures.two_tenants_world
  /\ w_db (exec customers_only Fixtures.two_tenants_world)
     = w_db Fixtures.two_tenants_world
  /\ w_requests (exec customers_only Fixtures.two_tenants_world)
     = w_requests Fixtures.two_tenants_world.
Proof.
  apply (sync_routes_on_unknown_tenant (fun l => l) "t9" Fixtures.two_tenants_world);
    reflexivity.
Defined.

(** One turn of the scheduler's loop: it returns, and its last word on the
    console is the outcome for that tenant. *)
Lemma scheduled_turn (t : string * string) (w : World) :
  let body :=
    try_catch
      (fullSync (fst t) ;; console LLog ("Synced tenant " ++ snd t)%string)
      (fun e => console LError ("Scheduled sync failed for " ++ snd t)%string) in
  exists w' before line,
    body w = (Ok tt, w')
    /\ kept (w_db w) (w_db w')
    /\ w_console w' = (w_console w ++ before ++ [line])%list
    /\ (line = (LLog, ("Synced tenant " ++ snd t)%string)
        \/ line = (LError, ("Scheduled sync failed for " ++ snd t)%string)).
Proof.
  cbv zeta. unfold try_catch, bind.
  destruct (append_only_fullSync (fst t) w) as [Hk [lines Hl]]. unfold exec in Hk, Hl.
  destruct (fullSync (fst t) w) as [[stats|e] w1]; cbn [snd] in Hk, Hl.
  - exists (exec (console LLog ("Synced tenant " ++ snd t)%string) w1), lines,
      (LLog, ("Synced tenant " ++ snd t)%string).
    split; [reflexivity|]. split; [exact Hk|].
    split; [cbn; rewrite Hl; now rewrite app_assoc | now left].
  - exists (exec (console LError ("Scheduled sync failed for " ++ snd t)%string) w1), lines,
      (LError, ("Scheduled sync failed for " ++ snd t)%string).
    split; [reflexivity|]. split; [exact Hk|].
    split; [cbn; rewrite Hl; now rewrite app_assoc | now right].
Qed.

Lemma scheduled_loop (ts : list (string * string)) :
  forall w,
    let body := fun (_ : unit) (t : string * string) =>
      try_catch
        (fullSync (fst t) ;; console LLog ("Synced tenant " ++ snd t)%string)
        (fun e => console LError ("Scheduled sync failed for " ++ snd t)%string) in
    exists w' lines,
      for_of ts body tt w = (Ok tt, w')
      /\ kept (w_db w) (w_db w')
      /\ w_console w' = (w_console w ++ lines)%list
      /\ forall t, In t ts ->
           In (LLog, ("Synced tenant " ++ snd t)%string) lines
           \/ In (LError, ("Scheduled sync failed for " ++ snd t)%string) lines.
Proof.
  induction ts as [|t ts IH]; intros w; cbv zeta.
  - exists w, []. split; [reflexivity|]. split; [apply kept_refl|].
    split; [now rewrite app_nil_r | intros t []].
  - cbn [for_of]. unfold bind at 1.
    destruct (scheduled_turn t w) as (w1 & before & line & E & Hk & Hc & Hline).
    cbv zeta in E. rewrite E.
    destruct (IH w1) as (w2 & lines & E2 & Hk2 & Hc2 & Hall). cbv zeta in E2.
    exists w2, (before ++ [line] ++ lines)%list.
    split; [exact E2|]. split; [eapply kept_trans; eassumption|].
    split; [rewrite Hc2, Hc, <- !app_assoc; reflexivity|].
    intros t' [<- | Hin].
    + destruct Hline as [-> | ->]; [left | right];
        apply in_or_app; right; now left.
    + destruct (Hall t' Hin) as [H | H]; [left | right];
        apply in_or_app; right; now right.
Qed.

(** X20: once the tenant table has been read, the scheduled job cannot
    fail: a tenant whose sync throws is logged and the job goes on to the
    next one. Every tenant is attempted; the console ends up with either a
    success line or a failure line for each shop. If the tenant table
    cannot be read, the job itself throws. *)
Theorem scheduled_sync_attempts_every_tenant (w : World) :
  (hd false (w_faults w) = false ->
   result scheduled_sync w = Ok tt
   /\ forall t, In t (tenants (w_db w)) ->
        In (LLog, ("Synced tenant " ++ t_shop t)%string) (w_console (exec scheduled_sync w))
        \/ In (LError, ("Scheduled sync failed for " ++ t_shop t)%string)
             (w_console (exec scheduled_sync w)))
  /\ (hd false (w_faults w) = true -> exists e, result scheduled_sync w = Throw e).
Proof.
  split; intros Hf.
  - enough (exists w' lines,
              scheduled_sync w = (Ok tt, w')
              /\ w_console w' = (w_console w ++ lines)%list
              /\ forall t, In t (tenants (w_db w)) ->
                   In (LLog, ("Synced tenant " ++ t_shop t)%string) lines
                   \/ In (LError, ("Scheduled sync failed for " ++ t_shop t)%string) lines)
      as (w' & lines & E & Hc & Hall).
    { unfold result, exec. rewrite E. cbn [fst snd]. split; [reflexivity|].
      intros t Hin. rewrite Hc.
      destruct (Hall t Hin) as [H | H]; [left | right]; apply in_or_app; now right. }
    unfold scheduled_sync, bind at 1.
    set (w0 := mkWorld (w_db w) (w_faults w) (w_replies w) (w_requests w)
                 (w_console w ++ [(LLog, "⏰ Scheduled sync start")])).
    change (console LLog "⏰ Scheduled sync start" w) with (Ok tt, w0).
    cbv beta iota. unfold bind at 1.
    set (w1 := mkWorld (w_db w) (tl (w_faults w)) (w_replies w) (w_requests w)
                 (w_console w ++ [(LLog, "⏰ Scheduled sync start")])).
    assert (E0 : tenant_findMany w0
                 = (Ok (map (fun t => (t_id t, t_shop t)) (tenants (w_db w))), w1)).
    { unfold tenant_findMany, prisma.storage_call, w0, w1.
      cbn [w_db w_faults w_replies w_requests w_console].
      destruct (w_faults w) as [|[|] fs]; try discriminate Hf; reflexivity. }
    rewrite E0.
    destruct (scheduled_loop (map (fun t => (t_id t, t_shop t)) (tenants (w_db w))) w1)
      as (w' & lines & E & _ & Hc & Hall). cbv zeta in E.
    rewrite E. exists w', ((LLog, "⏰ Scheduled sync start") :: lines).
    split; [reflexivity|]. split.
    { rewrite Hc. unfold w1. cbn [w_console]. now rewrite <- app_assoc. }
    intros t Hin.
    destruct (Hall (t_id t, t_shop t)) as [H | H];
      [apply in_map_iff; exists t; split; [reflexivity | exact Hin]
      | left; now right | right; now right].
  - unfold scheduled_sync, result, bind, tenant_findMany, prisma.storage_call.
    cbn [console w_db w_faults w_replies w_requests w_console].
    destruct (w_faults w) as [|[|] fs]; try discriminate Hf.
    eexists. reflexivity.
Qed.

Section Metrics.
Variable sum_decimals : list Decimal -> Decimal.

(** The summary reads nothing but the rows of its tenant. *)
Lemma metrics_summary_reads_own_rows (tenantId : string) (db db' : Store) (w : World) :
  unchanged_for tenantId db db' ->
  result (metrics_summary sum_decimals tenantId) (with_db db' w)
  = result (metrics_summary sum_decimals tenantId) (with_db db w).
Proof.
  intros (Hc & _ & Ho).
  unfold result, metrics_summary, try_catch, bind, count, aggregate_totalPrice,
    prisma.storage_call, with_db.
  cbn [w_db w_faults w_replies w_requests w_console].
  destruct (w_faults w) as [|[|] [|[|] [|[|] fs]]];
    cbn [w_db w_faults w_replies w_requests w_console fst snd];
    rewrite ?Hc, ?Ho; reflexivity.
Qed.

(** X21: the metrics summary of a tenant is not affected by what is synced
    or pushed for another tenant: after a full sync of [T1], or a webhook
    for the shop of [T1], with any remote data and any storage faults, the
    summary route answers for [T2] exactly what it would have answered
    before. *)
Theorem metrics_summary_unaffected_by_other_tenant
  (T1 T2 topic shop_ : string) (payload : value) (w asked : World) :
  T1 <> T2 ->
  well_keyed (w_db w) ->
  scoped (w_db w) ->
  (forall t, find (fun t => String.eqb (t_shop t) shop_) (tenants (w_db w)) = Some t ->
             t_id t = T1) ->
  let synced := w_db (exec (fullSync T1) w) in
  let pushed := w_db (exec (processWebhookPayload topic shop_ payload) w) in
  let before := result (metrics_summary sum_decimals T2) (with_db (w_db w) asked) in
  result (metrics_summary sum_decimals T2) (with_db synced asked) = before
  /\ result (metrics_summary sum_decimals T2) (with_db pushed asked) = before.
Proof.
  intros Hne Hk Hs Hshop. cbv zeta.
  pose proof (isolated_start T1 (w_db w) Hk Hs) as Hi.
  split; apply metrics_summary_reads_own_rows.
  - destruct (safe_fullSync T1 (w_db w) (fun _ => True) (fun _ _ _ _ => I) w Hi I I)
      as ((_ & _ & _ & Hoth) & _).
    now apply (others_unchanged_for T1).
  - destruct (safe_processWebhookPayload T1 (w_db w) topic shop_ payload Hshop
                (fun _ => True) (fun _ _ _ _ => I) w Hi I I)
      as ((_ & _ & _ & Hoth) & _).
    now apply (others_unchanged_for T1).
Qed.

(** X22: the summary route does not check that the tenant exists: for an id
    without rows, such as an unknown one, it answers 200 with zero
    customers, zero orders and the number 0 as revenue. *)
Theorem metrics_summary_without_rows (tenantId : string) (w : World) :
  quiet w ->
  tenant_rows (model := prisma.customer.model) tenantId (w_db w) = [] ->
  tenant_rows (model := prisma.order.model) tenantId (w_db w) = [] ->
  result (metrics_summary sum_decimals tenantId) w
  = Ok (mkJson 200 (SummaryBody 0 0 None)).
Proof.
  intros Hq Hc Ho. revert Hc Ho. open_quiet w Hq. cbn [w_db]. intros Hc Ho.
  unfold result, metrics_summary, try_catch, bind, count, aggregate_totalPrice,
    prisma.storage_call.
  cbn [w_db w_faults w_replies w_requests w_console fst snd].
  rewrite Hc, Ho. reflexivity.
Qed.
End Metrics.

Section Preserves.
Variable R : World -> World -> Prop.
Hypothesis R_refl : forall w, R w w.
Hypothesis R_trans : forall a b c, R a b -> R b c -> R a c.

Lemma preserves_ret {A} (a : A) : preserves R (ret a).
Proof. intros w. apply R_refl. Qed.

Lemma preserves_get_prop (k : string) (v : value) : preserves R (get_prop k v).
Proof. intros w. unfold get_prop. destruct (nullish v); apply R_refl. Qed.

Lemma preserves_bind {A B} (m : M A) (k : A -> M B) :
  preserves R m -> (forall a, preserves R (k a)) -> preserves R (bind m k).
Proof.
  intros Hm Hk w. specialize (Hm w). unfold exec, bind in *.
  destruct (m w) as [[a|e] w1]; cbn [snd] in *; [|exact Hm].
  eapply R_trans; [exact Hm | apply Hk].
Qed.

Lemma preserves_try {A} (m : M A) (h : Error -> M A) :
  preserves R m -> (forall e, preserves R (h e)) -> preserves R (try_catch m h).
Proof.
  intros Hm Hh w. specialize (Hm w). unfold exec, try_catch in *.
  destruct (m w) as [[a|e] w1]; cbn [snd] in *; [exact Hm|].
  eapply R_trans; [exact Hm | apply Hh].
Qed.
End Preserves.

Lemma same_rows_refl (w : World) : same_rows w w.
Proof. repeat split. Qed.

Lemma same_rows_trans (a b c : World) : same_rows a b -> same_rows b c -> same_rows a c.
Proof. intros (H1 & H2 & H3) (K1 & K2 & K3). repeat split; congruence. Qed.

Lemma same_rows_console (l : level) (msg : string) : preserves same_rows (console l msg).
Proof. intros w. repeat split. Qed.

Section OnboardingFacts.
Variable registerWebhooks : string -> string -> value -> M (list value).
Variable new_tenant_id : Store -> string.
Variable ADMIN_API_KEY : string.

Lemma tenant_upsert_tx_rows shop_ accessToken webhookSecret db t db' :
  tenant_upsert_tx new_tenant_id shop_ accessToken webhookSecret db = Ok (t, db') ->
  customers db' = customers db /\ products db' = products db /\ orders db' = orders db.
Proof.
  unfold tenant_upsert_tx. destruct shop_; try discriminate.
  destruct (prisma.text_opt "accessToken" accessToken);
    [|destruct (prisma.text_opt "webhookSecret" webhookSecret); discriminate].
  destruct (prisma.text_opt "webhookSecret" webhookSecret); [|discriminate].
  cbv zeta. destruct (find _ _).
  - intros [= _ <-]. repeat split.
  - destruct (existsb _ _); [discriminate|]. intros [= _ <-]. repeat split.
Qed.

Lemma same_rows_tenant_upsert shop_ accessToken webhookSecret :
  preserves same_rows
    (prisma.storage_call (tenant_upsert_tx new_tenant_id shop_ accessToken webhookSecret)).
Proof.
  intros w. unfold exec, prisma.storage_call.
  destruct (w_faults w) as [|[|] fs]; cbn [snd]; try (repeat split; fail);
    (destruct (tenant_upsert_tx _ _ _ _ _) as [[t db']|e] eqn:E; cbn [snd];
     [apply tenant_upsert_tx_rows in E; exact E | repeat split]).
Qed.

Lemma onboard_same_rows (req : OnboardRequest) :
  (forall shop_ token url w0, w_db (exec (registerWebhooks shop_ token url) w0) = w_db w0) ->
  preserves same_rows (onboard_route registerWebhooks new_tenant_id ADMIN_API_KEY req).
Proof.
  intros Hreg.
  assert (Hret : forall A (a : A), preserves same_rows (ret a))
    by (intros; apply preserves_ret, same_rows_refl).
  assert (Hbind : forall A B (m : M A) (k : A -> M B),
            preserves same_rows m -> (forall a, preserves same_rows (k a)) ->
            preserves same_rows (bind m k))
    by (intros A B m k Hm Hk; exact (preserves_bind same_rows same_rows_trans m k Hm Hk)).
  assert (Htry : forall A (m : M A) (h : Error -> M A),
            preserves same_rows m -> (forall e, preserves same_rows (h e)) ->
            preserves same_rows (try_catch m h))
    by (intros A m h Hm Hh; exact (preserves_try same_rows same_rows_trans m h Hm Hh)).
  unfold onboard_route. cbv zeta.
  destruct (negb _); [apply Hret|].
  apply Hbind; [apply preserves_get_prop, same_rows_refl|]. intros shop_.
  destruct (_ || _); [apply Hret|].
  apply Htry.
  2:{ intros e. apply Hbind; [apply same_rows_console | intros ?; apply Hret]. }
  apply Hbind; [apply same_rows_tenant_upsert|]. intros tenant.
  apply Hbind; [|intros ?; apply Hret].
  destruct (truthy _); [|apply Hret].
  apply Htry; [|intros e; apply same_rows_console].
  apply Hbind; [|intros ?; apply same_rows_console].
  intros w. unfold same_rows. now rewrite Hreg.
Qed.

(** X23: as long as [registerWebhooks] leaves the tables alone, onboarding
    never touches a customer, product or order row, and it changes the
    tenant table only for a request that carries the admin key and a
    truthy [shop] and [accessToken]. A request with another key, or none,
    is answered 403 and has no effect at all. *)
Theorem onboard_route_guards_tenant_table (req : OnboardRequest) (w : World) :
  (forall shop_ token url w0, w_db (exec (registerWebhooks shop_ token url) w0) = w_db w0) ->
  let onboard := onboard_route registerWebhooks new_tenant_id ADMIN_API_KEY in
  let db' := w_db (exec (onboard req) w) in
  (api_key req <> Some ADMIN_API_KEY ->
   onboard req w = (Ok (mkJson 403 (ErrorBody "forbidden")), w))
  /\ customers db' = customers (w_db w)
  /\ products db' = products (w_db w)
  /\ orders db' = orders (w_db w)
  /\ (tenants db' <> tenants (w_db w) ->
      api_key req = Some ADMIN_API_KEY
      /\ truthy (prop "shop" (onboard_body req)) = true
      /\ truthy (prop "accessToken" (onboard_body req)) = true).
Proof.
  intros Hreg. cbv zeta.
  destruct (onboard_same_rows req Hreg w) as (Hc & Hp & Ho).
  split; [|split; [exact Hc | split; [exact Hp | split; [exact Ho|]]]];
    clear Hc Hp Ho; unfold onboard_route; cbv zeta.
  - intros Hk. destruct (api_key req) as [k|]; [|reflexivity].
    destruct (String.eqb_spec k ADMIN_API_KEY) as [->|]; [now contradiction Hk|].
    reflexivity.
  - destruct (api_key req) as [k|]; [|intros H; now contradiction H].
    destruct (String.eqb_spec k ADMIN_API_KEY) as [->|]; cbn [negb];
      [|intros H; now contradiction H].
    unfold exec, bind at 1, get_prop.
    destruct (nullish (onboard_body req)); [intros H; now contradiction H|].
    unfold ret at 1. cbv beta iota.
    destruct (truthy (prop "shop" (onboard_body req))); cbn [negb orb];
      [|intros H; now contradiction H].
    destruct (truthy (prop "accessToken" (onboard_body req))); cbn [negb orb];
      [|intros H; now contradiction H].
    intros _. repeat split.
Qed.

(** What the secret of a shop is once the upsert of its tenant row has
    succeeded. *)
Lemma tenant_upsert_secret (DEFAULT s : string) (accessToken webhookSecret : value)
  (db db' : Store) (t : Tenant) :
  tenant_upsert_tx new_tenant_id (VStr s) accessToken webhookSecret db = Ok (t, db') ->
  secret_for DEFAULT s db'
  = match webhookSecret with
    | VStr k => k
    | VNull => DEFAULT
    | _ => secret_for DEFAULT s db
    end.
Proof.
  unfold tenant_upsert_tx, secret_for.
  destruct (prisma.text_opt "accessToken" accessToken) as [sa|];
    [|destruct (prisma.text_opt "webhookSecret" webhookSecret); discriminate].
  destruct (prisma.text_opt "webhookSecret" webhookSecret) as [sk|] eqn:Ek; [|discriminate].
  cbv zeta.
  destruct (find (fun t0 => String.eqb (t_shop t0) s) (tenants db)) as [old|] eqn:Ef.
  - intros [= _ <-]. cbn [tenants].
    rewrite find_update_first by (intros r; reflexivity).
    rewrite Ef. cbn [option_map t_webhookSecret].
    destruct webhookSecret; try discriminate Ek; injection Ek as <-; reflexivity.
  - destruct (existsb _ _); [discriminate|]. intros [= _ <-]. cbn [tenants].
    rewrite (find_app_new _ _ _ Ef) by (cbn; apply String.eqb_refl).
    cbn [t_webhookSecret].
    destruct webhookSecret; try discriminate Ek; injection Ek as <-; reflexivity.
Qed.

(** X24: after a tenant has been onboarded, the webhook route checks the
    webhooks of its shop against the secret given at onboarding. Without a
    secret in the onboarding request a shop that was known keeps the secret
    it had; a new shop, or one onboarded with [null], is checked against the
    server-wide default secret. The route then answers 200 to exactly the
    requests whose header is the tag of their body under that secret, and
    401 to the others. *)
Theorem onboarded_secret_authenticates_webhooks
  (DEFAULT_WEBHOOK_SECRET s a : string) (req : OnboardRequest) (w : World) :
  quiet w ->
  api_key req = Some ADMIN_API_KEY ->
  prop "shop" (onboard_body req) = VStr s -> s <> "" ->
  prop "accessToken" (onboard_body req) = VStr a -> a <> "" ->
  textual (prop "webhookSecret" (onboard_body req)) = true ->
  truthy (prop "ngrokUrl" (onboard_body req)) = false ->
  (find (fun t => String.eqb (t_shop t) s) (tenants (w_db w)) = None ->
   existsb (fun t => String.eqb (t_id t) (new_tenant_id (w_db w))) (tenants (w_db w))
   = false) ->
  let onboard := onboard_route registerWebhooks new_tenant_id ADMIN_API_KEY in
  let secret := match prop "webhookSecret" (onboard_body req) with
                | VStr k => k
                | VNull => DEFAULT_WEBHOOK_SECRET
                | _ => secret_for DEFAULT_WEBHOOK_SECRET s (w_db w)
                end in
  (exists t, result (onboard req) w = Ok (mkJson 200 (TenantBody t))
             /\ t_shop t = s /\ t_accessToken t = Some a)
  /\ forall (raw : Buffer) (hmac topic : string) (payload : value),
       result (webhook_route DEFAULT_WEBHOOK_SECRET
                 (mkWebhookRequest (Some raw) hmac s topic payload))
         (exec (onboard req) w)
       = Ok (if String.eqb hmac (hmac_base64 secret raw)
             then mkResponse 200 "ok"
             else mkResponse 401 "invalid hmac").
Proof.
  intros Hq Hkey Hshop Hs Htok Ha Hws Hng Hfresh. cbv zeta.
  revert Hfresh. open_quiet w Hq. cbn [w_db]. intros Hfresh.
  assert (Hnn : nullish (onboard_body req) = false).
  { destruct (onboard_body req); try reflexivity; discriminate Hshop. }
  assert (Hup : exists t db',
            tenant_upsert_tx new_tenant_id (VStr s) (VStr a)
              (prop "webhookSecret" (onboard_body req)) db = Ok (t, db')
            /\ t_shop t = s /\ t_accessToken t = Some a).
  { unfold tenant_upsert_tx. cbn [prisma.text_opt].
    rewrite text_opt_textual by exact Hws. cbv zeta.
    destruct (find (fun t0 => String.eqb (t_shop t0) s) (tenants db)) as [old|] eqn:Ef.
    - eexists. eexists. split; [reflexivity|]. cbn [t_shop t_accessToken set_slot].
      apply find_some in Ef as [_ Ef]. apply String.eqb_eq in Ef.
      split; [exact Ef | reflexivity].
    - cbn [t_id]. rewrite (Hfresh eq_refl). eexists. eexists. split; [reflexivity|].
      split; reflexivity. }
  destruct Hup as (t & db' & Hup & Hts & Hta).
  assert (Erun : onboard_route registerWebhooks new_tenant_id ADMIN_API_KEY req
                   (mkWorld db [] replies requests cons)
                 = (Ok (mkJson 200 (TenantBody t)),
                    mkWorld db' [] replies requests cons)).
  { unfold onboard_route. cbv zeta. rewrite Hkey, String.eqb_refl. cbn [negb].
    unfold bind at 1, get_prop. rewrite Hnn. unfold ret at 1. cbv beta iota.
    rewrite Hshop, Htok, Hng.
    rewrite (truthy_nonempty s Hs), (truthy_nonempty a Ha). cbn [negb orb].
    unfold try_catch, bind, prisma.storage_call.
    cbn [w_db w_faults w_replies w_requests w_console]. rewrite Hup. reflexivity. }
  split.
  { exists t. unfold result. rewrite Erun. repeat split; assumption. }
  intros raw hmac topic payload. unfold exec at 1. rewrite Erun. cbn [snd].
  rewrite <- (tenant_upsert_secret DEFAULT_WEBHOOK_SECRET s _ _ db db' t Hup).
  unfold result, webhook_route, try_catch at 1. cbv zeta.
  cbn [rawBody hmac_header shop_header topic_header parsed_body].
  rewrite (truthy_nonempty s Hs). cbn [negb].
  unfold bind at 1, prisma.tenant.findUnique_shop at 1, prisma.storage_call.
  cbn [w_db w_faults w_replies w_requests w_console].
  fold (secret_for DEFAULT_WEBHOOK_SECRET s db').
  unfold bind at 1. rewrite verifyHmac_buffer.
  destruct (String.eqb hmac (hmac_base64 (secret_for DEFAULT_WEBHOOK_SECRET s db') raw));
    cbn [negb]; [|reflexivity].
  unfold bind at 1.
  match goal with
  | |- context [processWebhookPayload topic s payload ?w1] =>
      destruct (dispatcher_swallows_branch_errors topic s payload w1) as (w2 & ->)
  end; [|reflexivity].
  destruct (_ && _); reflexivity.
Qed.

Lemma tenants_kept_refl (w : World) : tenants_kept w w.
Proof. split; [exists []; now rewrite app_nil_r | split; auto]. Qed.

Lemma tenants_kept_same (w w' : World) : w_db w' = w_db w -> tenants_kept w w'.
Proof.
  intros H. unfold tenants_kept. rewrite H.
  split; [exists []; now rewrite app_nil_r | split; auto].
Qed.

Lemma tenants_kept_trans (a b c : World) :
  tenants_kept a b -> tenants_kept b c -> tenants_kept a c.
Proof.
  intros ([x Hx] & H1 & H2) ([y Hy] & K1 & K2).
  split; [exists (x ++ y)%list; now rewrite Hy, Hx, app_assoc | split; auto].
Qed.

Lemma tenants_kept_upsert shop_ accessToken webhookSecret :
  preserves tenants_kept
    (prisma.storage_call (tenant_upsert_tx new_tenant_id shop_ accessToken webhookSecret)).
Proof.
  intros w. unfold exec, prisma.storage_call.
  assert (Hsame : forall fs, tenants_kept w
                    (mkWorld (w_db w) fs (w_replies w) (w_requests w) (w_console w)))
    by (intros; now apply tenants_kept_same).
  assert (Htx : forall fs t db',
            tenant_upsert_tx new_tenant_id shop_ accessToken webhookSecret (w_db w)
            = Ok (t, db') ->
            tenants_kept w (mkWorld db' fs (w_replies w) (w_requests w) (w_console w))).
  { intros fs t db'. unfold tenant_upsert_tx, tenants_kept. cbn [w_db].
    destruct shop_ as [| | | |s| |]; try discriminate.
    destruct (prisma.text_opt "accessToken" accessToken);
      [|destruct (prisma.text_opt "webhookSecret" webhookSecret); discriminate].
    destruct (prisma.text_opt "webhookSecret" webhookSecret); [|discriminate].
    cbv zeta.
    destruct (find (fun t0 => String.eqb (t_shop t0) s) (tenants (w_db w))) eqn:Ef.
    - intros [= _ <-]. cbn [tenants].
      rewrite !map_update_first by (intros r; reflexivity).
      split; [exists []; now rewrite app_nil_r | split; auto].
    - cbn [t_id]. destruct (existsb _ _) eqn:Ex; [discriminate|].
      intros [= _ <-]. cbn [tenants].
      split; [eexists; apply map_app|]. split; intros Hnd.
      + apply NoDup_app_new; [exact Hnd|]. cbn [t_id]. intros Hin.
        apply in_map_iff in Hin as (t0 & Hid & Hin).
        apply Bool.not_true_iff_false in Ex. apply Ex.
        apply existsb_exists. exists t0. split; [exact Hin|]. now apply String.eqb_eq.
      + apply NoDup_app_new; [exact Hnd|]. cbn [t_shop]. intros Hin.
        apply in_map_iff in Hin as (t0 & Hshop & Hin).
        apply (find_none _ _ Ef) in Hin. apply String.eqb_neq in Hin. contradiction. }
  destruct (w_faults w) as [|[|] fs]; cbn [snd]; try apply Hsame;
    (destruct (tenant_upsert_tx _ _ _ _ _) as [[t db']|e] eqn:E; cbn [snd];
     [eapply Htx; reflexivity | apply Hsame]).
Qed.

(** X25: onboarding a shop again does not make a second tenant row for it:
    as long as [registerWebhooks] leaves the tables alone, every tenant row
    keeps its place, its id and its shop, whatever the request is, and the
    tenant table keeps at most one row per id and one per shop. *)
Theorem onboarding_keeps_tenant_identities (req : OnboardRequest) (w : World) :
  (forall shop_ token url w0, w_db (exec (registerWebhooks shop_ token url) w0) = w_db w0) ->
  tenants_kept w (exec (onboard_route registerWebhooks new_tenant_id ADMIN_API_KEY req) w).
Proof.
  intros Hreg. revert w.
  assert (Hret : forall A (a : A), preserves tenants_kept (ret a))
    by (intros; apply preserves_ret, tenants_kept_refl).
  assert (Hbind : forall A B (m : M A) (k : A -> M B),
            preserves tenants_kept m -> (forall a, preserves tenants_kept (k a)) ->
            preserves tenants_kept (bind m k))
    by (intros A B m k Hm Hk;
        exact (preserves_bind tenants_kept tenants_kept_trans m k Hm Hk)).
  assert (Htry : forall A (m : M A) (h : Error -> M A),
            preserves tenants_kept m -> (forall e, preserves tenants_kept (h e)) ->
            preserves tenants_kept (try_catch m h))
    by (intros A m h Hm Hh;
        exact (preserves_try tenants_kept tenants_kept_trans m h Hm Hh)).
  assert (Hlog : forall l msg, preserves tenants_kept (console l msg))
    by (intros l msg w; now apply tenants_kept_same).
  change (preserves tenants_kept
            (onboard_route registerWebhooks new_tenant_id ADMIN_API_KEY req)).
  unfold onboard_route. cbv zeta.
  destruct (negb _); [apply Hret|].
  apply Hbind; [apply preserves_get_prop, tenants_kept_refl|]. intros shop_.
  destruct (_ || _); [apply Hret|].
  apply Htry.
  2:{ intros e. apply Hbind; [apply Hlog | intros ?; apply Hret]. }
  apply Hbind; [apply tenants_kept_upsert|]. intros tenant.
  apply Hbind; [|intros ?; apply Hret].
  destruct (truthy _); [|apply Hret].
  apply Htry; [|intros e; apply Hlog].
  apply Hbind; [|intros ?; apply Hlog].
  intros w. apply tenants_kept_same, Hreg.
Qed.
End OnboardingFacts.

(** A handler wrapped in [try]/[catch] whose handler answers: it answers. *)
Lemma try_answers (m : M JsonResponse) (l : level) (msg : string)
  (failed : Error -> JsonResponse) (P : JsonResponse -> Prop) (w : World) :
  (forall w0 a w', m w0 = (Ok a, w') -> P a) ->
  (forall e, P (failed e)) ->
  exists r, result (try_catch m (fun err => console l msg ;; ret (failed err))) w = Ok r
            /\ P r.
Proof.
  intros Hm Hf. unfold result, try_catch. destruct (m w) as [[a|e] w1] eqn:E.
  - exists a. split; [reflexivity | eapply Hm; exact E].
  - exists (failed e). split; [reflexivity | apply Hf].
Qed.

(** X18: the full sync route, the customers-only sync route and the metrics
    route answer every request, whatever happens underneath: an exception
    becomes the answer 500. The full sync and metrics routes answer 200 or
    500, the customers-only route 200, 404 or 500. *)
Theorem routes_always_answer
  (order_by_createdAt : list Customer -> list Customer)
  (sum_decimals : list Decimal -> Decimal) (tenantId : string) (w : World) :
  (exists r, result (sync_route tenantId) w = Ok r
             /\ In (json_status r) [200; 500]%Z)
  /\ (exists r, result (sync_customers_route order_by_createdAt tenantId) w = Ok r
                /\ In (json_status r) [200; 404; 500]%Z)
  /\ (exists r, result (metrics_summary sum_decimals tenantId) w = Ok r
                /\ In (json_status r) [200; 500]%Z).
Proof.
  split; [|split].
  - unfold sync_route.
    apply (try_answers _ _ _ (fun err => mkJson 500 (ErrorBody (message_or err "sync failed")))
             (fun r => In (json_status r) [200; 500]%Z)).
    + intros w0. apply bind_returns. intros stats w1 b w2 [= <- _]. cbn. tauto.
    + intros e. cbn. tauto.
  - unfold sync_customers_route.
    apply (try_answers _ _ _ (fun err => mkJson 500 (ErrorBody (message_or err "failed")))
             (fun r => In (json_status r) [200; 404; 500]%Z)).
    + intros w0. apply bind_returns. intros [tenant|] w1 b w2.
      * cbv zeta. revert w1 b w2. 
        apply bind_returns. intros customers w1.
        apply bind_returns. intros u w2.
        apply bind_returns. intros rows w3 b w4 [= <- _]. cbn. tauto.
      * intros [= <- _]. cbn. tauto.
    + intros e. cbn. tauto.
  - unfold metrics_summary.
    apply (try_answers _ _ _ (fun err => mkJson 500 (ErrorBody (message_or err "failed")))
             (fun r => In (json_status r) [200; 500]%Z)).
    + intros w0. apply bind_returns. intros n1 w1.
      apply bind_returns. intros n2 w2.
      apply bind_returns. intros rev w3 b w4 [= <- _]. cbn. tauto.
    + intros e. cbn. tauto.
Qed.

(** The loop of the customers-only route stops at a record it cannot
    store. *)
Lemma store_customer_loop_aborts (tenantId : string) (items : list value) (bad : value) :
  In bad items ->
  unstorable bad ->
  forall w, exists e w', for_of items (store_customer tenantId) tt w = (Throw e, w').
Proof.
  intros Hin Hbad. induction items as [|c items IH]; [contradiction|].
  intros w. cbn [for_of]. unfold bind at 1.
  destruct (store_customer tenantId tt c w) as [[[]|e] w1] eqn:E.
  2:{ eexists. eexists. reflexivity. }
  destruct Hin as [-> | Hin]; [exfalso | now apply IH].
  unfold store_customer, bind, get_prop in E.
  destruct Hbad as [Hn | Hv].
  - rewrite Hn in E. discriminate E.
  - destruct (nullish bad); [discriminate E|]. cbn [ret] in E.
    unfold route_data_valid in Hv.
    unfold prisma.customer.upsert, prisma.upsert, prisma.storage_call, prisma.upsert_tx in E.
    cbn [prisma.validate prisma.customer.model fst snd] in E.
    destruct (prisma.customer.check (route_customer_data bad)); [discriminate Hv|].
    destruct (w_faults w) as [|[|] fs]; discriminate E.
Qed.

(** X19: one record that cannot be stored ([null], or data the storage
    client refuses) among the customers fetched makes the customers-only
    sync route answer 500, however many records were stored before it;
    unlike the customer loop of [fullSync], its loop has no [try] of its
    own. *)
Theorem unstorable_record_fails_customers_route
  (order_by_createdAt : list Customer -> list Customer) (tenantId : string)
  (tenant : Tenant) (items : list value) (bad : value) (w : World) :
  let looked_up := exec (prisma.tenant.findUnique_id tenantId) w in
  result (prisma.tenant.findUnique_id tenantId) w = Ok (Some tenant) ->
  result (fetchAllCustomers
            (makeClient (t_shop tenant) (token_text (t_accessToken tenant)))) looked_up
  = Ok items ->
  In bad items ->
  unstorable bad ->
  exists error,
    result (sync_customers_route order_by_createdAt tenantId) w
    = Ok (mkJson 500 (ErrorBody error)).
Proof.
  cbv zeta. unfold result, exec. intros Ht Hfetch Hin Hbad.
  unfold sync_customers_route, try_catch, bind at 1.
  destruct (prisma.tenant.findUnique_id tenantId w) as [o w1]. cbn [fst snd] in *.
  subst o. cbv zeta. unfold bind at 1.
  destruct (fetchAllCustomers _ w1) as [o w2]. cbn [fst] in Hfetch. subst o.
  unfold bind at 1.
  destruct (store_customer_loop_aborts tenantId items bad Hin Hbad w2) as (e & w3 & ->).
  eexists. reflexivity.
Qed.

Lemma metrics_summary_unaffected_by_other_tenant_witness :
  let w := Fixtures.colliding_world in
  let synced := w_db (exec (fullSync "t1") w) in
  let pushed := w_db (exec (processWebhookPayload "orders/create" "one.myshopify.com"
                              Fixtures.remote_order) w) in
  let before := result (metrics_summary Samples.written_sum "t2")
                  (with_db (w_db w) Fixtures.empty_world) in
  result (metrics_summary Samples.written_sum "t2") (with_db synced Fixtures.empty_world)
  = before
  /\ result (metrics_summary Samples.written_sum "t2")
       (with_db pushed Fixtures.empty_world) = before.
Proof.
  apply (metrics_summary_unaffected_by_other_tenant Samples.written_sum "t1" "t2"
           "orders/create" "one.myshopify.com" Fixtures.remote_order
           Fixtures.colliding_world Fixtures.empty_world).
  - discriminate.
  - simpl. split; [|split].
    + repeat constructor; simpl; intuition discriminate.
    + intros c [<- | [<- | []]]; cbn; lia.
    + intros o i [<- | []] [= <-]. cbn. lia.
  - intros o c [<- | []] [<- | [<- | []]]; simpl; intros H;
      [discriminate | reflexivity].
  - simpl. intros t [= <-]. reflexivity.
Defined.

Lemma metrics_summary_without_rows_witness :
  result (metrics_summary Samples.written_sum "t9") Fixtures.two_tenants_world
  = Ok (mkJson 200 (SummaryBody 0 0 None)).
Proof.
  apply (metrics_summary_without_rows Samples.written_sum "t9"
           Fixtures.two_tenants_world); reflexivity.
Defined.

Lemma onboard_route_guards_tenant_table_witness :
  let onboard := onboard_route Samples.no_registration Samples.next_id_t3
                   Samples.admin_key in
  let db' := w_db (exec (onboard Samples.onboard_forged) Fixtures.two_tenants_world) in
  (api_key Samples.onboard_forged <> Some Samples.admin_key ->
   onboard Samples.onboard_forged Fixtures.two_tenants_world
   = (Ok (mkJson 403 (ErrorBody "forbidden")), Fixtures.two_tenants_world))
  /\ customers db' = customers (w_db Fixtures.two_tenants_world)
  /\ products db' = products (w_db Fixtures.two_tenants_world)
  /\ orders db' = orders (w_db Fixtures.two_tenants_world)
  /\ (tenants db' <> tenants (w_db Fixtures.two_tenants_world) ->
      api_key Samples.onboard_forged = Some Samples.admin_key
      /\ truthy (prop "shop" (onboard_body Samples.onboard_forged)) = true
      /\ truthy (prop "accessToken" (onboard_body Samples.onboard_forged)) = true).
Proof.
  apply (onboard_route_guards_tenant_table Samples.no_registration Samples.next_id_t3
           Samples.admin_key Samples.onboard_forged Fixtures.two_tenants_world).
  reflexivity.
Defined.

Lemma onboarded_secret_authenticates_webhooks_witness :
  let onboard := onboard_route Samples.no_registration Samples.next_id_t3
                   Samples.admin_key in
  (exists t, result (onboard Samples.onboard_three) Fixtures.two_tenants_world
             = Ok (mkJson 200 (TenantBody t))
             /\ t_shop t = "three.myshopify.com"
             /\ t_accessToken t = Some "shpat_three")
  /\ forall (raw : Buffer) (hmac topic : string) (payload : value),
       result (webhook_route Fixtures.default_secret
                 (mkWebhookRequest (Some raw) hmac "three.myshopify.com" topic payload))
         (exec (onboard Samples.onboard_three) Fixtures.two_tenants_world)
       = Ok (if String.eqb hmac (hmac_base64 "whsec_three" raw)
             then mkResponse 200 "ok"
             else mkResponse 401 "invalid hmac").
Proof.
  apply (onboarded_secret_authenticates_webhooks Samples.no_registration
           Samples.next_id_t3 Samples.admin_key Fixtures.default_secret
           "three.myshopify.com" "shpat_three" Samples.onboard_three
           Fixtures.two_tenants_world);
    try reflexivity; discriminate.
Defined.

Lemma onboarding_keeps_tenant_identities_witness :
  tenants_kept Fixtures.two_tenants_world
    (exec (onboard_route Samples.no_registration Samples.next_id_t3 Samples.admin_key
             Samples.onboard_three) Fixtures.two_tenants_world).
Proof.
  apply (onboarding_keeps_tenant_identities Samples.no_registration Samples.next_id_t3
           Samples.admin_key Samples.onboard_three Fixtures.two_tenants_world).
  reflexivity.
Defined.

Lemma unstorable_record_fails_customers_route_witness :
  exists error,
    result (sync_customers_route (fun rows => rows) "t1") Samples.customers_with_null
    = Ok (mkJson 500 (ErrorBody error)).
Proof.
  apply (unstorable_record_fails_customers_route (fun rows => rows) "t1"
           Fixtures.tenant1 [Fixtures.remote_customer; VNull] VNull
           Samples.customers_with_null).
  - reflexivity.
  - vm_compute. reflexivity.
  - right. now left.
  - left. reflexivity.
Defined.

